(** * ABM agent: the RAG assembly pipeline and the run lifecycle

    A shallow embedding of [src/lib/rag.ts], [src/app/api/abm/route.ts],
    [src/lib/scraper.ts], the research client ([youcom.ts]), the prompt
    templates ([prompts.ts]) and the SQL function [match_abm_insights],
    followed by the properties of the specification that concern them.

    Conventions.
    - A JavaScript string is a sequence of UTF-16 code units; it is held as
      the [string] of the bytes of its UTF-8 encoding (a code unit that is
      half of no pair is encoded like a code point of three bytes).  Its
      [length] is [Js.string_length], not the number of bytes.
    - A JS value that may be [undefined] or [null] is an [option].
    - [async]/[await] code runs sequentially; it is written in the monad [M]
      below, which threads the persistent stores and a log of the calls made
      to external services, and carries JavaScript exceptions.
    - Every external service (HTTP, OpenAI, Supabase, the JSON parser of the
      runtime) is a field of the record [Env]; its answer may depend on the
      whole current state, so successive calls may answer differently. *)

From stdpp Require Import base list strings gmap pretty sorting.
From Stdlib Require Import Ascii QArith.

Close Scope Q_scope.
Open Scope string_scope.
Open Scope list_scope.

(** ** JavaScript helpers *)

Module Js.

(** Truthiness of a string: only the empty string is falsy. *)
Definition truthy (s : string) : bool :=
  match s with
  | EmptyString => false
  | String _ _ => true
  end.

(** [a || b] on strings. *)
Definition or_else (a b : string) : string := if truthy a then a else b.

(** Truthiness of a possibly-undefined string, as in [if (x?.about)]. *)
Definition truthy_opt (o : option string) : bool :=
  match o with
  | Some s => truthy s
  | None => false
  end.

(** The UTF-16 code units that the character starting with the byte [a]
    takes: a byte that continues a character takes none, the first byte of
    four a surrogate pair. *)
Definition units (a : ascii) : nat :=
  let n := nat_of_ascii a in
  if (n <? 128)%nat then 1
  else if (n <? 192)%nat then 0
  else if (n <? 240)%nat then 1
  else 2.

(** [s.length]. *)
Fixpoint string_length (s : string) : nat :=
  match s with
  | EmptyString => 0
  | String a s' => units a + string_length s'
  end.

(** The first half of the surrogate pair of the character of four bytes
    [a b c d], encoded on three bytes. *)
Definition high_surrogate (a b c d : ascii) : string :=
  let cp := (N_of_ascii a mod 8 * 262144 + N_of_ascii b mod 64 * 4096
             + N_of_ascii c mod 64 * 64 + N_of_ascii d mod 64)%N in
  let hi := (55296 + (cp - 65536) / 1024)%N in
  String (ascii_of_N (224 + hi / 4096))
    (String (ascii_of_N (128 + (hi / 64) mod 64))
       (String (ascii_of_N (128 + hi mod 64)) EmptyString)).

(** [s.substring(0, n)]: the first [n] code units.  A cut between the halves
    of a pair keeps the first half. *)
Fixpoint substring0 (n : nat) (s : string) : string :=
  match s with
  | EmptyString => EmptyString
  | String a s' =>
      match units a with
      | 0 => String a (substring0 n s')
      | 1 => match n with
             | 0 => EmptyString
             | S n' => String a (substring0 n' s')
             end
      | _ => match n with
             | 0 => EmptyString
             | 1 => match s' with
                    | String b (String c (String d _)) => high_surrogate a b c d
                    | _ => EmptyString
                    end
             | S (S n') => String a (substring0 n' s')
             end
      end
  end.

(** [Array.prototype.join]. *)
Definition join (sep : string) (l : list string) : string := String.concat sep l.

(** [Array.prototype.flatMap]. *)
Definition flatMap {A B} (f : A → list B) (l : list A) : list B := mjoin (f <$> l).

(** [Array.prototype.slice(0, n)]. *)
Definition slice0 {A} (n : nat) (l : list A) : list A := take n l.

(** Decimal rendering of a number in a template literal. *)
Definition num (n : nat) : string := pretty n.

(** *** [Map] with string keys

    A JavaScript [Map] iterates in the order in which keys were first
    inserted; setting a key that is already present replaces the value and
    keeps the position.  Both matter here, so the map is an association
    list in iteration order. *)

Section Map.
Context {V : Type}.

Fixpoint Map_set (k : string) (v : V) (m : list (string * V)) : list (string * V) :=
  match m with
  | [] => [(k, v)]
  | (k', v') :: m' =>
      if decide (k' = k) then (k, v) :: m' else (k', v') :: Map_set k v m'
  end.

Fixpoint Map_get (k : string) (m : list (string * V)) : option V :=
  match m with
  | [] => None
  | (k', v') :: m' => if decide (k' = k) then Some v' else Map_get k m'
  end.

(** [new Map(entries)]. *)
Definition Map_new (entries : list (string * V)) : list (string * V) :=
  foldl (λ m e, Map_set e.1 e.2 m) [] entries.

(** [map.values()]. *)
Definition Map_values (m : list (string * V)) : list V := m.*2.

Definition Map_keys (m : list (string * V)) : list string := m.*1.

(** Folding [set] over entries, starting from any map. *)
Definition Map_extend (m : list (string * V)) (entries : list (string * V)) :=
  foldl (λ m e, Map_set e.1 e.2 m) m entries.

End Map.

End Js.

(** ** JSON values

    The value produced by [JSON.parse].  Numbers keep their lexeme: the code
    only ever tests them for truthiness, which [Json.is_zero] decides for the
    double the lexeme is rounded to.  An array carries the own properties
    other than its elements, since an assignment [parsed.citations = ...]
    on an array adds one. *)

Inductive JValue : Type :=
| JNull
| JBool (b : bool)
| JNum (lexeme : string)
| JStr (s : string)
| JArr (elems : list JValue) (props : list (string * JValue))
| JObj (fields : list (string * JValue)).

Module Json.

Definition arr (l : list JValue) : JValue := JArr l [].
Definition strs (l : list string) : JValue := arr (JStr <$> l).

(** *** Numbers

    [JSON.parse] turns the lexeme of a number into the nearest double, ties
    to even.  The code only tests numbers against zero. *)

Definition digit (a : ascii) : option N :=
  let n := N_of_ascii a in
  if ((48 <=? n) && (n <=? 57))%N then Some (n - 48)%N else None.

(** The digits at the head of [s] appended to [acc] in base ten, their
    number, and what follows them. *)
Fixpoint digits (acc : N) (s : string) : N * nat * string :=
  match s with
  | String a s' =>
      match digit a with
      | Some d => let '(m, k, r) := digits (10 * acc + d)%N s' in (m, S k, r)
      | None => (acc, 0%nat, s)
      end
  | EmptyString => (acc, 0%nat, s)
  end.

(** [m] and [e] such that the lexeme denotes [m * 10 ^ e], sign apart. *)
Definition decimal (lexeme : string) : N * Z :=
  let s := match lexeme with String "-" s' => s' | _ => lexeme end in
  let '(m, _, s) := digits 0 s in
  let '(m, fraction, s) :=
    match s with
    | String "." s' => digits m s'
    | _ => (m, 0%nat, s)
    end in
  let exponent :=
    match s with
    | String _ (String "-" s') => (- Z.of_N (digits 0 s').1.1)%Z
    | String _ (String "+" s') => Z.of_N (digits 0 s').1.1
    | String _ s' => Z.of_N (digits 0 s').1.1
    | EmptyString => 0%Z
    end in
  (m, (exponent - Z.of_nat fraction)%Z).

(** The double of a lexeme is zero when its mantissa is zero, and when the
    number is at most 2^-1075, half of the least positive double. *)
Definition is_zero (lexeme : string) : bool :=
  let '(m, e) := decimal lexeme in
  (m =? 0)%N || ((e <? 0)%Z && (N.shiftl m 1075 <=? 10 ^ Z.to_N (- e))%N).

(** Truthiness of a value that may be [undefined] ([None]). *)
Definition truthy (o : option JValue) : bool :=
  match o with
  | None | Some JNull => false
  | Some (JBool b) => b
  | Some (JNum n) => negb (is_zero n)
  | Some (JStr s) => Js.truthy s
  | Some (JArr _ _) | Some (JObj _) => true
  end.

(** Own property read [v.k] on a non-nullish value; [None] is [undefined].
    Only keys that are neither indices nor built-in properties are read by
    the code ([citations], [insights], ...), except [length], see below. *)
Definition get (v : JValue) (k : string) : option JValue :=
  match v with
  | JObj fields => Js.Map_get k fields
  | JArr _ props => Js.Map_get k props
  | _ => None
  end.

(** [v.length === 0] for a truthy [v]. *)
Definition length_is_zero (v : JValue) : bool :=
  match v with
  | JArr elems _ => match elems with [] => true | _ => false end
  | JObj fields =>
      match Js.Map_get "length" fields with
      | Some (JNum n) => is_zero n
      | _ => false
      end
  | _ => false
  end.

(** Assignment [v.k = x] in strict mode: [None] when it throws, which it
    does on a primitive. *)
Definition set (v : JValue) (k : string) (x : JValue) : option JValue :=
  match v with
  | JObj fields => Some (JObj (Js.Map_set k x fields))
  | JArr elems props => Some (JArr elems (Js.Map_set k x props))
  | _ => None
  end.

Definition has_field (v : JValue) (k : string) : bool :=
  match get v k with Some _ => true | None => false end.

(** An object or an array, as opposed to [null] and the primitives. *)
Definition is_object (v : JValue) : bool :=
  match v with
  | JArr _ _ | JObj _ => true
  | _ => false
  end.

End Json.

(** ** Data model *)

(** [Citation] of [youcom.ts]. *)
Record Citation := mkCitation {
  text : string;
  url : string;
  title : option string;
}.

(** [ScrapedCompanyData] of [scraper.ts]. *)
Record Metadata := mkMetadata {
  meta_title : option string;
  keywords : option string;
  about : option string;
}.

Record ScrapedCompanyData := mkScraped {
  name : string;
  description : string;
  domain : string;
  metadata : option Metadata;
}.

(** [ABMInsights] of [rag.ts]. *)
Record ABMInsights := mkInsights {
  insights : list string;
  email_subject : string;
  email_body : string;
  citations : list string;
}.

Definition ABMInsights_fields : list string :=
  ["insights"; "email_subject"; "email_body"; "citations"].

(** The object literal of an [ABMInsights] value. *)
Definition ABMInsights_json (a : ABMInsights) : JValue :=
  JObj [("insights", Json.strs (insights a));
        ("email_subject", JStr (email_subject a));
        ("email_body", JStr (email_body a));
        ("citations", Json.strs (citations a))].

(** A value has the four fields of [ABMInsights]. *)
Definition has_all_insight_fields (v : JValue) : bool :=
  forallb (Json.has_field v) ABMInsights_fields.

Definition Embedding : Type := list Q.

(** A row of the table [abm_insights] (columns [id] and [created_at] are not
    read by the code).  [embedding] is [None] when the record was built with
    [embeddings[idx]] undefined. *)
Record ContentJson := mkContent {
  content_text : string;
  chunk_index : nat;
}.

Record InsightRecord := mkRecord {
  run_id : string;
  content_json : ContentJson;
  embedding : option Embedding;
  record_citations : list Citation;
}.

(** A row of the table [abm_runs]. *)
Inductive Status := processing | completed | failed.

Record FullResult := mkFullResult {
  result_insights : JValue;
  scraped_data : ScrapedCompanyData;
  you_com_citations : nat;
}.

Record Run := mkRun {
  company : string;
  run_domain : string;
  status : Status;
  result_json : option FullResult;
}.

#[global] Instance Status_eq_dec : EqDecision Status.
Proof. solve_decision. Defined.

(** ** Text helpers and the prompt templates *)

Module Text.

Definition nl : string := String (ascii_of_nat 10) "".
Definition dquote : string := String (ascii_of_nat 34) "".

(** A double-quoted word inside a template. *)
Definition q (s : string) : string := dquote +:+ s +:+ dquote.

(** The lines of a multi-line template literal. *)
Definition lines (l : list string) : string := Js.join nl l.

(** [s.split(c)[0]]: the part of [s] before the first [c]. *)
Fixpoint before (c : ascii) (s : string) : string :=
  match s with
  | EmptyString => EmptyString
  | String a s' => if Ascii.eqb a c then EmptyString else String a (before c s')
  end.

(** [s.replace(/^p/, '')] for a literal prefix [p]. *)
Definition drop_prefix (p s : string) : string :=
  if String.prefix p s
  then String.substring (String.length p) (String.length s - String.length p) s
  else s.

(** [s.replace(/^https?:\/\//, '')]. *)
Definition drop_scheme (s : string) : string :=
  if String.prefix "https://" s then drop_prefix "https://" s
  else drop_prefix "http://" s.

(** [domain.replace(/^https?:\/\//, '').replace(/^www\./, '')]. *)
Definition clean_domain (domain : string) : string :=
  drop_prefix "www." (drop_scheme domain).

(** The white space and the line terminators of ECMAScript, which [trim]
    removes, by the bytes of their UTF-8 encoding: U+0009 to U+000D and
    U+0020; U+00A0; U+1680, U+2000 to U+200A, U+2028, U+2029, U+202F, U+205F,
    U+3000 and U+FEFF. *)
Definition white1 (a : nat) : bool := ((9 <=? a) && (a <=? 13) || (a =? 32))%nat%bool.

Definition white2 (a b : nat) : bool := ((a =? 194) && (b =? 160))%nat%bool.

Definition white3 (a b c : nat) : bool :=
  ((a =? 225) && (b =? 154) && (c =? 128)
   || (a =? 226) && (b =? 128)
      && ((128 <=? c) && (c <=? 138) || (c =? 168) || (c =? 169) || (c =? 175))
   || (a =? 226) && (b =? 129) && (c =? 159)
   || (a =? 227) && (b =? 128) && (c =? 128)
   || (a =? 239) && (b =? 187) && (c =? 191))%nat%bool.

(** The string without the white space at its head; with [reversed] set, the
    string is read from its end and so are the bytes of a character. *)
Fixpoint strip (reversed : bool) (s : string) : string :=
  match s with
  | EmptyString => EmptyString
  | String a s1 =>
      if white1 (nat_of_ascii a) then strip reversed s1
      else
        match s1 with
        | String b s2 =>
            if (if reversed then white2 (nat_of_ascii b) (nat_of_ascii a)
                else white2 (nat_of_ascii a) (nat_of_ascii b))
            then strip reversed s2
            else
              match s2 with
              | String c s3 =>
                  if (if reversed
                      then white3 (nat_of_ascii c) (nat_of_ascii b) (nat_of_ascii a)
                      else white3 (nat_of_ascii a) (nat_of_ascii b) (nat_of_ascii c))
                  then strip reversed s3
                  else s
              | EmptyString => s
              end
        | EmptyString => s
        end
  end.

Definition trim_start (s : string) : string := strip false s.

Definition trim_end (s : string) : string := String.rev (strip true (String.rev s)).

(** [String.prototype.trim]. *)
Definition trim (s : string) : string := trim_end (trim_start s).

End Text.

(** [ABM_PROMPTS] of [prompts.ts]. *)
Module ABM_PROMPTS.
Import Text.

Definition citation_entry (i : nat) (c : Citation) : string :=
  Js.num (i + 1) +:+ ". " +:+ text c +:+ nl +:+ "   Source: "
  +:+ (if Js.truthy_opt (title c) then default "" (title c) else url c).

Definition generateInsights
    (companyName scrapedData : string) (citations : list Citation) : string :=
  let citationsText := Js.join (nl +:+ nl) (imap citation_entry citations) in
  lines [
    "You are an ABM (Account-Based Marketing) research assistant. Generate personalized insights and outreach content for "
      +:+ companyName +:+ ".";
    "";
    "Company Information:";
    scrapedData;
    "";
    "Recent Research & Citations:";
    citationsText;
    "";
    "Generate a comprehensive ABM analysis with the following structure:";
    "1. Key Insights (3-5 bullet points about the company's current state, recent news, or opportunities)";
    "2. Personalized Email Subject Line (compelling, specific to recent news/insights)";
    "3. Personalized Email Body (professional, warm, references specific recent developments, includes a clear value proposition)";
    "4. Citations (list of source URLs used)";
    "";
    "Return your response as a JSON object with this exact structure:";
    "{";
    "  " +:+ q "insights" +:+ ": [" +:+ q "insight 1" +:+ ", " +:+ q "insight 2" +:+ ", ...],";
    "  " +:+ q "email_subject" +:+ ": " +:+ q "Subject line here" +:+ ",";
    "  " +:+ q "email_body" +:+ ": " +:+ q "Full email body here" +:+ ",";
    "  " +:+ q "citations" +:+ ": [" +:+ q "url1" +:+ ", " +:+ q "url2" +:+ ", ...]";
    "}";
    "";
    "Be specific, reference recent news or developments, and make the outreach feel personalized and relevant."
  ].

Definition generateRAGContext (companyName : string) : string :=
  lines [
    "Generate relevant ABM insights for " +:+ companyName +:+ ". Focus on:";
    "- Recent company news and developments";
    "- Product launches or updates";
    "- Industry trends affecting the company";
    "- Potential pain points or opportunities";
    "- Key decision makers or team information"
  ].

End ABM_PROMPTS.

(** ** The stores, the call log and the effect monad *)

(** Input of [openai.embeddings.create]: one string or an array of strings. *)
Inductive EmbInput :=
| EmbOne (input : string)
| EmbMany (inputs : list string).

(** Payload of an update of [abm_runs]. *)
Inductive RunUpdate :=
| SetCompleted (result : FullResult)
| SetFailed.

(** Body posted to the n8n webhook. *)
Record WebhookBody := mkWebhook {
  wh_company : string;
  wh_domain : string;
  wh_email_subject : option JValue;
  wh_email_body : option JValue;
  wh_insights : option JValue;
  wh_citations : option JValue;
  wh_run_id : string;
}.

(** Calls to external services, in the order they are made.  A write to
    [abm_runs] is logged with what became of it. *)
Inductive Call :=
| CallAxiosGet (target : string)
| CallYouExpress (company : string)
| CallYouSearch (company : string)
| CallEmbeddings (input : EmbInput)
| CallInsightsInsert (records : list InsightRecord)
| CallRpcMatch (query : Embedding) (threshold : Q) (count : nat) (run : string)
| CallInsightsSelect (run : string) (limit : option nat)
| CallChat (system user : string)
| CallRunsInsert (row : Run) (created : option string)   (* with the key, if created *)
| CallRunsUpdate (id : string) (u : RunUpdate) (applied : bool)
| CallRunsSelect (id : string)
| CallWebhook (target : string) (body : WebhookBody).

Record World := mkWorld {
  abm_runs : gmap string Run;          (* table abm_runs, by primary key *)
  abm_insights : list InsightRecord;   (* table abm_insights, in insertion order *)
  calls : list Call;
}.

Definition empty_world : World := mkWorld ∅ [] [].

Inductive JsError :=
| Error (msg : string)        (* [new Error(msg)] *)
| TypeError (msg : string)
| SyntaxError (msg : string)
| ZodError (issues : string)  (* raised by [requestSchema.parse] *)
| Rejected (msg : string).    (* raised by, or returned by, an external service *)

Inductive Completion (A : Type) :=
| Normal (a : A)
| Throw (e : JsError).
Arguments Normal {A} a.
Arguments Throw {A} e.

Definition M (A : Type) : Type := World → Completion A * World.

Definition ret {A} (a : A) : M A := λ w, (Normal a, w).
Definition throw {A} (e : JsError) : M A := λ w, (Throw e, w).
Definition bind {A B} (m : M A) (k : A → M B) : M B :=
  λ w, match m w with
       | (Normal a, w') => k a w'
       | (Throw e, w') => (Throw e, w')
       end.
(** [try { m } catch (error) { h error }]. *)
Definition try_catch {A} (m : M A) (h : JsError → M A) : M A :=
  λ w, match m w with
       | (Normal a, w') => (Normal a, w')
       | (Throw e, w') => h e w'
       end.
Definition get_world : M World := λ w, (Normal w, w).
Definition log_call (c : Call) : M unit :=
  λ w, (Normal (), mkWorld (abm_runs w) (abm_insights w) (calls w ++ [c])).
(** The completion of an awaited promise. *)
Definition settle {A} (c : Completion A) : M A := λ w, (c, w).

#[global] Instance M_ret : MRet M := @ret.
#[global] Instance M_bind : MBind M := λ A B k m, bind m k.

(** ** External services *)

(** The shape [{ data, error }] of a Supabase answer. *)
Record PgResponse (A : Type) := mkPg {
  data : option A;
  error : option string;
}.
Arguments mkPg {A} data error.
Arguments data {A} _.
Arguments error {A} _.

(** How a write (or a read) of a Supabase table ends: it is carried out, or
    it is not and the client either reports an error value or raises. *)
Inductive DbOutcome :=
| DbDone
| DbError (e : string)
| DbRaise (e : string).

(** Creation of a row of [abm_runs]: the key comes from [gen_random_uuid()]. *)
Inductive DbCreate :=
| DbCreated (id : string)
| DbCreateError (e : string)
| DbCreateRaise (e : string).

(** What the scraper reads off the fetched page through [cheerio]. *)
Record Page := mkPage {
  page_title : string;               (* [$('title').text().trim()] *)
  meta_description : option string;  (* [attr('content')] of [meta[name="description"]] *)
  og_description : option string;
  meta_keywords : option string;
  about_section : string → option string;
      (* trimmed text of the first element matching a selector, if any *)
  main_p : string;
  article_p : string;
  body_p : string;
  h1 : string;
}.

(** [completion.choices[0]?.message?.content]. *)
Record ChatChoice := mkChoice { message_content : option (option string) }.

Record Env := mkEnv {
  (* scraper.ts: [axios.get] followed by [cheerio.load] and the queries *)
  axios_get : World → string → Completion Page;
  (* youcom.ts: the request, [response.ok], [response.json()] and the
     normalisation of the answer into citations, for each of the two modes *)
  you_express : World → string → Completion (option (list Citation));
  you_search : World → string → Completion (list Citation);
  (* OpenAI *)
  openai_embeddings : World → EmbInput → Completion (list Embedding);
  openai_chat : World → string → string → Completion (list ChatChoice);
  (* the runtime *)
  JSON_parse : string → option JValue;
  (* Supabase *)
  db_runs_insert : World → Run → DbCreate;
  db_runs_update : World → string → RunUpdate → DbOutcome;
  db_runs_select : World → string → DbOutcome;
  db_insights_insert : World → list InsightRecord → DbOutcome;
  db_insights_select : World → string → DbOutcome;
  db_rpc_match : World → DbOutcome;
  (* pgvector's cosine distance operator [<=>] *)
  cosine_distance : Embedding → Embedding → Q;
  (* env.ts and the webhook *)
  N8N_WEBHOOK_URL : option string;
  fetch_webhook : World → string → WebhookBody → Completion unit;
}.

(** ** The SQL function [match_abm_insights]

    [dist] stands for pgvector's cosine distance [<=>]; numbers are exact
    rationals.  A row whose embedding is missing makes the comparison of the
    [WHERE] clause unknown, hence is not selected.  The rows are those of a
    sequential scan: the [ivfflat] index declared on the column, with which
    the search is approximate and can miss rows, is not modelled. *)

(** A selected row restricted to the columns the client reads. *)
Record Item := mkItem {
  item_content_json : option ContentJson;
  item_citations : option (list Citation);
}.

Record MatchRow := mkMatch {
  match_item : Item;
  similarity : Q;
}.

Definition Qltb (x y : Q) : bool := negb (Qle_bool y x).

Definition item_of_record (r : InsightRecord) : Item :=
  mkItem (Some (content_json r)) (Some (record_citations r)).

Section Sql.
Variable dist : Embedding → Embedding → Q.
Variables (query_embedding : Embedding) (match_threshold : Q).
Variables (match_count : nat) (run : option string).

(** [abm_insights.embedding <=> query_embedding], with the row. *)
Definition with_distance (r : InsightRecord) : option (Q * InsightRecord) :=
  e ← embedding r; Some (dist e query_embedding, r).

(** The [WHERE] clause. *)
Definition match_where (dr : Q * InsightRecord) : bool :=
  match run with
  | None => true
  | Some id => bool_decide (run_id dr.2 = id)
  end
  && Qltb match_threshold (1 - dr.1)%Q.

(** [ORDER BY abm_insights.embedding <=> query_embedding], ascending. *)
Fixpoint insert_by_distance (x : Q * InsightRecord) (l : list (Q * InsightRecord))
  : list (Q * InsightRecord) :=
  match l with
  | [] => [x]
  | y :: l' =>
      if Qle_bool x.1 y.1 then x :: y :: l' else y :: insert_by_distance x l'
  end.

Definition order_by_distance (l : list (Q * InsightRecord)) : list (Q * InsightRecord) :=
  foldr insert_by_distance [] l.

(** The rows selected, each with its distance, before projection. *)
Definition match_selected (table : list InsightRecord) : list (Q * InsightRecord) :=
  take match_count
    (order_by_distance (List.filter match_where (omap with_distance table))).

Definition match_abm_insights (table : list InsightRecord) : list MatchRow :=
  (λ dr, mkMatch (item_of_record dr.2) (1 - dr.1)%Q) <$> match_selected table.

End Sql.

(** Ascending distance, the order of the selected rows. *)
Definition by_distance (x y : Q * InsightRecord) : Prop := (x.1 <= y.1)%Q.

(** ** The program *)

Section Program.
Context (env : Env).

(** *** The Supabase client *)

Definition set_runs (runs : gmap string Run) : M unit :=
  λ w, (Normal (), mkWorld runs (abm_insights w) (calls w)).

Definition set_insights (rows : list InsightRecord) : M unit :=
  λ w, (Normal (), mkWorld (abm_runs w) rows (calls w)).

(** [supabase.from('abm_runs').insert(row).select().single()]. *)
Definition runs_insert (row : Run) : M (PgResponse (string * Run)) :=
  w ← get_world;
  match db_runs_insert env w row with
  | DbCreated id =>
      match abm_runs w !! id with
      | Some _ =>
          log_call (CallRunsInsert row None);;
          mret (mkPg None (Some "duplicate key value violates unique constraint"))
      | None =>
          log_call (CallRunsInsert row (Some id));;
          set_runs (<[id := row]> (abm_runs w));;
          mret (mkPg (Some (id, row)) None)
      end
  | DbCreateError e => log_call (CallRunsInsert row None);; mret (mkPg None (Some e))
  | DbCreateRaise e => log_call (CallRunsInsert row None);; throw (Rejected e)
  end.

Definition apply_update (u : RunUpdate) (r : Run) : Run :=
  match u with
  | SetCompleted res => mkRun (company r) (run_domain r) completed (Some res)
  | SetFailed => mkRun (company r) (run_domain r) failed (result_json r)
  end.

(** [supabase.from('abm_runs').update(u).eq('id', id)]. *)
Definition runs_update (id : string) (u : RunUpdate) : M (PgResponse ()) :=
  w ← get_world;
  match db_runs_update env w id u with
  | DbDone =>
      log_call (CallRunsUpdate id u true);;
      set_runs (alter (apply_update u) id (abm_runs w));;
      mret (mkPg None None)
  | DbError e => log_call (CallRunsUpdate id u false);; mret (mkPg None (Some e))
  | DbRaise e => log_call (CallRunsUpdate id u false);; throw (Rejected e)
  end.

(** [supabase.from('abm_runs').select('*').eq('id', id).single()]. *)
Definition runs_select (id : string) : M (PgResponse Run) :=
  w ← get_world;
  log_call (CallRunsSelect id);;
  match db_runs_select env w id with
  | DbDone =>
      match abm_runs w !! id with
      | Some r => mret (mkPg (Some r) None)
      | None => mret (mkPg None (Some "JSON object requested, multiple (or no) rows returned"))
      end
  | DbError e => mret (mkPg None (Some e))
  | DbRaise e => throw (Rejected e)
  end.

(** [supabase.from('abm_insights').insert(records)]. *)
Definition insights_insert (records : list InsightRecord) : M (PgResponse ()) :=
  w ← get_world;
  log_call (CallInsightsInsert records);;
  match db_insights_insert env w records with
  | DbDone =>
      set_insights (abm_insights w ++ records);;
      mret (mkPg None None)
  | DbError e => mret (mkPg None (Some e))
  | DbRaise e => throw (Rejected e)
  end.

(** [supabase.from('abm_insights').select(...).eq('run_id', id)], with an
    optional [.limit(n)]. *)
Definition insights_select (id : string) (limit : option nat)
  : M (PgResponse (list InsightRecord)) :=
  w ← get_world;
  log_call (CallInsightsSelect id limit);;
  match db_insights_select env w id with
  | DbDone =>
      let rows := List.filter (λ r, bool_decide (run_id r = id)) (abm_insights w) in
      let rows := match limit with Some n => take n rows | None => rows end in
      mret (mkPg (Some rows) None)
  | DbError e => mret (mkPg None (Some e))
  | DbRaise e => throw (Rejected e)
  end.

(** [supabase.rpc('match_abm_insights', {...})]. *)
Definition rpc_match_abm_insights
    (query : Embedding) (threshold : Q) (count : nat) (id : string)
  : M (PgResponse (list MatchRow)) :=
  w ← get_world;
  log_call (CallRpcMatch query threshold count id);;
  match db_rpc_match env w with
  | DbDone =>
      mret (mkPg (Some (match_abm_insights (cosine_distance env) query threshold
                          count (Some id) (abm_insights w))) None)
  | DbError e => mret (mkPg None (Some e))
  | DbRaise e => throw (Rejected e)
  end.

(** *** The OpenAI client *)

Definition embeddings_create (input : EmbInput) : M (list Embedding) :=
  w ← get_world;
  log_call (CallEmbeddings input);;
  settle (openai_embeddings env w input).

Definition chat_completions_create (system user : string) : M (list ChatChoice) :=
  w ← get_world;
  log_call (CallChat system user);;
  settle (openai_chat env w system user).

(** *** [rag.ts] *)

(** The records built by [texts.map((text, idx) => ...)]. *)
Definition build_records
    (runId : string) (texts : list string)
    (embeddings : list Embedding) (citations : list Citation)
  : list InsightRecord :=
  imap (λ idx text,
          mkRecord runId (mkContent text idx) (embeddings !! idx)
            (match citations !! idx with
             | Some c => [c]
             | None => []
             end))
       texts.

Definition createAndStoreEmbeddings
    (runId : string) (texts : list string) (citations : list Citation) : M () :=
  try_catch
    (embeddings ← embeddings_create (EmbMany texts);
     let records := build_records runId texts embeddings citations in
     resp ← insights_insert records;
     match error resp with
     | Some e => throw (Rejected e)
     | None => mret ()
     end)
    (λ error, throw error).

(** An element of the array returned by [similaritySearch]. *)
Record Chunk := mkChunk {
  chunk_text : string;
  chunk_citations : list Citation;
}.

(** [{ text: item.content_json?.text || '', citations: item.citations || [] }]. *)
Definition chunk_of_item (item : Item) : Chunk :=
  mkChunk
    (Js.or_else (default "" (content_text <$> item_content_json item)) "")
    (default [] (item_citations item)).

Definition match_threshold_used : Q := 7 # 10.

(** The body of the [try] block of [similaritySearch]. *)
Definition similaritySearch_body
    (queryEmbedding : Embedding) (runId : string) (limit : nat) : M (list Chunk) :=
  resp ← rpc_match_abm_insights queryEmbedding match_threshold_used limit runId;
  match error resp with
  | Some _ =>
      fallback ← insights_select runId (Some limit);
      match error fallback with
      | Some fallbackError => throw (Rejected fallbackError)
      | None =>
          mret ((λ row, chunk_of_item (item_of_record row)) <$> default [] (data fallback))
      end
  | None => mret ((λ row, chunk_of_item (match_item row)) <$> default [] (data resp))
  end.

Definition similaritySearch
    (queryEmbedding : Embedding) (runId : string) (limit : nat) : M (list Chunk) :=
  try_catch (similaritySearch_body queryEmbedding runId limit) (λ _, mret []).

(** The citation attached to the chunks that come from the profile. *)
Definition profile_citation (scrapedData : ScrapedCompanyData) : Citation :=
  mkCitation "" ("https://" +:+ domain scrapedData) (Some (name scrapedData)).

(** [textChunks.push(t); chunkCitations.push(c)] on the pair of arrays. *)
Definition push_chunk (arrays : list string * list Citation) (t : string) (c : Citation)
  : list string * list Citation :=
  (arrays.1 ++ [t], arrays.2 ++ [c]).

(** The arrays [textChunks] and [chunkCitations] after the three steps. *)
Definition assemble_chunks
    (scrapedData : ScrapedCompanyData) (youComCitations : list Citation)
  : list string * list Citation :=
  let arrays := ([], []) in
  let arrays :=
    if Js.truthy (description scrapedData)
    then push_chunk arrays
           ("Company: " +:+ name scrapedData +:+ Text.nl +:+ "Description: "
            +:+ description scrapedData)
           (profile_citation scrapedData)
    else arrays in
  let arrays :=
    match metadata scrapedData ≫= about with
    | Some about_text =>
        if Js.truthy about_text
        then push_chunk arrays ("About: " +:+ about_text) (profile_citation scrapedData)
        else arrays
    | None => arrays
    end in
  foldl (λ arrays citation, push_chunk arrays (text citation) citation)
        arrays youComCitations.

(** [allCitations.map((c) => [c.url, c])]. *)
Definition url_entries (allCitations : list Citation) : list (string * Citation) :=
  (λ c, (url c, c)) <$> allCitations.

(** [Array.from(new Map(allCitations.map((c) => [c.url, c])).values())]. *)
Definition uniqueCitations (allCitations : list Citation) : list Citation :=
  Js.Map_values (Js.Map_new (url_entries allCitations)).

(** The last citation of a list that carries the URL [u]. *)
Definition last_with_url (u : string) (l : list Citation) : option Citation :=
  last (filter (λ c, url c = u) l).

Definition context_text (relevantChunks : list Chunk) : string :=
  Js.join (Text.nl +:+ Text.nl)
    (imap (λ idx chunk, "[" +:+ Js.num (idx + 1) +:+ "] " +:+ chunk_text chunk)
          relevantChunks).

Definition system_message : string :=
  "You are an expert ABM strategist. Always return valid JSON.".

(** [completion.choices[0]?.message?.content || '{}']. *)
Definition response_text (choices : list ChatChoice) : string :=
  match choices with
  | choice :: _ =>
      match message_content choice with
      | Some (Some content) => Js.or_else content "{}"
      | _ => "{}"
      end
  | [] => "{}"
  end.

(** The statements after [JSON.parse]: backfill of [citations]. *)
Definition ensure_citations (parsed : JValue) (unique : list Citation) : M JValue :=
  match parsed with
  | JNull => throw (TypeError "Cannot read properties of null (reading 'citations')")
  | _ =>
      let c := Json.get parsed "citations" in
      if negb (Json.truthy c) || Json.length_is_zero (default JNull c)
      then match Json.set parsed "citations" (Json.strs (url <$> unique)) with
           | Some parsed' => mret parsed'
           | None => throw (TypeError "Cannot create property 'citations'")
           end
      else mret parsed
  end.

(** The query embedding: [queryEmbeddingResponse.data[0].embedding]. *)
Definition query_embedding (companyName : string) : M Embedding :=
  let queryText := ABM_PROMPTS.generateRAGContext companyName in
  queryEmbeddingResponse ← embeddings_create (EmbOne queryText);
  match queryEmbeddingResponse with
  | [] => throw (TypeError "Cannot read properties of undefined (reading 'embedding')")
  | queryEmbedding :: _ => mret queryEmbedding
  end.

(** The prompt built from the retrieved chunks. *)
Definition generation_prompt
    (companyName : string) (scrapedData : ScrapedCompanyData)
    (contextText : string) (unique : list Citation) : string :=
  ABM_PROMPTS.generateInsights companyName
    ("Company: " +:+ name scrapedData +:+ Text.nl +:+ description scrapedData
     +:+ Text.nl +:+ Text.nl +:+ contextText)
    unique.

(** From the retrieved chunks to the returned value. *)
Definition generate
    (companyName : string) (scrapedData : ScrapedCompanyData)
    (relevantChunks : list Chunk) : M JValue :=
  let contextText := context_text relevantChunks in
  let allCitations := Js.flatMap chunk_citations relevantChunks in
  let unique := uniqueCitations allCitations in
  let prompt := generation_prompt companyName scrapedData contextText unique in
  completion ← chat_completions_create system_message prompt;
  let responseText := response_text completion in
  match JSON_parse env responseText with
  | None => throw (SyntaxError "Unexpected token in JSON")
  | Some parsed => ensure_citations parsed unique
  end.

Definition no_chunks_error : JsError := Error "No text chunks to process".

(** The body of the [try] block of [runRAGPipeline]. *)
Definition pipeline_body
    (runId companyName : string) (scrapedData : ScrapedCompanyData)
    (youComCitations : list Citation) : M JValue :=
  let '(textChunks, chunkCitations) := assemble_chunks scrapedData youComCitations in
  if (length textChunks =? 0)%nat
  then throw no_chunks_error
  else
    createAndStoreEmbeddings runId textChunks chunkCitations;;
    queryEmbedding ← query_embedding companyName;
    relevantChunks ← similaritySearch queryEmbedding runId 5;
    generate companyName scrapedData relevantChunks.

(** The object returned by the [catch] block. *)
Definition fallback_insights
    (scrapedData : ScrapedCompanyData) (youComCitations : list Citation) : ABMInsights :=
  mkInsights
    ["Company: " +:+ name scrapedData;
     "Domain: " +:+ domain scrapedData;
     "Research completed with available data"]
    ("Opportunity for " +:+ name scrapedData)
    ("Hello " +:+ name scrapedData +:+ " team," +:+ Text.nl +:+ Text.nl
     +:+ "I wanted to reach out regarding potential collaboration opportunities."
     +:+ Text.nl +:+ Text.nl +:+ "Best regards")
    (url <$> youComCitations).

Definition runRAGPipeline
    (runId companyName : string) (scrapedData : ScrapedCompanyData)
    (youComCitations : list Citation) : M JValue :=
  try_catch
    (pipeline_body runId companyName scrapedData youComCitations)
    (λ _, mret (ABMInsights_json (fallback_insights scrapedData youComCitations))).

(** *** [scraper.ts] *)

Definition aboutSelectors : list string :=
  ["section.about"; ".about"; "#about";
   "[class*=" +:+ Text.q "about" +:+ "]";
   "[id*=" +:+ Text.q "about" +:+ "]";
   "section[class*=" +:+ Text.q "company" +:+ "]";
   ".company-info"].

(** The loop over [aboutSelectors], from the current value of [aboutText]. *)
Fixpoint about_loop (page : Page) (selectors : list string) (aboutText : string) : string :=
  match selectors with
  | [] => aboutText
  | selector :: rest =>
      match about_section page selector with
      | Some found =>
          if (50 <? Js.string_length found)%nat then found else about_loop page rest found
      | None => about_loop page rest aboutText
      end
  end.

Definition scrape_page (domain : string) (page : Page) : ScrapedCompanyData :=
  let title := page_title page in
  let metaDescription :=
    Js.or_else (default "" (meta_description page))
      (Js.or_else (default "" (og_description page)) "") in
  let keywords := Js.or_else (default "" (meta_keywords page)) "" in
  let aboutText := about_loop page aboutSelectors "" in
  let aboutText :=
    if Js.truthy aboutText then aboutText
    else Js.or_else (main_p page) (Js.or_else (article_p page) (body_p page)) in
  let companyName :=
    Js.or_else (Text.trim (Text.before "-" (Text.before "|" title)))
      (Js.or_else (h1 page) (Text.before "." (Text.clean_domain domain))) in
  mkScraped companyName
    (Js.or_else metaDescription (Js.or_else aboutText title))
    (Text.clean_domain domain)
    (Some (mkMetadata (Some title) (Some keywords) (Some aboutText))).

(** The record returned by the [catch] block. *)
Definition scrape_minimal (domain : string) : ScrapedCompanyData :=
  let cleanDomain := Text.clean_domain domain in
  mkScraped (Text.before "." cleanDomain)
    ("Company information for " +:+ cleanDomain)
    cleanDomain
    (Some (mkMetadata None None None)).

Definition scrapeCompany (domain : string) : M ScrapedCompanyData :=
  try_catch
    (let target := if String.prefix "http" domain then domain else "https://" +:+ domain in
     w ← get_world;
     log_call (CallAxiosGet target);;
     page ← settle (axios_get env w target);
     mret (scrape_page domain page))
    (λ _, mret (scrape_minimal domain)).

(** *** [youcom.ts]

    Both functions return the field [citations] of their result. *)

Definition fetchCitedResearch (company : string) : M (list Citation) :=
  try_catch
    (w ← get_world;
     log_call (CallYouSearch company);;
     found ← settle (you_search env w company);
     mret (Js.slice0 8 found))
    (λ _, mret []).

Definition fetchExpressResearch (company : string) : M (list Citation) :=
  try_catch
    (w ← get_world;
     log_call (CallYouExpress company);;
     answer ← settle (you_express env w company);
     match answer with
     | None => fetchCitedResearch company      (* [!response.ok] *)
     | Some found => mret (Js.slice0 8 found)
     end)
    (λ _, fetchCitedResearch company).

(** *** [route.ts] *)

Record Validated := mkValidated {
  v_company : string;
  v_domain : string;
  v_send_via_n8n : bool;
}.

(** [requestSchema.parse(body)]; [None] when it raises a [ZodError].  For
    [min(1)] the bytes are counted: a string has a code unit exactly when it
    has a byte. *)
Definition requestSchema_parse (body : JValue) : option Validated :=
  match body with
  | JObj fields =>
      match Js.Map_get "company" fields, Js.Map_get "domain" fields with
      | Some (JStr c), Some (JStr d) =>
          if (1 <=? String.length c)%nat && (1 <=? String.length d)%nat
          then match Js.Map_get "send_via_n8n" fields with
               | None => Some (mkValidated c d false)
               | Some (JBool b) => Some (mkValidated c d b)
               | Some _ => None
               end
          else None
      | _, _ => None
      end
  | _ => None
  end.

(** What the [details] of an error response are computed from. *)
Inductive Details :=
| OfError (e : JsError)            (* [error.message], or ['Unknown error'] *)
| OfDb (e : option string).

Inductive Body :=
| BodySuccess (run_id company domain : string) (insights : JValue)
              (scraped_data : ScrapedCompanyData) (you_com_citations : nat)
| BodyError (error : string) (details : option Details) (run_id : option string)
| BodyRun (run_id company domain : string) (insights : JValue)
          (scraped_data : option ScrapedCompanyData) (you_com_citations : nat)
          (vector_insights : list InsightRecord).

Record Response := mkResponse {
  http_status : nat;
  body : Body;
}.

Definition json (b : Body) : Response := mkResponse 200 b.

Definition webhook_body (v : Validated) (insights : JValue) (runId : string) : WebhookBody :=
  mkWebhook (v_company v) (v_domain v)
    (Json.get insights "email_subject") (Json.get insights "email_body")
    (Json.get insights "insights") (Json.get insights "citations") runId.

(** Step 2 of [POST]: the cited research, with its own [try] block. *)
Definition research (company : string) : M (list Citation) :=
  try_catch
    (found ← fetchExpressResearch company;
     if (length found =? 0)%nat then fetchCitedResearch company else mret found)
    (λ _, mret []).

(** Step 5 of [POST]: the webhook, when asked for and configured. *)
Definition notify (v : Validated) (insights : JValue) (runId : string) : M () :=
  match v_send_via_n8n v, N8N_WEBHOOK_URL env with
  | true, Some target =>
      if Js.truthy target
      then try_catch
             (w ← get_world;
              let body := webhook_body v insights runId in
              log_call (CallWebhook target body);;
              settle (fetch_webhook env w target body))
             (λ _, mret ())
      else mret ()
  | _, _ => mret ()
  end.

(** Steps 4 and 5 of [POST] and the answer. *)
Definition store_and_answer
    (v : Validated) (runId : string) (scrapedData : ScrapedCompanyData)
    (youComData : list Citation) (insights : JValue) : M Response :=
  let fullResult := mkFullResult insights scrapedData (length youComData) in
  runs_update runId (SetCompleted fullResult);;
  notify v insights runId;;
  mret (json (BodySuccess runId (v_company v) (v_domain v) insights scrapedData
                (length youComData))).

(** Steps 1 to 5 of [POST], the body of the inner [try] block. *)
Definition process_run (v : Validated) (runId : string) : M Response :=
  scrapedData ← scrapeCompany (v_domain v);
  youComData ← research (v_company v);
  insights ← runRAGPipeline runId (v_company v) scrapedData youComData;
  store_and_answer v runId scrapedData youComData insights.

(** The [catch] block around them. *)
Definition process_failed (runId : string) (error : JsError) : M Response :=
  runs_update runId SetFailed;;
  mret (mkResponse 500
          (BodyError "Failed to process ABM request" (Some (OfError error)) (Some runId))).

(** The row inserted for a validated request. *)
Definition new_run (v : Validated) : Run :=
  mkRun (v_company v) (v_domain v) processing None.

(** The outer [catch] block of [POST]. *)
Definition request_failed (error : JsError) : M Response :=
  match error with
  | ZodError _ =>
      mret (mkResponse 400 (BodyError "Invalid request" (Some (OfError error)) None))
  | _ => mret (mkResponse 500 (BodyError "Internal server error" None None))
  end.

(** [POST]; the request body is [None] when [request.json()] raises. *)
Definition POST (request_body : option JValue) : M Response :=
  try_catch
    (body ← match request_body with
            | Some b => mret b
            | None => throw (SyntaxError "Unexpected end of JSON input")
            end;
     match requestSchema_parse body with
     | None => throw (ZodError "invalid request")
     | Some v =>
         created ← runs_insert (new_run v);
         match error created, data created with
         | None, Some (runId, _) =>
             try_catch (process_run v runId) (process_failed runId)
         | runError, _ =>
             mret (mkResponse 500
                     (BodyError "Failed to create run record" (Some (OfDb runError)) None))
         end
     end)
    request_failed.

(** [GET]; the argument is the query parameter [run_id]. *)
Definition GET (runId : option string) : M Response :=
  match runId with
  | None | Some EmptyString =>
      mret (mkResponse 400 (BodyError "run_id is required" None None))
  | Some id =>
      try_catch
        (found ← runs_select id;
         match error found, data found with
         | None, Some run =>
             rows ← insights_select id None;
             let stored := result_json run in
             let insights :=
               match result_insights <$> stored with
               | Some v => if Json.truthy (Some v) then v else JObj []
               | None => JObj []
               end in
             mret (json (BodyRun id (company run) (run_domain run) insights
                           (scraped_data <$> stored)
                           (default 0 (you_com_citations <$> stored))
                           (default [] (data rows))))
         | _, _ => mret (mkResponse 404 (BodyError "Run not found" None None))
         end)
        (λ _, mret (mkResponse 500 (BodyError "Internal server error" None None)))
  end.

End Program.

(** ** Runs over time *)

Definition status_of_update (u : RunUpdate) : Status :=
  match u with
  | SetCompleted _ => completed
  | SetFailed => failed
  end.

(** The rows the run [id] has held so far, oldest first, given one more
    logged call. *)
Definition write_run (id : string) (h : list Run) (c : Call) : list Run :=
  match c with
  | CallRunsInsert row (Some id') => if decide (id' = id) then h ++ [row] else h
  | CallRunsUpdate id' u true =>
      if decide (id' = id)
      then match last h with
           | Some r => h ++ [apply_update u r]
           | None => h
           end
      else h
  | _ => h
  end.

(** The rows the run [id] has held, oldest first. *)
Definition run_history (id : string) (w : World) : list Run :=
  foldl (write_run id) [] (calls w).

(** The statuses a run may go through. *)
Definition lifecycle (statuses : list Status) : Prop :=
  statuses = [processing]
  ∨ statuses = [processing; completed]
  ∨ statuses = [processing; failed].

(** The result payload is there exactly when the run is completed. *)
Definition payload_iff_completed (r : Run) : Prop :=
  is_Some (result_json r) ↔ status r = completed.

(** One request handled, by any environment. *)
Inductive request_step : World → World → Prop :=
| step_POST env request_body w : request_step w (POST env request_body w).2
| step_GET env runId w : request_step w (GET env runId w).2.

(** The states of the stores that the handlers can produce. *)
Definition reachable (w : World) : Prop := rtc request_step empty_world w.

(** ** A reference [JSON.parse]

    The theorems below hold for every [JSON_parse]; this parser of the JSON
    grammar is the one used when a run is evaluated on concrete data.  A
    repeated key keeps its first position and its last value, as a JavaScript
    object does; [\u] escapes are stored in UTF-8. *)

Module RefJson.

Definition is_ws (a : ascii) : bool :=
  let n := nat_of_ascii a in ((n =? 32) || (n =? 9) || (n =? 10) || (n =? 13))%nat%bool.

Fixpoint skip_ws (s : string) : string :=
  match s with
  | String a s' => if is_ws a then skip_ws s' else s
  | EmptyString => s
  end.

Definition is_digit (a : ascii) : bool :=
  let n := nat_of_ascii a in ((48 <=? n) && (n <=? 57))%nat%bool.

Fixpoint digits (s : string) : string * string :=
  match s with
  | String a s' =>
      if is_digit a then let '(d, r) := digits s' in (String a d, r) else (EmptyString, s)
  | EmptyString => (EmptyString, s)
  end.

(** An optional minus sign, an integer part without leading zero, an
    optional fraction and an optional exponent. *)
Definition number (s : string) : option (string * string) :=
  let '(sign, s) :=
    match s with
    | String "-" s' => ("-", s')
    | _ => ("", s)
    end in
  let '(int, s) := digits s in
  match int with
  | EmptyString => None
  | String "0" (String _ _) => None
  | _ =>
      frac ← match s with
             | String "." s' =>
                 let '(d, r) := digits s' in
                 match d with EmptyString => None | _ => Some ("." +:+ d, r) end
             | _ => Some ("", s)
             end;
      let '(frac, s) := frac in
      ex ← match s with
           | String e s' =>
               if (Ascii.eqb e "e" || Ascii.eqb e "E")%bool then
                 let '(sg, s'') :=
                   match s' with
                   | String "+" r => ("+", r)
                   | String "-" r => ("-", r)
                   | _ => ("", s')
                   end in
                 let '(d, r) := digits s'' in
                 match d with
                 | EmptyString => None
                 | _ => Some (String e sg +:+ d, r)
                 end
               else Some ("", s)
           | _ => Some ("", s)
           end;
      let '(ex, s) := ex in
      Some (sign +:+ int +:+ frac +:+ ex, s)
  end.

Definition hex_digit (a : ascii) : option N :=
  let n := N_of_ascii a in
  if ((48 <=? n) && (n <=? 57))%N%bool then Some (n - 48)%N
  else if ((65 <=? n) && (n <=? 70))%N%bool then Some (n - 55)%N
  else if ((97 <=? n) && (n <=? 102))%N%bool then Some (n - 87)%N
  else None.

(** Four hexadecimal digits. *)
Definition hex4 (s : string) : option (N * string) :=
  match s with
  | String a (String b (String c (String d r))) =>
      x ← hex_digit a; y ← hex_digit b; z ← hex_digit c; t ← hex_digit d;
      Some ((((x * 16 + y) * 16 + z) * 16 + t)%N, r)
  | _ => None
  end.

Definition byte (n : N) : string := String (ascii_of_N n) EmptyString.

Definition utf8 (cp : N) : string :=
  (if cp <? 128 then byte cp
   else if cp <? 2048 then byte (192 + cp / 64) +:+ byte (128 + cp mod 64)
   else if cp <? 65536 then
     byte (224 + cp / 4096) +:+ byte (128 + (cp / 64) mod 64) +:+ byte (128 + cp mod 64)
   else
     byte (240 + cp / 262144) +:+ byte (128 + (cp / 4096) mod 64)
     +:+ byte (128 + (cp / 64) mod 64) +:+ byte (128 + cp mod 64))%N.

(** A [\uXXXX] escape, after [\u]; a surrogate pair makes one code point. *)
Definition unicode_escape (s : string) : option (string * string) :=
  '(hi, r) ← hex4 s;
  if ((55296 <=? hi) && (hi <=? 56319))%N%bool then
    match r with
    | String "\" (String "u" r') =>
        match hex4 r' with
        | Some (lo, r'') =>
            if ((56320 <=? lo) && (lo <=? 57343))%N%bool
            then Some (utf8 (65536 + (hi - 55296) * 1024 + (lo - 56320))%N, r'')
            else Some (utf8 hi, r)
        | None => Some (utf8 hi, r)
        end
    | _ => Some (utf8 hi, r)
    end
  else Some (utf8 hi, r).

(** The characters of a string literal after the opening quote. *)
Fixpoint string_body (fuel : nat) (s : string) : option (string * string) :=
  match fuel with
  | O => None
  | S fuel =>
      match s with
      | EmptyString => None
      | String a s' =>
          if (nat_of_ascii a =? 34)%nat then Some (EmptyString, s')
          else if (nat_of_ascii a <? 32)%nat then None
          else if Ascii.eqb a "\" then
            match s' with
            | String e s'' =>
                esc ← (if (nat_of_ascii e =? 34)%nat then Some (Text.dquote, s'')
                       else if Ascii.eqb e "\" then Some ("\", s'')
                       else if Ascii.eqb e "/" then Some ("/", s'')
                       else if Ascii.eqb e "b" then Some (byte 8, s'')
                       else if Ascii.eqb e "f" then Some (byte 12, s'')
                       else if Ascii.eqb e "n" then Some (byte 10, s'')
                       else if Ascii.eqb e "r" then Some (byte 13, s'')
                       else if Ascii.eqb e "t" then Some (byte 9, s'')
                       else if Ascii.eqb e "u" then unicode_escape s''
                       else None);
                '(rest, r) ← string_body fuel esc.2;
                Some (esc.1 +:+ rest, r)
            | EmptyString => None
            end
          else
            '(rest, r) ← string_body fuel s';
            Some (String a rest, r)
      end
  end.

Definition literal (word : string) (v : JValue) (s : string) : option (JValue * string) :=
  if String.prefix word s then Some (v, Text.drop_prefix word s) else None.

Fixpoint value (fuel : nat) (s : string) : option (JValue * string) :=
  match fuel with
  | O => None
  | S fuel =>
      match skip_ws s with
      | EmptyString => None
      | String a s' as s0 =>
          if (nat_of_ascii a =? 34)%nat then
            '(str, r) ← string_body (String.length s0) s'; Some (JStr str, r)
          else if Ascii.eqb a "[" then
            match skip_ws s' with
            | String "]" r => Some (Json.arr [], r)
            | _ => '(l, r) ← elements fuel s'; Some (Json.arr l, r)
            end
          else if Ascii.eqb a "{" then
            match skip_ws s' with
            | String "}" r => Some (JObj [], r)
            | _ => '(m, r) ← members fuel s' []; Some (JObj m, r)
            end
          else if Ascii.eqb a "n" then literal "null" JNull s0
          else if Ascii.eqb a "t" then literal "true" (JBool true) s0
          else if Ascii.eqb a "f" then literal "false" (JBool false) s0
          else '(n, r) ← number s0; Some (JNum n, r)
      end
  end
with elements (fuel : nat) (s : string) : option (list JValue * string) :=
  match fuel with
  | O => None
  | S fuel =>
      '(v, r) ← value fuel s;
      match skip_ws r with
      | String "," r' => '(l, r'') ← elements fuel r'; Some (v :: l, r'')
      | String "]" r' => Some ([v], r')
      | _ => None
      end
  end
with members (fuel : nat) (s : string) (acc : list (string * JValue))
  : option (list (string * JValue) * string) :=
  match fuel with
  | O => None
  | S fuel =>
      match skip_ws s with
      | String a s' as s0 =>
          if (nat_of_ascii a =? 34)%nat then
            '(k, r) ← string_body (String.length s0) s';
            match skip_ws r with
            | String ":" r' =>
                '(v, r'') ← value fuel r';
                let acc := Js.Map_set k v acc in
                match skip_ws r'' with
                | String "," r3 => members fuel r3 acc
                | String "}" r3 => Some (acc, r3)
                | _ => None
                end
            | _ => None
            end
          else None
      | EmptyString => None
      end
  end.

Definition parse (s : string) : option JValue :=
  '(v, r) ← value (2 * String.length s + 2) s;
  match skip_ws r with
  | EmptyString => Some v
  | _ => None
  end.

End RefJson.

(** ** Concrete environments

    Used where a run is evaluated on data. *)

Module Scenario.

(** Cosine distance restricted to vectors of norm one: one minus the dot
    product. *)
Fixpoint dot (e q : Embedding) : Q :=
  match e, q with
  | x :: e', y :: q' => (x * y + dot e' q')%Q
  | _, _ => 0%Q
  end.

Definition unit_cosine_distance (e q : Embedding) : Q := (1 - dot e q)%Q.

(** An environment given by the answer of each service. *)
Definition scripted
    (page : Completion Page)
    (express : Completion (option (list Citation)))
    (search : Completion (list Citation))
    (embed : EmbInput → Completion (list Embedding))
    (chat : Completion (list ChatChoice))
    (store rpc select : DbOutcome)
    (create : gmap string Run → DbCreate)
    (update : RunUpdate → DbOutcome) : Env :=
  {| axios_get := λ _ _, page;
     you_express := λ _ _, express;
     you_search := λ _ _, search;
     openai_embeddings := λ _ input, embed input;
     openai_chat := λ _ _ _, chat;
     JSON_parse := RefJson.parse;
     db_runs_insert := λ w _, create (abm_runs w);
     db_runs_update := λ _ _ u, update u;
     db_runs_select := λ _ _, DbDone;
     db_insights_insert := λ _ _, store;
     db_insights_select := λ _ _, select;
     db_rpc_match := λ _, rpc;
     cosine_distance := unit_cosine_distance;
     N8N_WEBHOOK_URL := None;
     fetch_webhook := λ _ _ _, Normal () |}.

(** Keys [run-0], [run-1], ... *)
Definition next_key (runs : gmap string Run) : DbCreate :=
  DbCreated ("run-" +:+ pretty (size runs)).

Definition down {A} : Completion A := Throw (Rejected "service unavailable").

(** Every collaborator fails; only the table of runs works. *)
Definition all_down : Env :=
  scripted down down down (λ _, down) down
    (DbRaise "unavailable") (DbRaise "unavailable") (DbRaise "unavailable")
    next_key (λ _, DbDone).

(** One vector of norm one per text: the same for all. *)
Definition embed_unit (input : EmbInput) : Completion (list Embedding) :=
  match input with
  | EmbOne _ => Normal [[1; 0; 0; 0]%Q]
  | EmbMany texts => Normal ((λ _, [4 # 5; 3 # 5; 0; 0]%Q) <$> texts)
  end.

Definition reply (content : string) : Completion (list ChatChoice) :=
  Normal [mkChoice (Some (Some content))].

(** Every collaborator answers; the page has a description only. *)
Definition acme_page : Page :=
  mkPage "Acme | Home" (Some "Acme builds anvils.") None None (λ _, None) "" "" "" "Acme".

Definition acme_news : list Citation :=
  [mkCitation "Acme opens a plant." "https://news.example/acme" (Some "News")].

Definition healthy (chat : Completion (list ChatChoice)) (rpc : DbOutcome)
    (update : RunUpdate → DbOutcome) : Env :=
  scripted (Normal acme_page) (Normal (Some acme_news)) (Normal [])
    embed_unit chat DbDone rpc DbDone next_key update.

(** A complete answer of the model. *)
Definition full_answer : string :=
  "{" +:+ Text.q "insights" +:+ ": [" +:+ Text.q "Acme is expanding" +:+ "], "
  +:+ Text.q "email_subject" +:+ ": " +:+ Text.q "Congratulations" +:+ ", "
  +:+ Text.q "email_body" +:+ ": " +:+ Text.q "Hello" +:+ ", "
  +:+ Text.q "citations" +:+ ": [" +:+ Text.q "https://news.example/acme" +:+ "]}".

Definition acme_request : JValue :=
  JObj [("company", JStr "Acme"); ("domain", JStr "acme.com")].

(** The profile of the example of the specification. *)
Definition acme_profile : ScrapedCompanyData :=
  mkScraped "Acme" "" "acme.com" (Some (mkMetadata None None None)).

(** A page that only has a heading. *)
Definition blank_page : Page :=
  mkPage "" None None None (λ _, None) "" "" "" "Acme".

(** What the scraper makes of it: every field of [metadata] is there, empty. *)
Definition blank_profile : ScrapedCompanyData :=
  mkScraped "Acme" "" "acme.com" (Some (mkMetadata (Some "") (Some "") (Some ""))).

(** A citation whose URL is empty, as the research client builds one when
    the answer has neither [url] nor [source]. *)
Definition unsourced : Citation := mkCitation "Acme raises funds." "" (Some "").


(** A table for the similarity query: four rows of run [run-0] and one of
    another run, with vectors of norm one whose similarity to the query
    [[1; 0; 0; 0]] is their first coordinate. *)
Module Vectors.

Definition query : Embedding := [1; 0; 0; 0]%Q.

Definition row (run : string) (i : nat) (e : Embedding) : InsightRecord :=
  mkRecord run (mkContent ("chunk " +:+ pretty i) i) (Some e) [].

Definition table : list InsightRecord :=
  [row "run-0" 0 [3 # 5; 4 # 5; 0; 0]%Q;                  (* similarity 0.6 *)
   row "run-0" 1 [7 # 10; 7 # 10; 1 # 10; 1 # 10]%Q;      (* similarity 0.7 *)
   row "run-0" 2 [4 # 5; 3 # 5; 0; 0]%Q;                  (* similarity 0.8 *)
   row "run-1" 0 [1; 0; 0; 0]%Q;                          (* another run *)
   row "run-0" 3 [1; 0; 0; 0]%Q].                         (* similarity 1 *)

End Vectors.

(** The status write of a completed run raises; the one of a failed run is
    carried out. *)
Definition completion_write_fails (u : RunUpdate) : DbOutcome :=
  match u with
  | SetCompleted _ => DbRaise "write failed"
  | SetFailed => DbDone
  end.

End Scenario.

(** ** Properties of computations *)

(** Every run of [m] relates the state before to the state after by [R]. *)
Definition preserves (R : relation World) {A} (m : M A) : Prop := ∀ w, R w (m w).2.

(** A computation that never raises. *)
Definition total {A} (m : M A) : Prop := ∀ w, ∃ a, (m w).1 = Normal a.

(** The table of runs and the history of every run are left as they are. *)
Definition runs_kept (w w' : World) : Prop :=
  abm_runs w' = abm_runs w ∧ ∀ id, run_history id w' = run_history id w.

(** Rows were added to [abm_insights], all of them satisfying [P]. *)
Definition insights_added (P : InsightRecord → Prop) (w w' : World) : Prop :=
  ∃ new, abm_insights w' = abm_insights w ++ new ∧ Forall P new.

(** A call that is not a write to [abm_runs] carried out. *)
Definition not_a_run_write (c : Call) : Prop := ∀ id h, write_run id h c = h.

(** The state once a call is logged. *)
Definition logged (c : Call) (w : World) : World := (log_call c w).2.

(** ** Chunk assembly, as the specification words it

    The chunk of the profile when the description is not empty, then the
    chunk of the [about] text when there is one and it is not empty, then one
    chunk per external citation. *)

Definition profile_chunk (sd : ScrapedCompanyData) : list (string * Citation) :=
  if decide (description sd = "") then []
  else [("Company: " +:+ name sd +:+ Text.nl +:+ "Description: " +:+ description sd,
         mkCitation "" ("https://" +:+ domain sd) (Some (name sd)))].

Definition about_chunk (sd : ScrapedCompanyData) : list (string * Citation) :=
  match metadata sd ≫= about with
  | Some about_text =>
      if decide (about_text = "") then []
      else [("About: " +:+ about_text,
             mkCitation "" ("https://" +:+ domain sd) (Some (name sd)))]
  | None => []
  end.

Definition citation_chunks (ys : list Citation) : list (string * Citation) :=
  (λ c, (text c, c)) <$> ys.

Definition chunks_in_order (sd : ScrapedCompanyData) (ys : list Citation)
  : list (string * Citation) :=
  profile_chunk sd ++ about_chunk sd ++ citation_chunks ys.

(** The record persisted for the chunk at position [i]. *)
Definition record_at
    (runId : string) (embeddings : list Embedding) (citations : list Citation)
    (i : nat) (chunk : string) : InsightRecord :=
  mkRecord runId (mkContent chunk i) (embeddings !! i)
    (match citations !! i with
     | Some c => [c]
     | None => []
     end).

(** A record that carries exactly one citation. *)
Definition one_citation (r : InsightRecord) : Prop := ∃ c, record_citations r = [c].

(** The state once rows are appended to [abm_insights]. *)
Definition stored (records : list InsightRecord) (w : World) : World :=
  mkWorld (abm_runs w) (abm_insights w ++ records) (calls w).

(** The rows listed by the fallback query. *)
Definition first_rows (id : string) (limit : nat) (w : World) : list InsightRecord :=
  take limit (List.filter (λ r, bool_decide (run_id r = id)) (abm_insights w)).

(** A run of [m] from [w] raises. *)
Definition throws {A} (m : M A) (w : World) : Prop := ∃ e w', m w = (Throw e, w').

(** The artifact of the [catch] block of [runRAGPipeline]. *)
Definition fallback_json (sd : ScrapedCompanyData) (ys : list Citation) : JValue :=
  ABMInsights_json (fallback_insights sd ys).

(** ** The stages of a run of the pipeline

    A run of [pipeline_body] for the run [runId] that starts in the state
    [w]: the states in which it calls its services and what they answer
    there. *)

Section Stages.
Context (env : Env) (runId companyName : string).
Context (sd : ScrapedCompanyData) (ys : list Citation) (w : World).

(** The records built for the chunks once they are embedded. *)
Definition chunk_records (embeddings : list Embedding) : list InsightRecord :=
  build_records runId (assemble_chunks sd ys).1 embeddings (assemble_chunks sd ys).2.

(** The state in which the records are inserted: the embedder was called. *)
Definition embedded_state : World :=
  logged (CallEmbeddings (EmbMany (assemble_chunks sd ys).1)) w.

(** The state in which the query is embedded: the records are stored. *)
Definition persisted_state (embeddings : list Embedding) : World :=
  stored (chunk_records embeddings)
    (logged (CallInsightsInsert (chunk_records embeddings)) embedded_state).

(** The state in which the store is searched. *)
Definition queried_state (embeddings : list Embedding) : World :=
  logged (CallEmbeddings (EmbOne (ABM_PROMPTS.generateRAGContext companyName)))
    (persisted_state embeddings).

(** There are chunks, the embedder answered [embeddings] for them and the
    store inserted their records. *)
Definition persisted (embeddings : list Embedding) : Prop :=
  (assemble_chunks sd ys).1 ≠ []
  ∧ openai_embeddings env w (EmbMany (assemble_chunks sd ys).1) = Normal embeddings
  ∧ db_insights_insert env embedded_state (chunk_records embeddings) = DbDone.

(** Moreover the embedder answered the query with [q] first. *)
Definition indexed (embeddings : list Embedding) (q : Embedding) : Prop :=
  persisted embeddings
  ∧ ∃ qs, openai_embeddings env (persisted_state embeddings)
            (EmbOne (ABM_PROMPTS.generateRAGContext companyName))
          = Normal (q :: qs).

(** Moreover the search returned [chunks] and left the state [w4]. *)
Definition retrieved (chunks : list Chunk) (w4 : World) : Prop :=
  ∃ embeddings q,
    indexed embeddings q
    ∧ similaritySearch env q runId 5 (queried_state embeddings) = (Normal chunks, w4).

(** The prompt of the generation call for the retrieved chunks. *)
Definition prompt_for (chunks : list Chunk) : string :=
  generation_prompt companyName sd (context_text chunks)
    (uniqueCitations (Js.flatMap chunk_citations chunks)).

(** The failures of a stage of the pipeline, each at the call the run makes:
    nothing to embed; the embedding call raises; the records are not stored;
    the embedding of the query raises or is empty; the generation call
    raises; its answer does not parse; its answer parses to [null] or to a
    primitive, on which [citations] can be neither read nor set.  A failure
    of the vector-store query is not among them. *)
Inductive stage_failure : Prop :=
| no_chunks :
    (assemble_chunks sd ys).1 = [] → stage_failure
| embedding_fails e :
    (assemble_chunks sd ys).1 ≠ [] →
    openai_embeddings env w (EmbMany (assemble_chunks sd ys).1) = Throw e →
    stage_failure
| persistence_fails embeddings :
    (assemble_chunks sd ys).1 ≠ [] →
    openai_embeddings env w (EmbMany (assemble_chunks sd ys).1) = Normal embeddings →
    db_insights_insert env embedded_state (chunk_records embeddings) ≠ DbDone →
    stage_failure
| query_embedding_fails embeddings :
    persisted embeddings →
    (∀ q qs, openai_embeddings env (persisted_state embeddings)
               (EmbOne (ABM_PROMPTS.generateRAGContext companyName))
             ≠ Normal (q :: qs)) →
    stage_failure
| generation_fails chunks w4 e :
    retrieved chunks w4 →
    openai_chat env w4 system_message (prompt_for chunks) = Throw e →
    stage_failure
| parse_fails chunks w4 choices :
    retrieved chunks w4 →
    openai_chat env w4 system_message (prompt_for chunks) = Normal choices →
    JSON_parse env (response_text choices) = None →
    stage_failure
| answer_unusable chunks w4 choices parsed :
    retrieved chunks w4 →
    openai_chat env w4 system_message (prompt_for chunks) = Normal choices →
    JSON_parse env (response_text choices) = Some parsed →
    Json.is_object parsed = false →
    stage_failure.

(** The generation call of the run answered with a text that parses to
    [parsed], an object, and [ins] is what the backfill of [citations] makes
    of it. *)
Definition answered (parsed ins : JValue) : Prop :=
  ∃ chunks w4 choices,
    retrieved chunks w4
    ∧ openai_chat env w4 system_message (prompt_for chunks) = Normal choices
    ∧ JSON_parse env (response_text choices) = Some parsed
    ∧ Json.is_object parsed = true
    ∧ (ensure_citations parsed (uniqueCitations (Js.flatMap chunk_citations chunks)) w4).1
      = Normal ins.

(** The value returned by the pipeline: the fallback artifact when a stage
    fails, and otherwise the answer of the model with [citations]
    ensured. *)
Definition pipeline_outcome (ins : JValue) : Prop :=
  stage_failure ∧ ins = fallback_json sd ys
  ∨ ¬ stage_failure ∧ ∃ parsed, answered parsed ins.

End Stages.

(** The state once the row of a new run is inserted under the key [id]. *)
Definition after_insert (row : Run) (id : string) (w : World) : World :=
  mkWorld (<[id := row]> (abm_runs w)) (abm_insights w)
    (calls w ++ [CallRunsInsert row (Some id)]).

(** The state once an update of the run [id] is carried out. *)
Definition after_update (id : string) (u : RunUpdate) (w : World) : World :=
  mkWorld (alter (apply_update u) id (abm_runs w)) (abm_insights w)
    (calls w ++ [CallRunsUpdate id u true]).

(** The rows a run created as [row] can have held when its request ends. *)
Inductive run_life (row : Run) : list Run → Prop :=
| life_processing : run_life row [row]
| life_completed res : run_life row [row; apply_update (SetCompleted res) row]
| life_failed : run_life row [row; apply_update SetFailed row].

(** Between [w] and [w'] the run [id] went through [rows], and no other run
    was touched. *)
Definition run_went_through (id : string) (rows : list Run) (w w' : World) : Prop :=
  abm_runs w' !! id = last rows
  ∧ run_history id w' = run_history id w ++ rows
  ∧ ∀ id', id' ≠ id →
      abm_runs w' !! id' = abm_runs w !! id' ∧ run_history id' w' = run_history id' w.

(** A request created the run [id] and left it in the last row of [rows]. *)
Definition run_created (id : string) (rows : list Run) (w w' : World) : Prop :=
  abm_runs w !! id = None
  ∧ (∃ v, run_life (new_run v) rows)
  ∧ run_went_through id rows w w'.

(** What holds of every run in a reachable state. *)
Definition run_ok (id : string) (w : World) : Prop :=
  match abm_runs w !! id with
  | Some r =>
      lifecycle (status <$> run_history id w)
      ∧ last (run_history id w) = Some r
      ∧ Forall payload_iff_completed (run_history id w)
  | None => run_history id w = []
  end.

(** The fields of [ABMInsights] other than [citations]. *)
Definition has_other_insight_fields (v : JValue) : bool :=
  forallb (Json.has_field v) ["insights"; "email_subject"; "email_body"].

(** ** Further notions used by the properties of the code *)

(** The first occurrence of every element, in order. *)
Fixpoint first_occurrences (l : list string) : list string :=
  match l with
  | [] => []
  | x :: l' => x :: filter (λ y, y ≠ x) (first_occurrences l')
  end.

(** Calls were added to the log, all of them satisfying [P]. *)
Definition calls_added (P : Call → Prop) (w w' : World) : Prop :=
  ∃ new, calls w' = calls w ++ new ∧ Forall P new.

(** Both tables are left as they are. *)
Definition tables_kept (w w' : World) : Prop :=
  abm_runs w' = abm_runs w ∧ abm_insights w' = abm_insights w.

(** The calls logged between two states. *)
Definition new_calls (w w' : World) : list Call := drop (length (calls w)) (calls w').

(** Every computation that returns from [m] returns a value satisfying [Q]. *)
Definition returns {A} (Q : A → Prop) (m : M A) : Prop :=
  ∀ w a w', m w = (Normal a, w') → Q a.

(** The chunk made of a stored record. *)
Definition chunk_of_record (r : InsightRecord) : Chunk :=
  mkChunk (content_text (content_json r)) (record_citations r).

(** The calls of a run of the pipeline that reaches the generation step:
    one batched embedding, the insert of the records, the embedding of the
    query, the vector query, the fallback listing when the vector query
    failed, and the chat completion. *)
Definition pipeline_calls
    (runId companyName : string) (texts : list string)
    (records : list InsightRecord) (query : Embedding)
    (listing : bool) (prompt : string) : list Call :=
  [CallEmbeddings (EmbMany texts);
   CallInsightsInsert records;
   CallEmbeddings (EmbOne (ABM_PROMPTS.generateRAGContext companyName));
   CallRpcMatch query match_threshold_used 5 runId]
  ++ (if listing then [CallInsightsSelect runId (Some 5)] else [])
  ++ [CallChat system_message prompt].

(** [parsed.citations && parsed.citations.length !== 0]: the answer of the
    model names citations of its own. *)
Definition cites (parsed : JValue) : bool :=
  Json.truthy (Json.get parsed "citations")
  && negb (Json.length_is_zero (default JNull (Json.get parsed "citations"))).

(** The trimmed texts of the [about] selectors that match an element of the
    page, in the order of the selectors. *)
Definition about_matches (page : Page) (selectors : list string) : list string :=
  omap (about_section page) selectors.

(** [text.length > 50]. *)
Definition substantial (found : string) : bool := (50 <? Js.string_length found)%nat.

(** The address fetched by the scraper. *)
Definition scrape_target (domain : string) : string :=
  if String.prefix "http" domain then domain else "https://" +:+ domain.

Definition is_webhook (c : Call) : bool :=
  match c with CallWebhook _ _ => true | _ => false end.

(** [send_via_n8n && env.N8N_WEBHOOK_URL]: where the webhook goes, if it is
    sent. *)
Definition webhook_target (env : Env) (v : Validated) : option string :=
  if v_send_via_n8n v
  then match N8N_WEBHOOK_URL env with
       | Some target => if Js.truthy target then Some target else None
       | None => None
       end
  else None.

(** The state once the webhook step is over. *)
Definition notified (env : Env) (v : Validated) (insights : JValue) (runId : string)
    (w : World) : World :=
  match webhook_target env v with
  | Some target => logged (CallWebhook target (webhook_body v insights runId)) w
  | None => w
  end.

(** The rows of [abm_insights] that belong to a run. *)
Definition rows_of (id : string) (w : World) : list InsightRecord :=
  filter (λ r, run_id r = id) (abm_insights w).

(** The answers of [POST]. *)
Definition success (v : Validated) (runId : string) (insights : JValue)
    (scrapedData : ScrapedCompanyData) (youComData : list Citation) : Response :=
  json (BodySuccess runId (v_company v) (v_domain v) insights scrapedData
          (length youComData)).

Definition processing_failed (runId : string) (error : JsError) : Response :=
  mkResponse 500
    (BodyError "Failed to process ABM request" (Some (OfError error)) (Some runId)).

Definition internal_error : Response :=
  mkResponse 500 (BodyError "Internal server error" None None).

Definition invalid_request : Response :=
  mkResponse 400
    (BodyError "Invalid request" (Some (OfError (ZodError "invalid request"))) None).

Definition run_not_created (runError : option string) : Response :=
  mkResponse 500 (BodyError "Failed to create run record" (Some (OfDb runError)) None).

Definition no_webhook (c : Call) : Prop := is_webhook c = false.

(** The calls of steps 1 to 3 of [POST]: to the scraped site, to the research
    API, to the embedder, to the table of insights and to the model. *)
Definition collaborator_call (c : Call) : bool :=
  match c with
  | CallAxiosGet _ | CallYouExpress _ | CallYouSearch _ | CallEmbeddings _
  | CallInsightsInsert _ | CallRpcMatch _ _ _ _ | CallInsightsSelect _ _
  | CallChat _ _ => true
  | CallRunsInsert _ _ | CallRunsUpdate _ _ _ | CallRunsSelect _ | CallWebhook _ _ => false
  end.

Definition collaborator (c : Call) : Prop := collaborator_call c = true.

(** The calls of the webhook step. *)
Definition webhook_calls (env : Env) (v : Validated) (insights : JValue) (runId : string)
  : list Call :=
  match webhook_target env v with
  | Some target => [CallWebhook target (webhook_body v insights runId)]
  | None => []
  end.

(** The answers of [GET]. *)
Definition run_id_required : Response :=
  mkResponse 400 (BodyError "run_id is required" None None).

Definition run_not_found : Response :=
  mkResponse 404 (BodyError "Run not found" None None).

(** [run.result_json?.insights || {}]. *)
Definition stored_insights (run : Run) : JValue :=
  match result_insights <$> result_json run with
  | Some v => if Json.truthy (Some v) then v else JObj []
  | None => JObj []
  end.

Definition run_answer (id : string) (run : Run) (rows : list InsightRecord) : Response :=
  json (BodyRun id (company run) (run_domain run) (stored_insights run)
          (scraped_data <$> result_json run)
          (default 0 (you_com_citations <$> result_json run))
          rows).

(** Between [w] and [w'] the rows of one insert for the run [id] were added
    to [abm_insights], or none; the insert is of 10 chunks at most (two of
    the profile and 8 citations). *)
Definition batch_stored (id : string) (w w' : World) : Prop :=
  ∃ texts embeddings citations,
    (length texts ≤ 10)%nat
    ∧ abm_insights w' = abm_insights w ++ build_records id texts embeddings citations.

(** The rows of every run were stored by one insert, and a key that is not
    in [abm_runs] has no row. *)
Definition rows_in_batches (w : World) : Prop :=
  ∀ id,
    match abm_runs w !! id with
    | Some _ =>
        ∃ texts embeddings citations,
          (length texts ≤ 10)%nat
          ∧ rows_of id w = build_records id texts embeddings citations
    | None => rows_of id w = []
    end.

(** ** [youcom.ts]: the reading of the answers of the research API

    The two functions of [youcom.ts] fetch an answer, parse it with
    [response.json()] and build citations from the parsed value.  The
    handlers above take the outcome of that as a whole ([you_search],
    [you_express]); here is the building of the citations, from any JSON
    value.  The fields of the answer are not checked to be strings, so a
    built citation holds whatever the answer holds. *)

Module YouCom.

(** What a field of a built citation can hold: a value of the answer or, for
    [element.link] on an element that is a string, the method
    [String.prototype.link] (no other property read here is inherited from a
    prototype). *)
Inductive Value :=
| OfJson (v : JValue)
| StringLink.

Definition str (s : string) : Value := OfJson (JStr s).

Definition truthy (o : option Value) : bool :=
  match o with
  | Some (OfJson v) => Json.truthy (Some v)
  | Some StringLink => true
  | None => false
  end.

(** [element.k] on an element that is not [null]; [None] is [undefined]. *)
Definition read (element : JValue) (k : string) : option Value :=
  match element with
  | JStr _ => if decide (k = "link") then Some StringLink else None
  | _ => OfJson <$> Json.get element k
  end.

(** [a || b]. *)
Definition or_else (a b : option Value) : option Value := if truthy a then a else b.

(** [a || b] where [b] is not [undefined]. *)
Definition or_value (a : option Value) (b : Value) : Value :=
  match or_else a (Some b) with
  | Some v => v
  | None => b
  end.

Record RawCitation := mkRaw {
  raw_text : Value;
  raw_url : Value;
  raw_title : Value;
}.

(** The body of the loop over [data.results]: what is pushed, or [None] when
    the property read raises (on [null]). *)
Definition from_result (result : JValue) : option (list RawCitation) :=
  match result with
  | JNull => None
  | _ =>
      match read result "url", read result "snippet" with
      | Some url, Some snippet =>
          if truthy (Some url) && truthy (Some snippet)
          then Some [mkRaw snippet url (or_value (read result "title") url)]
          else Some []
      | _, _ => Some []
      end
  end.

(** The body of the loop over [data.citations] in [fetchCitedResearch]. *)
Definition from_citation (citation : JValue) : option (list RawCitation) :=
  match citation with
  | JNull => None
  | _ =>
      Some [mkRaw
              (or_value (or_else (read citation "text") (read citation "snippet")) (str ""))
              (or_value (or_else (read citation "url") (read citation "link")) (str ""))
              (or_value (or_else (read citation "title") (read citation "source")) (str ""))]
  end.

(** The body of the loop over [data.snippets]. *)
Definition from_snippet (snippet : JValue) : option (list RawCitation) :=
  match snippet with
  | JNull => None
  | _ =>
      Some [mkRaw
              (or_value (or_else (read snippet "text") (read snippet "content")) (str ""))
              (or_value (or_else (read snippet "url") (read snippet "link")) (str ""))
              (or_value (read snippet "title") (str ""))]
  end.

(** The body of the loop over [data.citations] in [fetchExpressResearch]. *)
Definition from_express (citation : JValue) : option (list RawCitation) :=
  match citation with
  | JNull => None
  | _ =>
      Some [mkRaw
              (or_value (or_else (read citation "text") (read citation "content")) (str ""))
              (or_value (or_else (read citation "url") (read citation "source")) (str ""))
              (or_value (or_else (read citation "title") (read citation "source_name"))
                 (str ""))]
  end.

(** [for (const element of elements) { ... citations.push(...) ... }]. *)
Fixpoint push_each (body : JValue → option (list RawCitation))
    (elements : list JValue) (citations : list RawCitation) : option (list RawCitation) :=
  match elements with
  | [] => Some citations
  | element :: rest =>
      match body element with
      | Some pushed => push_each body rest (citations ++ pushed)
      | None => None
      end
  end.

(** [x && Array.isArray(x)]: the elements, when it holds. *)
Definition array_elements (x : option JValue) : option (list JValue) :=
  match x with
  | Some (JArr elems _) => Some elems
  | _ => None
  end.

Definition search_query (company : string) : string :=
  "recent news and updates about " +:+ company +:+ " company products services".

Section Search.
Variable encodeURIComponent : string → string.

(** The citation pushed when no citation was built and [data.text] is
    truthy; [None] when [data.text.substring] is not a function. *)
Definition from_text (company : string) (data : JValue) : option RawCitation :=
  match Json.get data "text" with
  | Some (JStr t) =>
      Some (mkRaw
              (str (Js.substring0 500 t))
              (or_value (OfJson <$> Json.get data "url")
                 (str ("https://you.com/search?q="
                       +:+ encodeURIComponent (search_query company))))
              (str ("Research about " +:+ company)))
  | _ => None
  end.

(** The field [citations] of the value returned by the [try] block of
    [fetchCitedResearch] for the parsed answer [data]; [None] when the block
    raises. *)
Definition search_citations (company : string) (data : JValue)
  : option (list RawCitation) :=
  match data with
  | JNull => None
  | _ =>
      let structured :=
        match array_elements (Json.get data "results") with
        | Some results => push_each from_result (Js.slice0 8 results) []
        | None =>
            match array_elements (Json.get data "citations") with
            | Some cited => push_each from_citation (Js.slice0 8 cited) []
            | None =>
                match array_elements (Json.get data "snippets") with
                | Some snippets => push_each from_snippet (Js.slice0 8 snippets) []
                | None => Some []
                end
            end
        end in
      match structured with
      | None => None
      | Some citations =>
          if (length citations =? 0)%nat && Json.truthy (Json.get data "text")
          then match from_text company data with
               | Some citation => Some (Js.slice0 8 (citations ++ [citation]))
               | None => None
               end
          else Some (Js.slice0 8 citations)
      end
  end.

End Search.

(** The same for the [try] block of [fetchExpressResearch], once the answer
    is [ok]. *)
Definition express_citations (data : JValue) : option (list RawCitation) :=
  match data with
  | JNull => None
  | _ =>
      match array_elements (Json.get data "citations") with
      | Some cited => Js.slice0 8 <$> push_each from_express (Js.slice0 8 cited) []
      | None => Some []
      end
  end.

(** An answer of [fetch]: [response.ok] and the outcome of
    [response.json()]. *)
Record Fetched := mkFetched {
  ok : bool;
  parsed : Completion JValue;
}.

(** The citations returned by [fetchCitedResearch], given what [fetch]
    answers. *)
Definition cited_research (encodeURIComponent : string → string) (company : string)
    (response : Completion Fetched) : list RawCitation :=
  match response with
  | Normal (mkFetched true (Normal data)) =>
      default [] (search_citations encodeURIComponent company data)
  | _ => []
  end.

(** The citations returned by [fetchExpressResearch], given what [fetch]
    answers to it and to the search request it falls back to. *)
Definition express_research (encodeURIComponent : string → string) (company : string)
    (express search : Completion Fetched) : list RawCitation :=
  match express with
  | Normal (mkFetched true (Normal data)) =>
      match express_citations data with
      | Some citations => citations
      | None => cited_research encodeURIComponent company search
      end
  | _ => cited_research encodeURIComponent company search
  end.

(** A built citation whose fields are strings, as a [Citation]. *)
Definition as_string (v : Value) : option string :=
  match v with
  | OfJson (JStr s) => Some s
  | _ => None
  end.

Definition typed (c : RawCitation) : option Citation :=
  match as_string (raw_text c), as_string (raw_url c), as_string (raw_title c) with
  | Some t, Some u, Some title => Some (mkCitation t u (Some title))
  | _, _, _ => None
  end.

(** An entry of [results] whose fields are strings: [url], [snippet] and,
    when there is one, [title]. *)
Definition Entry : Type := string * string * option string.

Definition result_entry (entry : Entry) : JValue :=
  JObj ([("url", JStr entry.1.1); ("snippet", JStr entry.1.2)]
        ++ match entry.2 with
           | Some title => [("title", JStr title)]
           | None => []
           end).

(** The entries for which [result.url && result.snippet] holds. *)
Definition usable (entry : Entry) : Prop := entry.1.1 ≠ "" ∧ entry.1.2 ≠ "".

#[global] Instance usable_dec entry : Decision (usable entry).
Proof. unfold usable. apply _. Defined.

(** The citation built from a usable entry. *)
Definition citation_of_entry (entry : Entry) : Citation :=
  mkCitation entry.1.2 entry.1.1 (Some (Js.or_else (default "" entry.2) entry.1.1)).

End YouCom.

(** * Facts about the helpers *)

Section MapFacts.
Context {V : Type}.
Implicit Types (m es : list (string * V)) (k : string) (v : V).
Import Js.

Lemma truthy_spec s : truthy s = true ↔ s ≠ "".
Proof. destruct s; simpl; split; congruence. Qed.

Lemma Map_set_fresh k v m :
  k ∉ Map_keys m → Map_set k v m = m ++ [(k, v)].
Proof.
  induction m as [|[k' v'] m IH]; simpl; [done|].
  intros Hk. apply not_elem_of_cons in Hk as [Hne Hk].
  case_decide; [congruence|]. by rewrite IH.
Qed.

Lemma Map_keys_set_in k v m :
  k ∈ Map_keys m → Map_keys (Map_set k v m) = Map_keys m.
Proof.
  induction m as [|[k' v'] m IH]; simpl.
  - intros H. by apply elem_of_nil in H.
  - intros H. case_decide as Hd; simpl; [by subst|].
    f_equal. apply IH. apply elem_of_cons in H as [->|H]; [done|exact H].
Qed.

Lemma Map_keys_set k v m :
  Map_keys (Map_set k v m)
  = if decide (k ∈ Map_keys m) then Map_keys m else Map_keys m ++ [k].
Proof.
  case_decide as Hd.
  - by apply Map_keys_set_in.
  - rewrite Map_set_fresh by done. unfold Map_keys. by rewrite fmap_app.
Qed.

Lemma Map_set_NoDup k v m :
  NoDup (Map_keys m) → NoDup (Map_keys (Map_set k v m)).
Proof.
  intros Hnd. rewrite Map_keys_set. case_decide as Hd; [done|].
  apply NoDup_app. split_and!; [done| |apply NoDup_singleton].
  intros x Hx Hx'. apply list_elem_of_singleton in Hx' as ->. done.
Qed.

Lemma Map_get_set_eq k v m : Map_get k (Map_set k v m) = Some v.
Proof.
  induction m as [|[k' v'] m IH]; simpl.
  - by rewrite decide_True.
  - case_decide; simpl; [by rewrite decide_True|]. by rewrite decide_False.
Qed.

Lemma Map_get_set_ne k k' v m :
  k ≠ k' → Map_get k' (Map_set k v m) = Map_get k' m.
Proof.
  intros Hne. induction m as [|[k0 v0] m IH]; simpl.
  - by rewrite decide_False.
  - case_decide as Hd; simpl.
    + subst k0. by rewrite !decide_False.
    + case_decide; [done|exact IH].
Qed.

Lemma Map_get_None k m : Map_get k m = None ↔ k ∉ Map_keys m.
Proof.
  induction m as [|[k' v'] m IH]; simpl.
  - split; [intros _; apply not_elem_of_nil|done].
  - case_decide as Hd.
    + subst. split; [done|]. intros H. exfalso. apply H. left.
    + rewrite IH, not_elem_of_cons. naive_solver.
Qed.

Lemma Map_get_Some_elem k v m : Map_get k m = Some v → (k, v) ∈ m.
Proof.
  induction m as [|[k' v'] m IH]; simpl; [done|].
  case_decide as Hd.
  - intros [= ->]. subst. left.
  - intros H. right. by apply IH.
Qed.

Lemma Map_elem_get k v m :
  NoDup (Map_keys m) → (k, v) ∈ m → Map_get k m = Some v.
Proof.
  induction m as [|[k' v'] m IH]; simpl.
  - intros _ H. by apply elem_of_nil in H.
  - intros Hnd H. apply NoDup_cons in Hnd as [Hnotin Hnd].
    apply elem_of_cons in H as [[= -> ->]|H].
    + by rewrite decide_True.
    + case_decide as Hd; [|by apply IH].
      subst k'. exfalso. apply Hnotin.
      change k with ((k, v).1). by apply list_elem_of_fmap_2.
Qed.

Lemma Map_extend_NoDup m es :
  NoDup (Map_keys m) → NoDup (Map_keys (Map_extend m es)).
Proof.
  revert m. induction es as [|[k v] es IH]; intros m Hm; simpl; [done|].
  apply IH. by apply Map_set_NoDup.
Qed.

Lemma Map_extend_snoc m es e :
  Map_extend m (es ++ [e]) = Map_set e.1 e.2 (Map_extend m es).
Proof. unfold Map_extend. by rewrite foldl_app. Qed.

Lemma Map_extend_keys_elem m es k :
  k ∈ Map_keys (Map_extend m es) ↔ k ∈ Map_keys m ∨ k ∈ es.*1.
Proof.
  revert m. induction es as [|[k' v'] es IH]; intros m; simpl.
  - rewrite elem_of_nil. naive_solver.
  - rewrite IH, Map_keys_set, elem_of_cons. case_decide as Hd.
    + naive_solver.
    + rewrite elem_of_app, list_elem_of_singleton. naive_solver.
Qed.

(** The value bound to [k] is the one of the last entry for [k]. *)
Lemma Map_extend_get m es k :
  Map_get k (Map_extend m es)
  = match last (filter (λ e, e.1 = k) es) with
    | Some e => Some e.2
    | None => Map_get k m
    end.
Proof.
  induction es as [|[k' v'] es IH] using rev_ind; [done|].
  rewrite Map_extend_snoc, filter_app. simpl.
  rewrite filter_cons, filter_nil. simpl. case_decide as Hd.
  - subst k'. rewrite last_snoc. simpl. apply Map_get_set_eq.
  - rewrite app_nil_r. rewrite Map_get_set_ne by done. exact IH.
Qed.

(** Entries whose keys are pairwise distinct are left as they are. *)
Lemma Map_extend_distinct m es :
  NoDup (Map_keys (m ++ es)) → Map_extend m es = m ++ es.
Proof.
  revert m. induction es as [|[k v] es IH]; intros m Hnd; simpl.
  - by rewrite app_nil_r.
  - assert (Hk : k ∉ Map_keys m).
    { unfold Map_keys in *. rewrite fmap_app in Hnd.
      apply NoDup_app in Hnd as (_ & Hdisj & _).
      intros Hin. apply (Hdisj k Hin). simpl. left. }
    rewrite Map_set_fresh by done.
    rewrite (IH (m ++ [(k, v)])); rewrite <- app_assoc; done.
Qed.

Lemma Map_new_distinct es : NoDup (Map_keys es) → Map_new es = es.
Proof. intros H. apply (Map_extend_distinct [] es H). Qed.

End MapFacts.

(** * Reasoning about computations *)

Lemma bind_run {A B} (m : M A) (k : A → M B) w :
  (m ≫= k) w = match m w with
               | (Normal a, w') => k a w'
               | (Throw e, w') => (Throw e, w')
               end.
Proof. reflexivity. Qed.

Lemma bind_normal {A B} (m : M A) (k : A → M B) w a w' :
  m w = (Normal a, w') → (m ≫= k) w = k a w'.
Proof. intros H. by rewrite bind_run, H. Qed.

Lemma bind_throw {A B} (m : M A) (k : A → M B) w e w' :
  m w = (Throw e, w') → (m ≫= k) w = (Throw e, w').
Proof. intros H. by rewrite bind_run, H. Qed.

Lemma try_catch_normal {A} (m : M A) h w a w' :
  m w = (Normal a, w') → try_catch m h w = (Normal a, w').
Proof. intros H. unfold try_catch. by rewrite H. Qed.

Lemma try_catch_throw {A} (m : M A) h w e w' :
  m w = (Throw e, w') → try_catch m h w = h e w'.
Proof. intros H. unfold try_catch. by rewrite H. Qed.

(** A relation between the state before and the state after that every
    step of a computation maintains. *)
Section Preserves.
Context (R : relation World) `{!PreOrder R}.

Lemma preserves_ret {A} (a : A) : preserves R (mret a).
Proof. intros w. simpl. reflexivity. Qed.

Lemma preserves_throw {A} e : preserves R (@throw A e).
Proof. intros w. simpl. reflexivity. Qed.

Lemma preserves_settle {A} (c : Completion A) : preserves R (settle c).
Proof. intros w. simpl. reflexivity. Qed.

Lemma preserves_get_world : preserves R get_world.
Proof. intros w. simpl. reflexivity. Qed.

Lemma preserves_bind {A B} (m : M A) (k : A → M B) :
  preserves R m → (∀ a, preserves R (k a)) → preserves R (m ≫= k).
Proof.
  intros Hm Hk w. rewrite bind_run. specialize (Hm w).
  destruct (m w) as [[a|e] w']; simpl in *; [|done].
  etrans; [exact Hm|apply Hk].
Qed.

Lemma preserves_try_catch {A} (m : M A) h :
  preserves R m → (∀ e, preserves R (h e)) → preserves R (try_catch m h).
Proof.
  intros Hm Hh w. unfold try_catch. specialize (Hm w).
  destruct (m w) as [[a|e] w']; simpl in *; [done|].
  etrans; [exact Hm|apply Hh].
Qed.

End Preserves.

Lemma total_ret {A} (a : A) : total (mret a).
Proof. intros w. by exists a. Qed.

Lemma total_try_catch {A} (m : M A) h : (∀ e, total (h e)) → total (try_catch m h).
Proof.
  intros Hh w. unfold try_catch. destruct (m w) as [[a|e] w']; [by exists a|apply Hh].
Qed.

Lemma total_run {A} (m : M A) w : total m → ∃ a w', m w = (Normal a, w').
Proof. intros H. destruct (H w) as [a Ha]. destruct (m w) as [c w']. simpl in Ha. subst. eauto. Qed.

(** * Citation deduplication *)

Section Dedup.
Implicit Types (l : list Citation) (c : Citation) (u : string).

Lemma url_entries_filter u l :
  filter (λ e : string * Citation, e.1 = u) (url_entries l)
  = url_entries (filter (λ c, url c = u) l).
Proof.
  induction l as [|c l IH]; [done|].
  unfold url_entries in *. rewrite fmap_cons, !filter_cons. simpl.
  case_decide; [rewrite fmap_cons|]; by rewrite IH.
Qed.

Lemma dedup_lookup u l :
  Js.Map_get u (Js.Map_new (url_entries l)) = last_with_url u l.
Proof.
  unfold Js.Map_new. fold (Js.Map_extend [] (url_entries l)).
  rewrite Map_extend_get, url_entries_filter. unfold last_with_url, url_entries.
  rewrite fmap_last. by destruct (last _).
Qed.

Lemma dedup_keys_NoDup l : NoDup (Js.Map_keys (Js.Map_new (url_entries l))).
Proof. apply (Map_extend_NoDup [] (url_entries l)). apply NoDup_nil_2. Qed.

Lemma last_with_url_Some u l c : last_with_url u l = Some c → url c = u ∧ c ∈ l.
Proof.
  unfold last_with_url. intros H.
  assert (Hin : c ∈ filter (λ c, url c = u) l).
  { apply last_Some in H as [l' ->]. apply elem_of_app. right. left. }
  by apply list_elem_of_filter in Hin.
Qed.

(** Every binding of the map is keyed by the URL of its value. *)
Lemma dedup_entry_key l k c :
  (k, c) ∈ Js.Map_new (url_entries l) → k = url c ∧ last_with_url k l = Some c.
Proof.
  intros Hin. apply Map_elem_get in Hin; [|apply dedup_keys_NoDup].
  rewrite dedup_lookup in Hin. split; [|done].
  by apply last_with_url_Some in Hin as [-> _].
Qed.

Lemma dedup_entries_self l :
  url_entries (uniqueCitations l) = Js.Map_new (url_entries l).
Proof.
  unfold uniqueCitations, Js.Map_values, url_entries at 1.
  rewrite <- list_fmap_compose.
  transitivity (id <$> Js.Map_new (url_entries l)); [|apply list_fmap_id].
  apply list_fmap_ext. intros i [k c] Hin.
  apply list_elem_of_lookup_2 in Hin. apply dedup_entry_key in Hin as [-> _]. done.
Qed.

Lemma uniqueCitations_elem l c :
  c ∈ uniqueCitations l ↔ last_with_url (url c) l = Some c.
Proof.
  unfold uniqueCitations, Js.Map_values. split.
  - intros Hin. apply list_elem_of_fmap in Hin as ([k c'] & -> & Hin).
    simpl. apply dedup_entry_key in Hin as [-> H]. done.
  - intros H. rewrite <- dedup_lookup in H. apply Map_get_Some_elem in H.
    change c with ((url c, c).2). by apply list_elem_of_fmap_2.
Qed.

Lemma uniqueCitations_urls l :
  url <$> uniqueCitations l = Js.Map_keys (Js.Map_new (url_entries l)).
Proof.
  rewrite <- dedup_entries_self. unfold Js.Map_keys, url_entries.
  rewrite <- list_fmap_compose. done.
Qed.

End Dedup.

(** C3. URL-keyed deduplication of citations: applying it twice equals
    applying it once; the URLs of the output are pairwise distinct and are
    exactly the URLs of the input (compared as strings, hence with case);
    and a citation is in the output exactly when it is the last citation of
    the input carrying its URL. *)
Theorem uniqueCitations_idempotent_last_wins (l : list Citation) :
  uniqueCitations (uniqueCitations l) = uniqueCitations l
  ∧ NoDup (url <$> uniqueCitations l)
  ∧ (∀ u, u ∈ url <$> uniqueCitations l ↔ u ∈ url <$> l)
  ∧ (∀ c, c ∈ uniqueCitations l ↔ last_with_url (url c) l = Some c).
Proof.
  split_and!.
  - unfold uniqueCitations at 1. fold (url_entries (uniqueCitations l)).
    rewrite dedup_entries_self, Map_new_distinct by apply dedup_keys_NoDup. done.
  - rewrite uniqueCitations_urls. apply dedup_keys_NoDup.
  - intros u. rewrite uniqueCitations_urls.
    unfold Js.Map_new. fold (Js.Map_extend [] (url_entries l)).
    rewrite Map_extend_keys_elem. unfold url_entries. rewrite <- list_fmap_compose.
    simpl. rewrite elem_of_nil. naive_solver.
  - apply uniqueCitations_elem.
Qed.

(** The scenario of the specification: two citations with the same URL. *)
Example uniqueCitations_same_url :
  uniqueCitations [mkCitation "A" "https://x.com" None; mkCitation "B" "https://x.com" None]
  = [mkCitation "B" "https://x.com" None].
Proof. reflexivity. Qed.

(** The position kept is the one of the first occurrence. *)
Example uniqueCitations_order :
  uniqueCitations [mkCitation "A" "u" None; mkCitation "C" "v" None; mkCitation "B" "u" None]
  = [mkCitation "B" "u" None; mkCitation "C" "v" None].
Proof. reflexivity. Qed.

(** URLs differing by case are distinct. *)
Example uniqueCitations_case :
  uniqueCitations [mkCitation "A" "https://x.com" None; mkCitation "B" "https://X.com" None]
  = [mkCitation "A" "https://x.com" None; mkCitation "B" "https://X.com" None].
Proof. reflexivity. Qed.

(** * The similarity query *)

Lemma Qltb_lt (x y : Q) : Qltb x y = true ↔ (x < y)%Q.
Proof.
  unfold Qltb. rewrite negb_true_iff. split.
  - intros H. apply Qnot_le_lt. intros Hle. apply Qle_bool_iff in Hle. congruence.
  - intros H. destruct (Qle_bool y x) eqn:E; [|done].
    apply Qle_bool_iff in E. exfalso. by apply (Qlt_not_le x y).
Qed.

Section SqlFacts.
Variable dist : Embedding → Embedding → Q.
Variables (q : Embedding) (threshold : Q) (count : nat) (run : option string).

Lemma insert_by_distance_elem x y l :
  y ∈ insert_by_distance x l ↔ y = x ∨ y ∈ l.
Proof.
  induction l as [|z l IH]; simpl.
  - rewrite list_elem_of_singleton, elem_of_nil. naive_solver.
  - destruct (Qle_bool x.1 z.1).
    + by rewrite elem_of_cons.
    + rewrite !elem_of_cons, IH. naive_solver.
Qed.

Lemma insert_by_distance_sorted x l :
  StronglySorted by_distance l → StronglySorted by_distance (insert_by_distance x l).
Proof.
  induction 1 as [|z l Hl IH Hz]; simpl.
  - repeat constructor.
  - destruct (Qle_bool x.1 z.1) eqn:E.
    + apply Qle_bool_iff in E. constructor; [by constructor|].
      constructor; [exact E|].
      eapply Forall_impl; [exact Hz|]. intros y Hy. unfold by_distance in *.
      by apply Qle_trans with (z.1).
    + assert (Hzx : (z.1 <= x.1)%Q).
      { apply Qlt_le_weak, Qnot_le_lt. intros Hle.
        apply Qle_bool_iff in Hle. congruence. }
      constructor; [exact IH|].
      apply Forall_forall. intros y Hy.
      apply insert_by_distance_elem in Hy as [->|Hy]; [exact Hzx|].
      by apply (proj1 (Forall_forall _ _) Hz).
Qed.

Lemma order_by_distance_elem y l : y ∈ order_by_distance l ↔ y ∈ l.
Proof.
  induction l as [|x l IH]; simpl; [done|].
  rewrite insert_by_distance_elem, elem_of_cons, IH. done.
Qed.

Lemma order_by_distance_sorted l : StronglySorted by_distance (order_by_distance l).
Proof.
  induction l as [|x l IH]; simpl; [constructor|].
  by apply insert_by_distance_sorted.
Qed.

Lemma StronglySorted_take {A} (R : relation A) n (l : list A) :
  StronglySorted R l → StronglySorted R (take n l).
Proof.
  intros H. rewrite <- (take_drop n l) in H. by apply StronglySorted_app_1_l in H.
Qed.

(** What it means for a row to be selected. *)
Lemma match_selected_elem d r table :
  (d, r) ∈ match_selected dist q threshold count run table →
  r ∈ table
  ∧ (∃ e, embedding r = Some e ∧ d = dist e q)
  ∧ (threshold < 1 - d)%Q
  ∧ (∀ id, run = Some id → run_id r = id).
Proof.
  unfold match_selected. intros H.
  apply elem_of_take in H as (i & H & _). apply list_elem_of_lookup_2 in H.
  apply order_by_distance_elem, list_elem_of_In, filter_In in H as [H Hw].
  apply list_elem_of_In, list_elem_of_omap in H as (r' & Hr' & Hd).
  unfold with_distance in Hd. destruct (embedding r') as [e|] eqn:He; [|done].
  simpl in Hd. injection Hd as <- ->.
  unfold match_where in Hw. apply andb_true_iff in Hw as [Hrun Hthr]. simpl in *.
  split_and!; [done|by eexists|by apply Qltb_lt|].
  intros id ->. by apply bool_decide_eq_true in Hrun.
Qed.

Lemma match_selected_sorted table :
  StronglySorted by_distance (match_selected dist q threshold count run table).
Proof. apply StronglySorted_take, order_by_distance_sorted. Qed.

Lemma match_selected_length table :
  (length (match_selected dist q threshold count run table) ≤ count)%nat.
Proof. unfold match_selected. rewrite length_take. lia. Qed.

End SqlFacts.

(** * What the functions leave unchanged *)

#[global] Instance runs_kept_preorder : PreOrder runs_kept.
Proof.
  split.
  - intros w. by split.
  - intros w1 w2 w3 [H1 H1'] [H2 H2']. split; [congruence|].
    intros id. by rewrite H2', H1'.
Qed.

#[global] Instance insights_added_preorder P : PreOrder (insights_added P).
Proof.
  split.
  - intros w. exists []. by rewrite app_nil_r.
  - intros w1 w2 w3 (n1 & H1 & F1) (n2 & H2 & F2). exists (n1 ++ n2).
    split; [by rewrite H2, H1, app_assoc|by apply Forall_app].
Qed.

Lemma run_history_log id w c :
  run_history id (log_call c w).2 = write_run id (run_history id w) c.
Proof. unfold run_history. simpl. by rewrite foldl_app. Qed.

Lemma runs_kept_log c : not_a_run_write c → preserves runs_kept (log_call c).
Proof.
  intros Hc w. split; [done|]. intros id. by rewrite run_history_log, Hc.
Qed.

Lemma runs_kept_set_insights rows : preserves runs_kept (set_insights rows).
Proof. intros w. by split. Qed.

Lemma insights_added_log P c : preserves (insights_added P) (log_call c).
Proof. intros w. exists []. simpl. by rewrite app_nil_r. Qed.

Lemma insights_added_set_runs P runs : preserves (insights_added P) (set_runs runs).
Proof. intros w. exists []. simpl. by rewrite app_nil_r. Qed.

Create HintDb frame discriminated.

#[global] Hint Resolve preserves_ret preserves_throw preserves_settle
  preserves_get_world runs_kept_set_insights insights_added_log
  insights_added_set_runs : frame.
#[global] Hint Extern 1 (preserves runs_kept (log_call _)) =>
  apply runs_kept_log; intros ? ?; reflexivity : frame.
#[global] Hint Extern 0 (PreOrder _) => apply _ : frame.

(** Decompose a computation along its binds, handlers and case analyses. *)
Ltac frame_step :=
  lazymatch goal with
  | |- preserves _ (mbind _ _) => apply preserves_bind; [apply _| |intros ?]
  | |- preserves _ (try_catch _ _) => apply preserves_try_catch; [apply _| |intros ?]
  | |- preserves _ (match ?x with _ => _ end) => destruct x
  | |- preserves _ _ => solve [eauto with frame]
  end.

Ltac frame := repeat frame_step.

Section Frame.
Context (env : Env).

Lemma embeddings_create_runs_kept input : preserves runs_kept (embeddings_create env input).
Proof. unfold embeddings_create. frame. Qed.

Lemma chat_runs_kept system user :
  preserves runs_kept (chat_completions_create env system user).
Proof. unfold chat_completions_create. frame. Qed.

Lemma insights_insert_runs_kept records : preserves runs_kept (insights_insert env records).
Proof. unfold insights_insert. frame. Qed.

Lemma insights_select_runs_kept id limit : preserves runs_kept (insights_select env id limit).
Proof. unfold insights_select. frame. Qed.

Lemma rpc_runs_kept query threshold count id :
  preserves runs_kept (rpc_match_abm_insights env query threshold count id).
Proof. unfold rpc_match_abm_insights. frame. Qed.

Hint Resolve embeddings_create_runs_kept chat_runs_kept insights_insert_runs_kept
  insights_select_runs_kept rpc_runs_kept : frame.

Lemma createAndStoreEmbeddings_runs_kept runId texts citations :
  preserves runs_kept (createAndStoreEmbeddings env runId texts citations).
Proof. unfold createAndStoreEmbeddings. frame. Qed.

Lemma similaritySearch_runs_kept query runId limit :
  preserves runs_kept (similaritySearch env query runId limit).
Proof. unfold similaritySearch, similaritySearch_body. frame. Qed.

Lemma query_embedding_runs_kept companyName :
  preserves runs_kept (query_embedding env companyName).
Proof. unfold query_embedding. frame. Qed.

Lemma ensure_citations_runs_kept parsed unique :
  preserves runs_kept (ensure_citations parsed unique).
Proof. unfold ensure_citations. frame. Qed.

Hint Resolve createAndStoreEmbeddings_runs_kept similaritySearch_runs_kept
  query_embedding_runs_kept ensure_citations_runs_kept : frame.

Lemma generate_runs_kept companyName scrapedData chunks :
  preserves runs_kept (generate env companyName scrapedData chunks).
Proof. unfold generate. frame. Qed.

Hint Resolve generate_runs_kept : frame.

Lemma runRAGPipeline_runs_kept runId companyName scrapedData citations :
  preserves runs_kept (runRAGPipeline env runId companyName scrapedData citations).
Proof. unfold runRAGPipeline, pipeline_body. frame. Qed.

Lemma scrapeCompany_runs_kept domain : preserves runs_kept (scrapeCompany env domain).
Proof. unfold scrapeCompany. frame. Qed.

Lemma fetchCitedResearch_runs_kept company :
  preserves runs_kept (fetchCitedResearch env company).
Proof. unfold fetchCitedResearch. frame. Qed.

Hint Resolve fetchCitedResearch_runs_kept : frame.

Lemma fetchExpressResearch_runs_kept company :
  preserves runs_kept (fetchExpressResearch env company).
Proof. unfold fetchExpressResearch. frame. Qed.

End Frame.

(** * Chunk assembly and the persisted records *)

Section Chunks.
Implicit Types (sd : ScrapedCompanyData) (ys : list Citation).

Lemma push_chunk_zip (chunks : list (string * Citation)) t c :
  push_chunk (chunks.*1, chunks.*2) t c = ((chunks ++ [(t, c)]).*1, (chunks ++ [(t, c)]).*2).
Proof. unfold push_chunk. simpl. by rewrite !fmap_app. Qed.

Lemma push_citations (chunks : list (string * Citation)) ys :
  foldl (λ arrays citation, push_chunk arrays (text citation) citation)
        (chunks.*1, chunks.*2) ys
  = ((chunks ++ citation_chunks ys).*1, (chunks ++ citation_chunks ys).*2).
Proof.
  revert chunks. induction ys as [|c ys IH]; intros chunks; simpl.
  - by rewrite app_nil_r.
  - rewrite push_chunk_zip, IH. unfold citation_chunks. simpl.
    by rewrite <- !app_assoc.
Qed.

Lemma truthy_decide (s : string) : Js.truthy s = if decide (s = "") then false else true.
Proof. destruct s; by case_decide. Qed.

(** The two arrays of [runRAGPipeline] hold the chunks in the stated order. *)
Lemma assemble_chunks_in_order sd ys :
  assemble_chunks sd ys = ((chunks_in_order sd ys).*1, (chunks_in_order sd ys).*2).
Proof.
  unfold assemble_chunks, chunks_in_order, profile_chunk, about_chunk, profile_citation.
  rewrite truthy_decide.
  destruct (metadata sd ≫= about) as [a|]; [rewrite (truthy_decide a)|];
    repeat case_decide;
    lazymatch goal with
    | |- foldl _ ?arrays _ = (( ?chunks ++ ?more ++ _ ).*1, _) =>
        change arrays with ((chunks ++ more).*1, (chunks ++ more).*2);
        rewrite push_citations, <- ?app_assoc; reflexivity
    end.
Qed.

Lemma assemble_chunks_lengths sd ys :
  length (assemble_chunks sd ys).1 = length (assemble_chunks sd ys).2.
Proof. rewrite assemble_chunks_in_order. simpl. by rewrite !length_fmap. Qed.

Lemma build_records_imap runId texts embeddings citations :
  build_records runId texts embeddings citations
  = imap (record_at runId embeddings citations) texts.
Proof. reflexivity. Qed.

Lemma build_records_lookup runId texts embeddings citations i :
  build_records runId texts embeddings citations !! i
  = record_at runId embeddings citations i <$> texts !! i.
Proof. rewrite build_records_imap. apply list_lookup_imap. Qed.

Lemma build_records_one_citation runId texts embeddings citations :
  length texts = length citations →
  Forall one_citation (build_records runId texts embeddings citations).
Proof.
  intros Hlen. apply Forall_lookup. intros i r Hr.
  rewrite build_records_lookup in Hr.
  destruct (texts !! i) as [t|] eqn:Ht; [|done]. simpl in Hr. injection Hr as <-.
  apply lookup_lt_Some in Ht. rewrite Hlen in Ht.
  apply lookup_lt_is_Some_2 in Ht as [c Hc].
  exists c. unfold record_at. simpl. by rewrite Hc.
Qed.

End Chunks.

(** * The pipeline, stage by stage *)

Section Pipeline.
Context (env : Env).

Lemma embeddings_create_run input w :
  embeddings_create env input w
  = (openai_embeddings env w input, logged (CallEmbeddings input) w).
Proof. reflexivity. Qed.

Lemma chat_completions_create_run system user w :
  chat_completions_create env system user w
  = (openai_chat env w system user, logged (CallChat system user) w).
Proof. reflexivity. Qed.

Lemma insights_insert_run records w :
  insights_insert env records w
  = match db_insights_insert env w records with
    | DbDone => (Normal (mkPg None None), stored records (logged (CallInsightsInsert records) w))
    | DbError e => (Normal (mkPg None (Some e)), logged (CallInsightsInsert records) w)
    | DbRaise e => (Throw (Rejected e), logged (CallInsightsInsert records) w)
    end.
Proof.
  unfold insights_insert. rewrite bind_run. simpl.
  by destruct (db_insights_insert env _ _).
Qed.

(** [createAndStoreEmbeddings] step by step. *)
Lemma createAndStoreEmbeddings_run runId texts citations w :
  let w1 := logged (CallEmbeddings (EmbMany texts)) w in
  createAndStoreEmbeddings env runId texts citations w
  = match openai_embeddings env w (EmbMany texts) with
    | Throw e => (Throw e, w1)
    | Normal embeddings =>
        let records := build_records runId texts embeddings citations in
        let w2 := logged (CallInsightsInsert records) w1 in
        match db_insights_insert env w1 records with
        | DbDone => (Normal (), stored records w2)
        | DbError e | DbRaise e => (Throw (Rejected e), w2)
        end
    end.
Proof.
  intros w1. unfold createAndStoreEmbeddings, try_catch.
  rewrite bind_run, embeddings_create_run. fold w1.
  destruct (openai_embeddings env w (EmbMany texts)) as [embeddings|e]; [|done].
  rewrite bind_run, insights_insert_run.
  cbv zeta. by destruct (db_insights_insert env _ _).
Qed.

Lemma createAndStoreEmbeddings_normal runId texts citations w w' :
  createAndStoreEmbeddings env runId texts citations w = (Normal (), w') →
  ∃ embeddings,
    openai_embeddings env w (EmbMany texts) = Normal embeddings
    ∧ abm_insights w' = abm_insights w ++ build_records runId texts embeddings citations.
Proof.
  rewrite createAndStoreEmbeddings_run.
  destruct (openai_embeddings env w (EmbMany texts)) as [embeddings|e]; [|done].
  cbv zeta. destruct (db_insights_insert env _ _); simpl; [|done..].
  intros [= <-]. by exists embeddings.
Qed.

Lemma insights_insert_added P records :
  Forall P records → preserves (insights_added P) (insights_insert env records).
Proof.
  intros HP w. rewrite insights_insert_run.
  destruct (db_insights_insert env _ _); simpl; [by exists records|exists []..];
    by rewrite app_nil_r.
Qed.

Lemma createAndStoreEmbeddings_added runId texts citations :
  length texts = length citations →
  preserves (insights_added one_citation)
    (createAndStoreEmbeddings env runId texts citations).
Proof.
  intros Hlen. unfold createAndStoreEmbeddings, embeddings_create. frame.
  by apply insights_insert_added, build_records_one_citation.
Qed.

(** The other stages add no row. *)
Lemma query_embedding_added P companyName :
  preserves (insights_added P) (query_embedding env companyName).
Proof. unfold query_embedding, embeddings_create. frame. Qed.

Lemma similaritySearch_added P query runId limit :
  preserves (insights_added P) (similaritySearch env query runId limit).
Proof.
  unfold similaritySearch, similaritySearch_body, rpc_match_abm_insights, insights_select.
  frame.
Qed.

Lemma generate_added P companyName scrapedData chunks :
  preserves (insights_added P) (generate env companyName scrapedData chunks).
Proof. unfold generate, chat_completions_create, ensure_citations. frame. Qed.

Lemma runRAGPipeline_added runId companyName sd ys :
  preserves (insights_added one_citation) (runRAGPipeline env runId companyName sd ys).
Proof.
  unfold runRAGPipeline, pipeline_body.
  pose proof (assemble_chunks_lengths sd ys) as Hlen.
  destruct (assemble_chunks sd ys) as [texts cits]. simpl in Hlen.
  apply preserves_try_catch; [apply _| |intros ?; frame].
  destruct (length texts =? 0)%nat; [frame|].
  apply preserves_bind; [apply _|by apply createAndStoreEmbeddings_added|intros _].
  apply preserves_bind; [apply _|apply query_embedding_added|intros q].
  apply preserves_bind; [apply _|apply similaritySearch_added|intros chunks].
  apply generate_added.
Qed.

Lemma query_embedding_run companyName w :
  query_embedding env companyName w
  = (match openai_embeddings env w (EmbOne (ABM_PROMPTS.generateRAGContext companyName)) with
     | Normal [] =>
         Throw (TypeError "Cannot read properties of undefined (reading 'embedding')")
     | Normal (q :: _) => Normal q
     | Throw e => Throw e
     end,
     logged (CallEmbeddings (EmbOne (ABM_PROMPTS.generateRAGContext companyName))) w).
Proof.
  unfold query_embedding. rewrite bind_run, embeddings_create_run.
  by destruct (openai_embeddings env w _) as [[|q qs]|e].
Qed.

(** With nothing to embed the body raises at once: no service is called. *)
Lemma pipeline_body_no_chunks runId companyName sd ys w :
  chunks_in_order sd ys = [] →
  pipeline_body env runId companyName sd ys w = (Throw no_chunks_error, w).
Proof.
  intros H. unfold pipeline_body. rewrite assemble_chunks_in_order, H. reflexivity.
Qed.

End Pipeline.

(** * The similarity search *)

Section Similarity.
Context (env : Env).

Lemma rpc_match_abm_insights_run query threshold count id w :
  rpc_match_abm_insights env query threshold count id w
  = let w1 := logged (CallRpcMatch query threshold count id) w in
    match db_rpc_match env w with
    | DbDone =>
        (Normal (mkPg (Some (match_abm_insights (cosine_distance env) query threshold
                               count (Some id) (abm_insights w))) None), w1)
    | DbError e => (Normal (mkPg None (Some e)), w1)
    | DbRaise e => (Throw (Rejected e), w1)
    end.
Proof.
  unfold rpc_match_abm_insights. rewrite bind_run. simpl.
  by destruct (db_rpc_match env w).
Qed.

Lemma insights_select_run id limit w :
  insights_select env id (Some limit) w
  = let w1 := logged (CallInsightsSelect id (Some limit)) w in
    match db_insights_select env w id with
    | DbDone => (Normal (mkPg (Some (first_rows id limit w)) None), w1)
    | DbError e => (Normal (mkPg None (Some e)), w1)
    | DbRaise e => (Throw (Rejected e), w1)
    end.
Proof.
  unfold insights_select. rewrite bind_run. simpl.
  by destruct (db_insights_select env w id).
Qed.

(** The [try] block of [similaritySearch], by the answers of the store. *)
Lemma similaritySearch_body_run query runId limit w :
  similaritySearch_body env query runId limit w
  = let w1 := logged (CallRpcMatch query match_threshold_used limit runId) w in
    let w2 := logged (CallInsightsSelect runId (Some limit)) w1 in
    match db_rpc_match env w with
    | DbDone =>
        (Normal ((λ row, chunk_of_item (match_item row))
                   <$> match_abm_insights (cosine_distance env) query match_threshold_used
                         limit (Some runId) (abm_insights w)), w1)
    | DbRaise e => (Throw (Rejected e), w1)
    | DbError _ =>
        match db_insights_select env w1 runId with
        | DbDone =>
            (Normal ((λ row, chunk_of_item (item_of_record row)) <$> first_rows runId limit w),
             w2)
        | DbError e | DbRaise e => (Throw (Rejected e), w2)
        end
    end.
Proof.
  unfold similaritySearch_body. rewrite bind_run, rpc_match_abm_insights_run. cbv zeta.
  destruct (db_rpc_match env w); simpl; [done| |done].
  rewrite bind_run, insights_select_run. cbv zeta.
  by destruct (db_insights_select env _ runId).
Qed.

Lemma similaritySearch_total query runId limit : total (similaritySearch env query runId limit).
Proof. apply total_try_catch. intros e. apply total_ret. Qed.

Lemma ensure_citations_state parsed unique w : (ensure_citations parsed unique w).2 = w.
Proof.
  unfold ensure_citations. destruct parsed; simpl; try done;
    repeat case_match; done.
Qed.

(** The generation step makes one call: the chat completion. *)
Lemma generate_calls companyName sd chunks w :
  calls (generate env companyName sd chunks w).2
  = calls w ++ [CallChat system_message
                  (generation_prompt companyName sd (context_text chunks)
                     (uniqueCitations (Js.flatMap chunk_citations chunks)))].
Proof.
  unfold generate. rewrite bind_run, chat_completions_create_run.
  destruct (openai_chat env w _ _) as [choices|e]; [|done].
  destruct (JSON_parse env _); [|done].
  by rewrite ensure_citations_state.
Qed.

End Similarity.

(** * What the pipeline returns *)

Lemma bind_normal_inv {A B} (m : M A) (k : A → M B) w b w' :
  (m ≫= k) w = (Normal b, w') → ∃ a w1, m w = (Normal a, w1) ∧ k a w1 = (Normal b, w').
Proof.
  rewrite bind_run. destruct (m w) as [[a|e] w1]; [|done]. intros H. by exists a, w1.
Qed.

Lemma throws_bind_l {A B} (m : M A) (k : A → M B) w : throws m w → throws (m ≫= k) w.
Proof. intros (e & w' & H). exists e, w'. by apply bind_throw. Qed.

Lemma throws_bind_r {A B} (m : M A) (k : A → M B) w :
  (∀ a w1, throws (k a) w1) → throws (m ≫= k) w.
Proof.
  intros Hk. unfold throws. rewrite bind_run.
  destruct (m w) as [[a|e] w1]; [apply Hk|by eexists _, _].
Qed.

Lemma throws_throw {A} e w : throws (@throw A e) w.
Proof. by exists e, w. Qed.

Lemma has_all_fields_fallback a : has_all_insight_fields (ABMInsights_json a) = true.
Proof. reflexivity. Qed.

Lemma has_field_set v k x v' :
  Json.set v k x = Some v' →
  Json.has_field v' k = true ∧ ∀ k', k' ≠ k → Json.has_field v' k' = Json.has_field v k'.
Proof.
  unfold Json.set, Json.has_field, Json.get.
  destruct v; intros [= <-]; (split; [by rewrite Map_get_set_eq|]);
    intros k' Hk'; by rewrite Map_get_set_ne.
Qed.

Lemma has_field_truthy v k : Json.truthy (Json.get v k) = true → Json.has_field v k = true.
Proof. unfold Json.has_field. by destruct (Json.get v k). Qed.

Section Results.
Context (env : Env).

(** The backfill leaves the state alone; a value it returns has the field
    [citations] and otherwise the fields of the parsed answer. *)
Lemma ensure_citations_result parsed unique w v w' :
  ensure_citations parsed unique w = (Normal v, w') →
  w' = w
  ∧ Json.has_field v "citations" = true
  ∧ ∀ k, k ≠ "citations" → Json.has_field v k = Json.has_field parsed k.
Proof.
  intros H. pose proof (ensure_citations_state parsed unique w) as Hw.
  rewrite H in Hw. simpl in Hw. split; [done|]. clear Hw.
  unfold ensure_citations in H.
  assert (Hcases :
    (if negb (Json.truthy (Json.get parsed "citations"))
        || Json.length_is_zero (default JNull (Json.get parsed "citations"))
     then match Json.set parsed "citations" (Json.strs (url <$> unique)) with
          | Some parsed' => mret parsed'
          | None => throw (TypeError "Cannot create property 'citations'")
          end
     else mret parsed) w = (Normal v, w')).
  { by destruct parsed. }
  clear H.
  destruct (negb _ || _) eqn:Hc.
  - destruct (Json.set parsed _ _) as [parsed'|] eqn:Hset; [|done].
    injection Hcases as <- _. by apply has_field_set in Hset.
  - injection Hcases as <- _. apply orb_false_iff in Hc as [Hc _].
    apply negb_false_iff in Hc. split; [by apply has_field_truthy|done].
Qed.

(** The generation step, by the answers of the model and of the parser. *)
Lemma generate_run companyName sd chunks w :
  generate env companyName sd chunks w
  = let w' := logged (CallChat system_message (prompt_for companyName sd chunks)) w in
    match openai_chat env w system_message (prompt_for companyName sd chunks) with
    | Throw e => (Throw e, w')
    | Normal choices =>
        match JSON_parse env (response_text choices) with
        | None => (Throw (SyntaxError "Unexpected token in JSON"), w')
        | Some parsed =>
            ensure_citations parsed (uniqueCitations (Js.flatMap chunk_citations chunks)) w'
        end
    end.
Proof.
  unfold generate, prompt_for. rewrite bind_run, chat_completions_create_run. cbv zeta.
  destruct (openai_chat env w _ _) as [choices|e]; [|done].
  by destruct (JSON_parse env _).
Qed.

(** The backfill does not look at the state. *)
Lemma ensure_citations_any_state parsed unique w w' :
  (ensure_citations parsed unique w).1 = (ensure_citations parsed unique w').1.
Proof.
  unfold ensure_citations. destruct parsed; try done; repeat case_match; done.
Qed.

(** It raises on [null] and on the primitives, and on nothing else. *)
Lemma ensure_citations_primitive parsed unique w :
  Json.is_object parsed = false → ∃ e, ensure_citations parsed unique w = (Throw e, w).
Proof. destruct parsed; try done; intros _; by eexists. Qed.

Lemma ensure_citations_object parsed unique w :
  Json.is_object parsed = true → ∃ ins, ensure_citations parsed unique w = (Normal ins, w).
Proof.
  destruct parsed; try done; intros _; unfold ensure_citations;
    destruct (negb _ || _); simpl; by eexists.
Qed.

Lemma ensure_citations_fields parsed unique w ins :
  (ensure_citations parsed unique w).1 = Normal ins →
  Json.has_field ins "citations" = true
  ∧ has_all_insight_fields ins = has_other_insight_fields parsed.
Proof.
  intros H. destruct (ensure_citations parsed unique w) as [c w'] eqn:Hrun.
  simpl in H. subst c. apply ensure_citations_result in Hrun as (_ & Hc & Hk).
  split; [done|].
  unfold has_all_insight_fields, has_other_insight_fields, ABMInsights_fields. simpl.
  rewrite Hc, !Hk by done. by rewrite !andb_true_r.
Qed.

Section Run.
Context (runId companyName : string) (sd : ScrapedCompanyData) (ys : list Citation).
Context (w : World).

(** Once the records are stored the run goes on with the query. *)
Lemma pipeline_body_persisted embeddings :
  persisted env runId sd ys w embeddings →
  pipeline_body env runId companyName sd ys w
  = (query_embedding env companyName
       ≫= λ q, similaritySearch env q runId 5 ≫= generate env companyName sd)
      (persisted_state runId sd ys w embeddings).
Proof.
  intros (Hsome & Hemb & Hins).
  unfold pipeline_body, persisted_state, embedded_state, chunk_records in *.
  destruct (assemble_chunks sd ys) as [texts cits]. simpl in *.
  destruct texts as [|t texts]; [done|]. simpl.
  rewrite bind_run, createAndStoreEmbeddings_run. cbv zeta. by rewrite Hemb, Hins.
Qed.

(** Once the chunks are retrieved the run goes on with the generation. *)
Lemma pipeline_body_retrieved chunks w4 :
  retrieved env runId companyName sd ys w chunks w4 →
  pipeline_body env runId companyName sd ys w = generate env companyName sd chunks w4.
Proof.
  intros (embeddings & q & (Hstored & qs & Hq) & Hsearch).
  rewrite (pipeline_body_persisted embeddings Hstored).
  rewrite bind_run, query_embedding_run, Hq. fold (queried_state runId companyName sd ys w embeddings).
  by rewrite bind_run, Hsearch.
Qed.

(** Each failure of a stage makes the [try] block raise. *)
Lemma stage_failure_throws :
  stage_failure env runId companyName sd ys w →
  throws (pipeline_body env runId companyName sd ys) w.
Proof.
  intros [Hnone|e Hsome Hemb|embeddings Hsome Hemb Hins|embeddings Hstored Hq
          |chunks w4 e Hret Hchat|chunks w4 choices Hret Hchat Hparse
          |chunks w4 choices parsed Hret Hchat Hparse Hprim].
  - unfold pipeline_body. destruct (assemble_chunks sd ys) as [texts cits].
    simpl in Hnone. subst texts. apply throws_throw.
  - unfold pipeline_body. destruct (assemble_chunks sd ys) as [texts cits].
    simpl in *. destruct texts as [|t texts]; [done|]. simpl.
    apply throws_bind_l. unfold throws.
    rewrite createAndStoreEmbeddings_run. cbv zeta. rewrite Hemb. by eexists _, _.
  - unfold pipeline_body, embedded_state, chunk_records in *.
    destruct (assemble_chunks sd ys) as [texts cits].
    simpl in *. destruct texts as [|t texts]; [done|]. simpl.
    apply throws_bind_l. unfold throws.
    rewrite createAndStoreEmbeddings_run. cbv zeta. rewrite Hemb.
    destruct (db_insights_insert env _ _); [done|by eexists _, _..].
  - unfold throws. rewrite (pipeline_body_persisted embeddings Hstored).
    rewrite bind_run, query_embedding_run.
    destruct (openai_embeddings env _ _) as [[|q qs]|e] eqn:Hemb; [by eexists _, _| |by eexists _, _].
    by destruct (Hq q qs).
  - unfold throws. rewrite (pipeline_body_retrieved chunks w4 Hret), generate_run.
    cbv zeta. rewrite Hchat. by eexists _, _.
  - unfold throws. rewrite (pipeline_body_retrieved chunks w4 Hret), generate_run.
    cbv zeta. rewrite Hchat, Hparse. by eexists _, _.
  - unfold throws. rewrite (pipeline_body_retrieved chunks w4 Hret), generate_run.
    cbv zeta. rewrite Hchat, Hparse.
    destruct (ensure_citations_primitive parsed
                (uniqueCitations (Js.flatMap chunk_citations chunks))
                (logged (CallChat system_message (prompt_for companyName sd chunks)) w4)
                Hprim) as [e ->].
    by eexists _, _.
Qed.

(** The [try] block raises only when a stage fails, and returns only what
    the backfill makes of the answer of the model. *)
Lemma pipeline_body_cases :
  match (pipeline_body env runId companyName sd ys w).1 with
  | Throw _ => stage_failure env runId companyName sd ys w
  | Normal ins => ∃ parsed, answered env runId companyName sd ys w parsed ins
  end.
Proof.
  destruct (decide ((assemble_chunks sd ys).1 = [])) as [Hnone|Hsome].
  { pose proof (stage_failure_throws (no_chunks env runId companyName sd ys w Hnone)) as (e & w' & ->).
    by apply no_chunks. }
  destruct (openai_embeddings env w (EmbMany (assemble_chunks sd ys).1))
    as [embeddings|e] eqn:Hemb.
  2:{ pose proof (embedding_fails env runId companyName sd ys w e Hsome Hemb) as Hfail.
      by pose proof (stage_failure_throws Hfail) as (e' & w' & ->). }
  destruct (db_insights_insert env (embedded_state sd ys w)
              (chunk_records runId sd ys embeddings)) as [|e|e] eqn:Hins.
  2,3: assert (Hfail : stage_failure env runId companyName sd ys w)
         by (apply (persistence_fails env runId companyName sd ys w embeddings Hsome Hemb); congruence);
       by pose proof (stage_failure_throws Hfail) as (e' & w' & ->).
  assert (Hstored : persisted env runId sd ys w embeddings) by done.
  destruct (openai_embeddings env (persisted_state runId sd ys w embeddings)
              (EmbOne (ABM_PROMPTS.generateRAGContext companyName)))
    as [[|q qs]|e] eqn:Hq.
  1,3: assert (Hfail : stage_failure env runId companyName sd ys w)
         by (apply (query_embedding_fails env runId companyName sd ys w embeddings Hstored);
             intros ? ?; congruence);
       by pose proof (stage_failure_throws Hfail) as (e' & w' & ->).
  destruct (total_run _ (queried_state runId companyName sd ys w embeddings)
              (similaritySearch_total env q runId 5)) as (chunks & w4 & Hsearch).
  assert (Hret : retrieved env runId companyName sd ys w chunks w4).
  { exists embeddings, q. split; [|done]. split; [done|by exists qs]. }
  destruct (openai_chat env w4 system_message (prompt_for companyName sd chunks))
    as [choices|e] eqn:Hchat.
  2:{ pose proof (generation_fails env runId companyName sd ys w chunks w4 e Hret Hchat) as Hfail.
      by pose proof (stage_failure_throws Hfail) as (e' & w' & ->). }
  destruct (JSON_parse env (response_text choices)) as [parsed|] eqn:Hparse.
  2:{ pose proof (parse_fails env runId companyName sd ys w chunks w4 choices Hret Hchat Hparse) as Hfail.
      by pose proof (stage_failure_throws Hfail) as (e' & w' & ->). }
  destruct (Json.is_object parsed) eqn:Hobj.
  2:{ pose proof (answer_unusable env runId companyName sd ys w chunks w4 choices parsed Hret Hchat Hparse Hobj)
        as Hfail.
      by pose proof (stage_failure_throws Hfail) as (e' & w' & ->). }
  rewrite (pipeline_body_retrieved chunks w4 Hret), generate_run. cbv zeta.
  rewrite Hchat, Hparse.
  destruct (ensure_citations_object parsed
              (uniqueCitations (Js.flatMap chunk_citations chunks))
              (logged (CallChat system_message (prompt_for companyName sd chunks)) w4)
              Hobj) as [ins Hins'].
  rewrite Hins'. simpl. exists parsed, chunks, w4, choices.
  split_and!; [done..|].
  by rewrite (ensure_citations_any_state _ _ w4
                (logged (CallChat system_message (prompt_for companyName sd chunks)) w4)),
    Hins'.
Qed.


(** [runRAGPipeline] never raises; it returns what the [try] block returns,
    or the fallback artifact when the block raises. *)
Lemma runRAGPipeline_run :
  ∃ ins w',
    runRAGPipeline env runId companyName sd ys w = (Normal ins, w')
    ∧ runs_kept w w'
    ∧ (pipeline_body env runId companyName sd ys w = (Normal ins, w')
       ∨ ins = fallback_json sd ys
         ∧ ∃ e, pipeline_body env runId companyName sd ys w = (Throw e, w'))
    ∧ pipeline_outcome env runId companyName sd ys w ins.
Proof.
  pose proof (runRAGPipeline_runs_kept env runId companyName sd ys w) as Hkept.
  pose proof stage_failure_throws as Hfail.
  pose proof pipeline_body_cases as Hcases.
  unfold runRAGPipeline, try_catch in *.
  destruct (pipeline_body env runId companyName sd ys w) as [[v|e] w'] eqn:Hbody.
  - exists v, w'. split_and!; [done|exact Hkept|by left|].
    right. split; [|exact Hcases].
    intros Hf. destruct (Hfail Hf) as (e & w'' & He). congruence.
  - exists (fallback_json sd ys), w'.
    split_and!; [done|exact Hkept| |by left].
    right. split; [done|by exists e].
Qed.

End Run.

End Results.

(** * The request handlers *)

Section Handlers.
Context (env : Env).

Lemma runs_insert_run row w :
  runs_insert env row w
  = match db_runs_insert env w row with
    | DbCreated id =>
        match abm_runs w !! id with
        | Some _ =>
            (Normal (mkPg None (Some "duplicate key value violates unique constraint")),
             logged (CallRunsInsert row None) w)
        | None => (Normal (mkPg (Some (id, row)) None), after_insert row id w)
        end
    | DbCreateError e => (Normal (mkPg None (Some e)), logged (CallRunsInsert row None) w)
    | DbCreateRaise e => (Throw (Rejected e), logged (CallRunsInsert row None) w)
    end.
Proof.
  unfold runs_insert. rewrite bind_run. simpl.
  destruct (db_runs_insert env w row); [|done..].
  by destruct (abm_runs w !! id).
Qed.

Lemma runs_update_run id u w :
  runs_update env id u w
  = match db_runs_update env w id u with
    | DbDone => (Normal (mkPg None None), after_update id u w)
    | DbError e => (Normal (mkPg None (Some e)), logged (CallRunsUpdate id u false) w)
    | DbRaise e => (Throw (Rejected e), logged (CallRunsUpdate id u false) w)
    end.
Proof.
  unfold runs_update. rewrite bind_run. simpl.
  by destruct (db_runs_update env w id u).
Qed.

Lemma scrapeCompany_total domain : total (scrapeCompany env domain).
Proof. apply total_try_catch. intros e. apply total_ret. Qed.

Lemma fetchCitedResearch_total company : total (fetchCitedResearch env company).
Proof. apply total_try_catch. intros e. apply total_ret. Qed.

Lemma research_total company : total (research env company).
Proof. apply total_try_catch. intros e. apply total_ret. Qed.

Lemma research_runs_kept company : preserves runs_kept (research env company).
Proof.
  unfold research. pose proof fetchExpressResearch_runs_kept.
  pose proof fetchCitedResearch_runs_kept. frame.
Qed.

Lemma notify_run v insights runId w :
  ∃ w', notify env v insights runId w = (Normal (), w') ∧ runs_kept w w'.
Proof.
  assert (Hkept : preserves runs_kept (notify env v insights runId)).
  { unfold notify. frame. }
  assert (Htotal : total (notify env v insights runId)).
  { unfold notify. repeat case_match; try apply total_ret.
    apply total_try_catch. intros e. apply total_ret. }
  destruct (total_run _ w Htotal) as ([] & w' & Hrun).
  exists w'. split; [done|]. specialize (Hkept w). by rewrite Hrun in Hkept.
Qed.

Lemma logged_update_kept id u w : runs_kept w (logged (CallRunsUpdate id u false) w).
Proof. by apply (runs_kept_log (CallRunsUpdate id u false)). Qed.

Lemma logged_insert_kept row w : runs_kept w (logged (CallRunsInsert row None) w).
Proof. by apply (runs_kept_log (CallRunsInsert row None)). Qed.

Lemma run_history_after_update id u w id' :
  run_history id' (after_update id u w)
  = write_run id' (run_history id' w) (CallRunsUpdate id u true).
Proof. apply (run_history_log id' w (CallRunsUpdate id u true)). Qed.

Lemma run_history_after_insert row id w id' :
  run_history id' (after_insert row id w)
  = write_run id' (run_history id' w) (CallRunsInsert row (Some id)).
Proof. apply (run_history_log id' w (CallRunsInsert row (Some id))). Qed.

(** Steps 1 to 3 always reach the store of the result. *)
Lemma process_run_run v id w :
  ∃ sd ys ins ws w0 w1,
    scrapeCompany env (v_domain v) w = (Normal sd, ws)
    ∧ research env (v_company v) ws = (Normal ys, w0)
    ∧ runRAGPipeline env id (v_company v) sd ys w0 = (Normal ins, w1)
    ∧ runs_kept w w1
    ∧ pipeline_outcome env id (v_company v) sd ys w0 ins
    ∧ process_run env v id w = store_and_answer env v id sd ys ins w1.
Proof.
  unfold process_run.
  destruct (total_run _ w (scrapeCompany_total (v_domain v))) as (sd & ws & Hs).
  pose proof (scrapeCompany_runs_kept env (v_domain v) w) as Hs'. rewrite Hs in Hs'.
  destruct (total_run _ ws (research_total (v_company v))) as (ys & w0 & Hr).
  pose proof (research_runs_kept (v_company v) ws) as Hr'. rewrite Hr in Hr'.
  destruct (runRAGPipeline_run env id (v_company v) sd ys w0)
    as (ins & w1 & Hp & Hkept & _ & Hout).
  exists sd, ys, ins, ws, w0, w1. split_and!; [done..| |done|].
  - simpl in *. by do 2 (etrans; [eassumption|]).
  - by rewrite (bind_normal _ _ _ _ _ Hs), (bind_normal _ _ _ _ _ Hr),
      (bind_normal _ _ _ _ _ Hp).
Qed.

(** Steps 4 and 5, by what becomes of the status write. *)
Lemma store_and_answer_run v id sd ys ins w :
  let u := SetCompleted (mkFullResult ins sd (length ys)) in
  let answer := json (BodySuccess id (v_company v) (v_domain v) ins sd (length ys)) in
  match db_runs_update env w id u with
  | DbDone =>
      ∃ w2, store_and_answer env v id sd ys ins w = (Normal answer, w2)
            ∧ runs_kept (after_update id u w) w2
  | DbError _ =>
      ∃ w2, store_and_answer env v id sd ys ins w = (Normal answer, w2) ∧ runs_kept w w2
  | DbRaise e =>
      store_and_answer env v id sd ys ins w
      = (Throw (Rejected e), logged (CallRunsUpdate id u false) w)
  end.
Proof.
  intros u answer. unfold store_and_answer. fold u.
  rewrite bind_run, runs_update_run.
  destruct (db_runs_update env w id u) as [|e|e]; [| |done].
  - destruct (notify_run v ins id (after_update id u w)) as (w2 & Hn & Hk).
    exists w2. by rewrite (bind_normal _ _ _ _ _ Hn).
  - destruct (notify_run v ins id (logged (CallRunsUpdate id u false) w)) as (w2 & Hn & Hk).
    exists w2. rewrite (bind_normal _ _ _ _ _ Hn). split; [done|].
    etrans; [apply logged_update_kept|exact Hk].
Qed.

(** The inner [catch] block, by what becomes of the status write. *)
Lemma process_failed_run id e w :
  process_failed env id e w
  = match db_runs_update env w id SetFailed with
    | DbDone =>
        (Normal (mkResponse 500
                   (BodyError "Failed to process ABM request" (Some (OfError e)) (Some id))),
         after_update id SetFailed w)
    | DbError _ =>
        (Normal (mkResponse 500
                   (BodyError "Failed to process ABM request" (Some (OfError e)) (Some id))),
         logged (CallRunsUpdate id SetFailed false) w)
    | DbRaise e' => (Throw (Rejected e'), logged (CallRunsUpdate id SetFailed false) w)
    end.
Proof.
  unfold process_failed. rewrite bind_run, runs_update_run.
  by destruct (db_runs_update env w id SetFailed).
Qed.

Lemma request_failed_run e w : ∃ resp, request_failed e w = (Normal resp, w).
Proof. destruct e; by eexists. Qed.

(** A request that validates and whose run is created. *)
Lemma POST_created body v id w :
  requestSchema_parse body = Some v →
  db_runs_insert env w (new_run v) = DbCreated id →
  abm_runs w !! id = None →
  POST env (Some body) w
  = try_catch (try_catch (process_run env v id) (process_failed env id)) request_failed
      (after_insert (new_run v) id w).
Proof.
  intros Hv Hc Hfresh. unfold POST, try_catch at 1 3.
  rewrite bind_run. simpl. rewrite Hv, bind_run, runs_insert_run, Hc, Hfresh. done.
Qed.

End Handlers.

(** * The life of a run *)

Lemma run_ok_kept id w w' : runs_kept w w' → run_ok id w → run_ok id w'.
Proof. intros [Hr Hh]. unfold run_ok. by rewrite Hr, Hh. Qed.

Lemma run_went_through_kept id rows w w1 w2 :
  run_went_through id rows w w1 → runs_kept w1 w2 → run_went_through id rows w w2.
Proof.
  intros (Hl & Hh & Ho) [Hr Hk]. unfold run_went_through. rewrite Hr, !Hk.
  split_and!; [done..|]. intros id' Hne. rewrite Hk. by apply Ho.
Qed.

Lemma run_went_through_kept_l id rows w0 w w1 :
  runs_kept w0 w → run_went_through id rows w w1 → run_went_through id rows w0 w1.
Proof.
  intros [Hr Hk] (Hl & Hh & Ho). unfold run_went_through. rewrite <- Hr, <- !Hk.
  split_and!; [done..|]. intros id' Hne. rewrite <- Hk. by apply Ho.
Qed.

(** The insertion of a row under a fresh key. *)
Lemma run_went_through_insert row id w :
  run_went_through id [row] w (after_insert row id w).
Proof.
  split_and!.
  - simpl. apply lookup_insert_eq.
  - rewrite run_history_after_insert. simpl. by rewrite decide_True.
  - intros id' Hne. split.
    + simpl. by apply lookup_insert_ne.
    + rewrite run_history_after_insert. simpl. by rewrite decide_False.
Qed.

(** An update carried out on a run that has just been created. *)
Lemma run_went_through_update id u row w w1 :
  run_went_through id [row] w w1 →
  run_went_through id [row; apply_update u row] w (after_update id u w1).
Proof.
  intros (Hl & Hh & Ho). split_and!.
  - simpl in *. by rewrite lookup_alter_eq, Hl.
  - rewrite run_history_after_update, Hh. simpl.
    rewrite decide_True by done. rewrite last_snoc. by rewrite <- app_assoc.
  - intros id' Hne. destruct (Ho id' Hne) as [Hr Hk]. split.
    + simpl. by rewrite lookup_alter_ne.
    + rewrite run_history_after_update. simpl. by rewrite decide_False.
Qed.

Section Lifecycle.
Context (env : Env).

(** What the inner [try] and [catch] blocks do to a run just created. *)
Lemma process_effect v id w wc :
  run_went_through id [new_run v] w wc →
  ∃ rows,
    run_life (new_run v) rows
    ∧ run_went_through id rows w
        (try_catch (try_catch (process_run env v id) (process_failed env id))
           request_failed wc).2.
Proof.
  intros Hc. unfold try_catch at 1.
  destruct (process_run_run env v id wc)
    as (sd & ys & ins & ws & w0 & w1 & _ & _ & _ & Hkept & _ & Hrun).
  pose proof (run_went_through_kept _ _ _ _ _ Hc Hkept) as Hc1.
  pose proof (store_and_answer_run env v id sd ys ins w1) as Hstore. cbv zeta in Hstore.
  set (u := SetCompleted (mkFullResult ins sd (length ys))) in *.
  destruct (db_runs_update env w1 id u) as [|e|e].
  - destruct Hstore as (w2 & Hanswer & Hk2). rewrite <- Hrun in Hanswer.
    rewrite (try_catch_normal _ _ _ _ _ Hanswer). simpl.
    exists [new_run v; apply_update u (new_run v)]. split; [constructor|].
    eapply run_went_through_kept; [|exact Hk2]. by apply run_went_through_update.
  - destruct Hstore as (w2 & Hanswer & Hk2). rewrite <- Hrun in Hanswer.
    rewrite (try_catch_normal _ _ _ _ _ Hanswer). simpl.
    exists [new_run v]. split; [constructor|]. by eapply run_went_through_kept.
  - rewrite <- Hrun in Hstore. rewrite (try_catch_throw _ _ _ _ _ Hstore).
    set (w1' := logged (CallRunsUpdate id u false) w1).
    assert (Hc1' : run_went_through id [new_run v] w w1').
    { eapply run_went_through_kept; [exact Hc1|apply logged_update_kept]. }
    rewrite process_failed_run.
    destruct (db_runs_update env w1' id SetFailed) as [|e'|e']; simpl.
    + exists [new_run v; apply_update SetFailed (new_run v)]. split; [constructor|].
      by apply run_went_through_update.
    + exists [new_run v]. split; [constructor|].
      eapply run_went_through_kept; [exact Hc1'|apply logged_update_kept].
    + exists [new_run v]. split; [constructor|].
      eapply run_went_through_kept; [exact Hc1'|apply logged_update_kept].
Qed.

(** A request either leaves the runs alone or creates one. *)
Lemma POST_effect request_body w :
  runs_kept w (POST env request_body w).2
  ∨ ∃ id rows, run_created id rows w (POST env request_body w).2.
Proof.
  destruct request_body as [request|]; [|by left].
  destruct (requestSchema_parse request) as [v|] eqn:Hv;
    [|left; unfold POST, try_catch; rewrite bind_run; simpl; by rewrite Hv].
  destruct (db_runs_insert env w (new_run v)) as [id|e|e] eqn:Hc.
  - destruct (abm_runs w !! id) as [r|] eqn:Hfresh.
    + left. unfold POST, try_catch. rewrite bind_run. simpl.
      rewrite Hv, bind_run, runs_insert_run, Hc, Hfresh. simpl. apply logged_insert_kept.
    + right. rewrite (POST_created env request v id w Hv Hc Hfresh).
      destruct (process_effect v id w _ (run_went_through_insert (new_run v) id w))
        as (rows & Hlife & Hthrough).
      exists id, rows. split_and!; [done|by exists v|done].
  - left. unfold POST, try_catch. rewrite bind_run. simpl.
    rewrite Hv, bind_run, runs_insert_run, Hc. simpl. apply logged_insert_kept.
  - left. unfold POST, try_catch. rewrite bind_run. simpl.
    rewrite Hv, bind_run, runs_insert_run, Hc. simpl. apply logged_insert_kept.
Qed.

Lemma runs_select_runs_kept id : preserves runs_kept (runs_select env id).
Proof. unfold runs_select. frame. Qed.

Lemma GET_runs_kept runId : preserves runs_kept (GET env runId).
Proof.
  pose proof runs_select_runs_kept. pose proof (insights_select_runs_kept env).
  unfold GET. frame.
Qed.

End Lifecycle.

Lemma run_life_ok v rows :
  run_life (new_run v) rows →
  lifecycle (status <$> rows)
  ∧ Forall payload_iff_completed rows
  ∧ is_Some (last rows).
Proof.
  assert (Hnew : payload_iff_completed (new_run v)).
  { split; [by intros [? [=]]|done]. }
  destruct 1; simpl; (split_and!; [| |by eexists]).
  - by left.
  - constructor; [exact Hnew|constructor].
  - right. by left.
  - constructor; [exact Hnew|]. constructor; [|constructor].
    split; [done|]. intros _. by eexists.
  - right. by right.
  - constructor; [exact Hnew|]. constructor; [|constructor].
    split; [by intros [? [=]]|done].
Qed.

(** One request keeps every run well formed, and leaves the runs that
    existed as they were. *)
Lemma request_step_ok w w' :
  request_step w w' →
  (∀ id, run_ok id w) →
  (∀ id, run_ok id w')
  ∧ ∀ id r, abm_runs w !! id = Some r →
      abm_runs w' !! id = Some r ∧ run_history id w' = run_history id w.
Proof.
  intros Hstep Hok.
  assert (Hcases : runs_kept w w' ∨ ∃ id rows, run_created id rows w w').
  { destruct Hstep; [apply POST_effect|left; apply GET_runs_kept]. }
  destruct Hcases as [Hkept|(id & rows & Hfresh & [v Hlife] & Hl & Hh & Ho)].
  - split; [intros id; by eapply run_ok_kept|].
    intros id r Hr. destruct Hkept as [-> ->]. done.
  - split.
    + intros id'. destruct (decide (id' = id)) as [->|Hne].
      * pose proof (Hok id) as Hid. unfold run_ok in *. rewrite Hfresh in Hid.
        rewrite Hl, Hh, Hid. simpl.
        apply run_life_ok in Hlife as (Hcycle & Hall & [r Hr]). rewrite Hr. done.
      * destruct (Ho id' Hne) as [Hr Hk]. pose proof (Hok id') as Hid.
        unfold run_ok in *. by rewrite Hr, Hk.
    + intros id' r Hr. assert (id' ≠ id) as Hne by (intros ->; congruence).
      destruct (Ho id' Hne) as [-> ->]. done.
Qed.

Lemma empty_world_ok id : run_ok id empty_world.
Proof. reflexivity. Qed.

Lemma reachable_ok w : reachable w → ∀ id, run_ok id w.
Proof.
  unfold reachable. intros H. apply rtc_nsteps in H as [n H].
  revert w H. induction n as [|n IH]; intros w H.
  - inversion H; subst. apply empty_world_ok.
  - apply nsteps_inv_r in H as (w1 & H1 & Hstep).
    by apply (request_step_ok w1 w Hstep), IH.
Qed.

Lemma reachable_later w w' : reachable w → rtc request_step w w' → reachable w'.
Proof. unfold reachable. intros H1 H2. by etrans. Qed.

(** Once its request has ended, a run is never written again. *)
Lemma run_settled w w' id r :
  reachable w → rtc request_step w w' → abm_runs w !! id = Some r →
  abm_runs w' !! id = Some r ∧ run_history id w' = run_history id w.
Proof.
  intros Hreach Hsteps. revert Hreach.
  induction Hsteps as [w|w w1 w2 Hstep Hsteps IH]; intros Hreach Hr; [done|].
  destruct (request_step_ok w w1 Hstep (reachable_ok w Hreach)) as [_ Hsame].
  destruct (Hsame id r Hr) as [Hr1 Hh1].
  destruct IH as [Hr2 Hh2]; [|done|].
  - eapply reachable_later; [exact Hreach|by apply rtc_once].
  - split; [done|congruence].
Qed.

(** * The rows of [abm_insights] in a reachable state *)

Section Store.
Context (env : Env).

Lemma POST_insights_added request_body :
  preserves (insights_added one_citation) (POST env request_body).
Proof.
  pose proof (runRAGPipeline_added env) as Hpipeline.
  unfold POST, request_failed, runs_insert, process_failed, process_run,
    store_and_answer, notify, research, scrapeCompany, fetchExpressResearch,
    fetchCitedResearch, runs_update.
  frame.
Qed.

Lemma GET_insights_added runId : preserves (insights_added one_citation) (GET env runId).
Proof. unfold GET, runs_select, insights_select. frame. Qed.

End Store.

Lemma reachable_one_citation w : reachable w → Forall one_citation (abm_insights w).
Proof.
  unfold reachable. intros H. apply rtc_nsteps in H as [n H].
  revert w H. induction n as [|n IH]; intros w H.
  - inversion H; subst. constructor.
  - apply nsteps_inv_r in H as (w1 & H1 & Hstep). specialize (IH w1 H1).
    assert (insights_added one_citation w1 w) as (new & -> & Hnew).
    { destruct Hstep; [apply POST_insights_added|apply GET_insights_added]. }
    by apply Forall_app.
Qed.

(** * Properties of the specification: chunks and records *)

(** C5, as amended.  For every profile and every list of external citations,
    the two arrays built by [runRAGPipeline] hold, in this order: one chunk
    made of name and description, with the citation of empty text, URL
    ["https://" + domain] and the profile name as title, when the description
    is not empty; one chunk for the [about] text, with the same citation,
    when that field is present and not empty; one chunk per external
    citation, with that citation's text and the citation itself.  When no
    chunk results, the body raises the error "No text chunks to process"
    in the state it started from, so no embedding call (nor any other call)
    was made, and the pipeline ends in that same state. *)
Theorem assemble_chunks_order env runId companyName sd ys w :
  assemble_chunks sd ys = ((chunks_in_order sd ys).*1, (chunks_in_order sd ys).*2)
  ∧ (chunks_in_order sd ys = [] →
     pipeline_body env runId companyName sd ys w = (Throw no_chunks_error, w)
     ∧ (runRAGPipeline env runId companyName sd ys w).2 = w).
Proof.
  split; [apply assemble_chunks_in_order|].
  intros Hnone. pose proof (pipeline_body_no_chunks env runId companyName sd ys w Hnone) as Hb.
  split; [exact Hb|].
  unfold runRAGPipeline. by rewrite (try_catch_throw _ _ _ _ _ Hb).
Qed.

(** C5, as the specification words it, the property fails: the [about] field is present (the scraper
    always sets it on a fetched page) but empty, and no chunk is emitted for
    it. *)
Lemma about_present_but_empty :
  scrape_page "acme.com" Scenario.blank_page = Scenario.blank_profile
  ∧ metadata Scenario.blank_profile ≫= about = Some ""
  ∧ assemble_chunks Scenario.blank_profile [] = ([], []).
Proof. split_and!; reflexivity. Qed.

(** The three kinds of chunk, in order. *)
Example assemble_chunks_three_kinds :
  assemble_chunks
    (mkScraped "Acme" "Anvils." "acme.com" (Some (mkMetadata None None (Some "Since 1949."))))
    Scenario.acme_news
  = (["Company: Acme" +:+ Text.nl +:+ "Description: Anvils.";
      "About: Since 1949.";
      "Acme opens a plant."],
     [mkCitation "" "https://acme.com" (Some "Acme");
      mkCitation "" "https://acme.com" (Some "Acme");
      mkCitation "Acme opens a plant." "https://news.example/acme" (Some "News")]).
Proof. reflexivity. Qed.

(** C6, as amended.  When [createAndStoreEmbeddings] returns, the table
    [abm_insights] has grown by one record per chunk, in order; the record of
    the chunk at position [i] carries the run id, the text of that chunk,
    [chunk_index = i], the embedding at position [i] of the answer of the
    embedder, and as [citations] the one-element list of the citation at
    position [i] whatever its URL, the empty list only when the citation list
    has no entry at that position. *)
Theorem createAndStoreEmbeddings_persists env runId texts citations w w' :
  createAndStoreEmbeddings env runId texts citations w = (Normal (), w') →
  ∃ embeddings,
    openai_embeddings env w (EmbMany texts) = Normal embeddings
    ∧ length (abm_insights w') = (length (abm_insights w) + length texts)%nat
    ∧ ∀ i chunk, texts !! i = Some chunk →
        abm_insights w' !! (length (abm_insights w) + i)%nat
        = Some {| run_id := runId;
                  content_json := {| content_text := chunk; chunk_index := i |};
                  embedding := embeddings !! i;
                  record_citations := match citations !! i with
                                      | Some c => [c]
                                      | None => []
                                      end |}.
Proof.
  intros Hrun. apply createAndStoreEmbeddings_normal in Hrun as (embeddings & Hemb & Htable).
  exists embeddings. split; [exact Hemb|]. rewrite Htable. split.
  - rewrite length_app. f_equal. unfold build_records. apply length_imap.
  - intros i chunk Hi. rewrite lookup_app_r by lia.
    replace (length (abm_insights w) + i - length (abm_insights w))%nat with i by lia.
    rewrite build_records_lookup, Hi. reflexivity.
Qed.

(** A run of it: two chunks, the second with a citation that has no URL. *)
Lemma createAndStoreEmbeddings_persists_witness :
  let env := Scenario.healthy (Scenario.reply "{}") DbDone (λ _, DbDone) in
  let texts := ["Company: Acme"; "Acme raises funds."] in
  let citations := [mkCitation "" "https://acme.com" (Some "Acme"); Scenario.unsourced] in
  let w' := (createAndStoreEmbeddings env "run-0" texts citations empty_world).2 in
  ∃ embeddings,
    openai_embeddings env empty_world (EmbMany texts) = Normal embeddings
    ∧ length (abm_insights w') = (length (abm_insights empty_world) + length texts)%nat
    ∧ ∀ i chunk, texts !! i = Some chunk →
        abm_insights w' !! (length (abm_insights empty_world) + i)%nat
        = Some {| run_id := "run-0";
                  content_json := {| content_text := chunk; chunk_index := i |};
                  embedding := embeddings !! i;
                  record_citations := match citations !! i with
                                      | Some c => [c]
                                      | None => []
                                      end |}.
Proof.
  intros env texts citations w'.
  apply (createAndStoreEmbeddings_persists env "run-0" texts citations empty_world w').
  reflexivity.
Defined.

(** C6, as the specification words it, the property fails: the citation of the chunk has an empty
    URL, and the record keeps it instead of an empty list. *)
Lemma record_keeps_citation_without_url :
  url Scenario.unsourced = ""
  ∧ record_citations
      <$> build_records "run-0" ["Acme raises funds."] [[1; 0; 0; 0]%Q] [Scenario.unsourced]
    = [[Scenario.unsourced]].
Proof. split; reflexivity. Qed.

(** C10.  The arrays of chunk texts and of chunk citations built by
    [runRAGPipeline] have the same length, so a citation is defined at every
    index of a persisted record; every record built from them, every row that
    a run of the pipeline adds to [abm_insights], and so every row of that
    table in a state the handlers can produce, carries exactly one citation:
    the branch that stores an empty list is never taken, also for an external
    citation whose URL is empty. *)
Theorem pipeline_records_one_citation env runId companyName sd ys :
  length (assemble_chunks sd ys).1 = length (assemble_chunks sd ys).2
  ∧ (∀ i, is_Some ((assemble_chunks sd ys).1 !! i) → is_Some ((assemble_chunks sd ys).2 !! i))
  ∧ (∀ embeddings,
       Forall one_citation
         (build_records runId (assemble_chunks sd ys).1 embeddings (assemble_chunks sd ys).2))
  ∧ preserves (insights_added one_citation) (runRAGPipeline env runId companyName sd ys)
  ∧ ∀ w, reachable w → Forall one_citation (abm_insights w).
Proof.
  pose proof (assemble_chunks_lengths sd ys) as Hlen. split_and!.
  - exact Hlen.
  - intros i Hi. apply lookup_lt_is_Some_2. rewrite <- Hlen. by apply lookup_lt_is_Some_1.
  - intros embeddings. by apply build_records_one_citation.
  - apply runRAGPipeline_added.
  - apply reachable_one_citation.
Qed.

(** An external citation without URL is persisted with its record. *)
Example unsourced_citation_is_persisted :
  record_citations
    <$> abm_insights
          (runRAGPipeline (Scenario.healthy (Scenario.reply "{}") DbDone (λ _, DbDone))
             "run-0" "Acme" Scenario.acme_profile [Scenario.unsourced] empty_world).2
  = [[Scenario.unsourced]].
Proof. vm_compute. reflexivity. Qed.

(** * Properties of the specification: retrieval *)

(** C4.  The rows returned by [match_abm_insights] are the projection of the
    selected rows; a row is selected only if it is a stored record, in the
    scope of the run asked for, whose similarity (one minus the cosine
    distance of its embedding to the query) is strictly greater than the
    threshold, so never equal to it; the selected rows are in ascending order
    of distance and at most [match_count]; and when the RPC call succeeds,
    [similaritySearch] returns the chunks of exactly these rows for the
    threshold 0.7 and, as called by the pipeline, the limit 5. *)
Theorem similarity_search_strict_and_ordered dist query threshold count run table :
  let selected := match_selected dist query threshold count run table in
  let rows := match_abm_insights dist query threshold count run table in
  rows = (λ dr, mkMatch (item_of_record dr.2) (1 - dr.1)%Q) <$> selected
  ∧ (∀ d r, (d, r) ∈ selected →
       r ∈ table
       ∧ (∃ e, embedding r = Some e ∧ d = dist e query)
       ∧ (threshold < 1 - d)%Q
       ∧ ¬ (1 - d == threshold)%Q
       ∧ ∀ id, run = Some id → run_id r = id)
  ∧ (∀ row, row ∈ rows → (threshold < similarity row)%Q)
  ∧ StronglySorted by_distance selected
  ∧ (length rows ≤ count)%nat
  ∧ ∀ env runId w,
      db_rpc_match env w = DbDone →
      (similaritySearch env query runId 5 w).1
      = Normal ((λ row, chunk_of_item (match_item row))
                  <$> match_abm_insights (cosine_distance env) query (7 # 10) 5
                        (Some runId) (abm_insights w)).
Proof.
  intros selected rows. split_and!.
  - reflexivity.
  - intros d r Hin.
    apply match_selected_elem in Hin as (Hr & He & Hlt & Hrun).
    split_and!; [done..| |done].
    intros Heq. apply (Qlt_not_eq _ _ Hlt). by symmetry.
  - intros row Hin. apply list_elem_of_fmap in Hin as ([d r] & -> & Hin).
    by apply match_selected_elem in Hin as (_ & _ & Hlt & _).
  - apply match_selected_sorted.
  - unfold rows, match_abm_insights. rewrite length_fmap. apply match_selected_length.
  - intros env runId w Hrpc. unfold similaritySearch.
    pose proof (similaritySearch_body_run env query runId 5 w) as Hbody.
    cbv zeta in Hbody. rewrite Hrpc in Hbody.
    by rewrite (try_catch_normal _ _ _ _ _ Hbody).
Qed.

(** A similarity of exactly 0.7 is not above the threshold 0.7: of the rows
    of run [run-0], with similarities 0.6, 0.7, 0.8 and 1, the search returns
    the last two, best first. *)
Example similarity_exactly_at_threshold :
  (λ row, chunk_index <$> item_content_json (match_item row))
    <$> match_abm_insights Scenario.unit_cosine_distance Scenario.Vectors.query
          (7 # 10) 5 (Some "run-0") Scenario.Vectors.table
  = [Some 3; Some 2]
  ∧ (1 - Scenario.unit_cosine_distance [7 # 10; 7 # 10; 1 # 10; 1 # 10] Scenario.Vectors.query
     == 7 # 10)%Q.
Proof. split; reflexivity. Qed.

(** C9.  [similaritySearch] never raises.  When a step of its [try] block
    raises (the RPC call, or the fallback query after the RPC call returned
    an error value), it returns the empty list; the fallback listing is
    requested exactly when the RPC call returns an error value.  With the
    empty list the generation step runs all the same, from the state the
    search ended in, with an empty context block and an empty citation list
    in its prompt. *)
Theorem similaritySearch_never_raises env query runId limit w :
  ∃ chunks w' new,
    similaritySearch env query runId limit w = (Normal chunks, w')
    ∧ calls w' = calls w ++ new
    ∧ (∀ e w'', similaritySearch_body env query runId limit w = (Throw e, w'') →
         chunks = [] ∧ w' = w'')
    ∧ (CallInsightsSelect runId (Some limit) ∈ new ↔ ∃ e, db_rpc_match env w = DbError e)
    ∧ (chunks = [] →
       ∀ companyName sd,
         (similaritySearch env query runId limit ≫= generate env companyName sd) w
         = generate env companyName sd [] w'
         ∧ calls (generate env companyName sd [] w').2
           = calls w' ++ [CallChat system_message (generation_prompt companyName sd "" [])]).
Proof.
  pose proof (similaritySearch_body_run env query runId limit w) as Hbody.
  cbv zeta in Hbody. unfold similaritySearch, try_catch.
  set (rpc := CallRpcMatch query match_threshold_used limit runId) in *.
  set (sel := CallInsightsSelect runId (Some limit)) in *.
  assert (Hsel : sel ∉ [rpc]).
  { intros H. apply list_elem_of_singleton in H. discriminate H. }
  assert (Hgen : ∀ chunks w',
    similaritySearch env query runId limit w = (Normal chunks, w') →
    chunks = [] →
    ∀ companyName sd,
      (similaritySearch env query runId limit ≫= generate env companyName sd) w
      = generate env companyName sd [] w'
      ∧ calls (generate env companyName sd [] w').2
        = calls w' ++ [CallChat system_message (generation_prompt companyName sd "" [])]).
  { intros chunks w' Hrun -> companyName sd. split.
    - by rewrite (bind_normal _ _ _ _ _ Hrun).
    - apply generate_calls. }
  unfold similaritySearch, try_catch in Hgen. rewrite Hbody in *. clear Hbody.
  destruct (db_rpc_match env w) as [|e|e] eqn:Hrpc.
  - eexists _, _, [rpc]. split_and!; [reflexivity|reflexivity|done| |by apply Hgen].
    split; [done|]. by intros [e [=]].
  - destruct (db_insights_select env _ runId) as [|e'|e'] eqn:Hselect.
    + eexists _, _, [rpc; sel]. split_and!; [reflexivity| |done| |by apply Hgen].
      * simpl. by rewrite <- app_assoc.
      * split; [by eexists|]. intros _. right. left.
    + eexists [], _, [rpc; sel]. split_and!; [reflexivity| | | |by apply Hgen].
      * simpl. by rewrite <- app_assoc.
      * by intros e0 w'' [= _ <-].
      * split; [by eexists|]. intros _. right. left.
    + eexists [], _, [rpc; sel]. split_and!; [reflexivity| | | |by apply Hgen].
      * simpl. by rewrite <- app_assoc.
      * by intros e0 w'' [= _ <-].
      * split; [by eexists|]. intros _. right. left.
  - eexists [], _, [rpc]. split_and!; [reflexivity|reflexivity| | |by apply Hgen].
    + by intros e0 w'' [= _ <-].
    + split; [done|]. by intros [e0 [=]].
Qed.

(** A failed retrieval does not lead to the fallback artifact: the RPC call
    raises, the model is asked all the same and its answer is returned. *)
Example retrieval_failure_is_not_a_fallback :
  let env := Scenario.healthy (Scenario.reply Scenario.full_answer)
               (DbRaise "rpc unavailable") (λ _, DbDone) in
  let sd := scrape_page "acme.com" Scenario.acme_page in
  (similaritySearch env Scenario.Vectors.query "run-0" 5 empty_world).1 = Normal []
  ∧ (runRAGPipeline env "run-0" "Acme" sd Scenario.acme_news empty_world).1
    = Normal (JObj [("insights", Json.strs ["Acme is expanding"]);
                    ("email_subject", JStr "Congratulations");
                    ("email_body", JStr "Hello");
                    ("citations", Json.strs ["https://news.example/acme"])])
  ∧ last (calls (runRAGPipeline env "run-0" "Acme" sd Scenario.acme_news empty_world).2)
    = Some (CallChat system_message (generation_prompt "Acme" sd "" [])).
Proof. vm_compute. split_and!; reflexivity. Qed.

(** * Properties of the specification: the result of a run *)

Lemma requestSchema_parse_nonempty body v :
  requestSchema_parse body = Some v → v_company v ≠ "" ∧ v_domain v ≠ "".
Proof.
  unfold requestSchema_parse.
  destruct body as [| | | | |fields]; try done.
  destruct (Js.Map_get "company" fields) as [[| | |c| |]|]; try done.
  destruct (Js.Map_get "domain" fields) as [[| | |d| |]|]; try done.
  destruct (_ && _) eqn:Hlen; [|done]. apply andb_true_iff in Hlen as [Hc Hd].
  intros H. assert (v_company v = c ∧ v_domain v = d) as [-> ->].
  { destruct (Js.Map_get "send_via_n8n" fields) as [[]|]; by simplify_eq. }
  split; intros ->; done.
Qed.

(** A failure of the embedding call of the run is a failure of a stage,
    whether or not there are chunks. *)
Lemma embedder_failure env runId companyName sd ys w :
  (∃ e, openai_embeddings env w (EmbMany (assemble_chunks sd ys).1) = Throw e) →
  stage_failure env runId companyName sd ys w.
Proof.
  intros [e He]. destruct (decide ((assemble_chunks sd ys).1 = [])) as [Hnone|Hsome].
  - by apply no_chunks.
  - by apply (embedding_fails env runId companyName sd ys w e).
Qed.

Lemma pipeline_outcome_fields env runId companyName sd ys w ins :
  pipeline_outcome env runId companyName sd ys w ins →
  Json.has_field ins "citations" = true
  ∧ (stage_failure env runId companyName sd ys w →
     ins = fallback_json sd ys ∧ has_all_insight_fields ins = true)
  ∧ (¬ stage_failure env runId companyName sd ys w →
     ∃ parsed,
       answered env runId companyName sd ys w parsed ins
       ∧ has_all_insight_fields ins = has_other_insight_fields parsed).
Proof.
  intros [[Hfail ->]|[Hok (parsed & Hans)]].
  - split_and!; [done|done|]. intros Hno. by destruct Hno.
  - pose proof Hans as (chunks & w4 & choices & _ & _ & _ & _ & Hins).
    apply ensure_citations_fields in Hins as [Hc Hall].
    split_and!; [done|by intros ?|]. intros _. by exists parsed.
Qed.

(** C1, as amended.  For every request that validates (company and domain
    are non-empty strings) and whose run record is created, steps 1 to 3
    return: the scraper a profile, the research client its citations, the
    pipeline an [insights] value; when the status write that follows does
    not raise, [POST] answers 200 with a result object that carries this
    value.  The value always has the field [citations].  When a stage of the
    pipeline fails at the call this run makes, it is the fallback artifact,
    which has all four fields; a failure of the embedding call is such a
    failure, so this covers the request for which every collaborator fails.
    Otherwise the generation call of this run answered with a text that
    parses to an object, the value is that object with [citations] ensured,
    and it has all four fields exactly when the parsed answer has [insights],
    [email_subject] and [email_body]. *)
Theorem create_run_insight_fields env body v id w :
  requestSchema_parse body = Some v →
  db_runs_insert env w (new_run v) = DbCreated id →
  abm_runs w !! id = None →
  v_company v ≠ "" ∧ v_domain v ≠ ""
  ∧ ∃ sd ys ins ws w0 w1,
      scrapeCompany env (v_domain v) (after_insert (new_run v) id w) = (Normal sd, ws)
      ∧ research env (v_company v) ws = (Normal ys, w0)
      ∧ runRAGPipeline env id (v_company v) sd ys w0 = (Normal ins, w1)
      ∧ ((∀ e, db_runs_update env w1 id (SetCompleted (mkFullResult ins sd (length ys)))
               ≠ DbRaise e) →
         ∃ w', POST env (Some body) w
               = (Normal (json (BodySuccess id (v_company v) (v_domain v) ins sd
                                  (length ys))), w'))
      ∧ Json.has_field ins "citations" = true
      ∧ (stage_failure env id (v_company v) sd ys w0 →
         ins = fallback_json sd ys ∧ has_all_insight_fields ins = true)
      ∧ ((∃ e, openai_embeddings env w0 (EmbMany (assemble_chunks sd ys).1) = Throw e) →
         stage_failure env id (v_company v) sd ys w0)
      ∧ (¬ stage_failure env id (v_company v) sd ys w0 →
         ∃ parsed,
           answered env id (v_company v) sd ys w0 parsed ins
           ∧ has_all_insight_fields ins = has_other_insight_fields parsed).
Proof.
  intros Hv Hc Hfresh.
  split; [by apply requestSchema_parse_nonempty in Hv as [? _]|].
  split; [by apply requestSchema_parse_nonempty in Hv as [_ ?]|].
  rewrite (POST_created env body v id w Hv Hc Hfresh).
  destruct (process_run_run env v id (after_insert (new_run v) id w))
    as (sd & ys & ins & ws & w0 & w1 & Hs & Hr & Hp & _ & Hout & Hrun).
  apply pipeline_outcome_fields in Hout as (Hcit & Hfail & Hok).
  exists sd, ys, ins, ws, w0, w1.
  split_and!; [done|done|done| |done|done|apply embedder_failure|done].
  intros Hup.
  pose proof (store_and_answer_run env v id sd ys ins w1) as Hstore. cbv zeta in Hstore.
  assert (∃ w2, store_and_answer env v id sd ys ins w1
                = (Normal (json (BodySuccess id (v_company v) (v_domain v) ins sd
                                   (length ys))), w2)) as [w2 Hanswer].
  { destruct (db_runs_update env w1 id _) as [|e|e] eqn:Hu.
    - destruct Hstore as (w2 & ? & _). by exists w2.
    - destruct Hstore as (w2 & ? & _). by exists w2.
    - by destruct (Hup e). }
  exists w2. rewrite <- Hrun in Hanswer.
  by rewrite (try_catch_normal _ _ _ _ _ (try_catch_normal _ _ _ _ _ Hanswer)).
Qed.

(** Every collaborator fails and the answer still has the four fields. *)
Lemma create_run_insight_fields_witness :
  ∃ ins sd ys w',
    POST Scenario.all_down (Some Scenario.acme_request) empty_world
    = (Normal (json (BodySuccess "run-0" "Acme" "acme.com" ins sd (length ys))), w')
    ∧ ins = fallback_json sd ys
    ∧ has_all_insight_fields ins = true.
Proof.
  pose proof (create_run_insight_fields Scenario.all_down Scenario.acme_request
                (mkValidated "Acme" "acme.com" false) "run-0" empty_world) as H.
  destruct H as (_ & _ & sd & ys & ins & ws & w0 & w1 & _ & _ & _ & Hpost & _ & Hfail
                 & Hemb & _);
    [reflexivity|reflexivity|reflexivity|].
  destruct Hpost as [w' Hpost]; [done|].
  exists ins, sd, ys, w'. split; [exact Hpost|].
  apply Hfail, Hemb. by eexists.
Defined.

(** C1, as the specification words it, the property fails: every collaborator answers, the model
    returns no choice, so the text parsed is ["{}"]; the answer of [POST] has
    an [insights] value with the field [citations] only. *)
Lemma create_run_without_insight_fields :
  (POST (Scenario.healthy (Normal []) DbDone (λ _, DbDone))
        (Some Scenario.acme_request) empty_world).1
  = Normal (json (BodySuccess "run-0" "Acme" "acme.com"
                    (JObj [("citations",
                            Json.strs ["https://acme.com"; "https://news.example/acme"])])
                    (scrape_page "acme.com" Scenario.acme_page) 1))
  ∧ has_all_insight_fields
      (JObj [("citations", Json.strs ["https://acme.com"; "https://news.example/acme"])])
    = false.
Proof. vm_compute. split; reflexivity. Qed.





Lemma last_logged c w : last (calls (logged c w)) = Some c.
Proof. simpl. apply last_snoc. Qed.

(** Only the status write makes steps 1 to 5 raise. *)
Lemma process_run_throws env v id w e w1 :
  process_run env v id w = (Throw e, w1) →
  runs_kept w w1
  ∧ ∃ msg res, e = Rejected msg
               ∧ last (calls w1) = Some (CallRunsUpdate id (SetCompleted res) false).
Proof.
  destruct (process_run_run env v id w)
    as (sd & ys & ins & ws & w0' & w0 & _ & _ & _ & Hkept & _ & ->).
  pose proof (store_and_answer_run env v id sd ys ins w0) as Hstore. cbv zeta in Hstore.
  destruct (db_runs_update env w0 id _) as [|e'|e'].
  - destruct Hstore as (w2 & -> & _). done.
  - destruct Hstore as (w2 & -> & _). done.
  - rewrite Hstore. intros [= <- <-]. split.
    + etrans; [exact Hkept|apply logged_update_kept].
    + eexists _, _. split; [done|apply last_logged].
Qed.

(** C8, as amended.  For every request in which an exception escapes steps
    1 to 5 after the run is created (it can only be the status write of the
    completed run raising), the handler issues, as its last call, the write
    of status [failed] for that run and answers with status 500 and an error
    body, never with an insight object.  When that write is carried out the
    body is the structured error carrying the message and the run id, and
    the run reads [failed], its result still absent.  When the store reports
    an error for that write the body is the same and the run still reads
    [processing].  When that write raises in its turn, the outer handler
    answers [Internal server error], with neither message nor run id, and
    the run still reads [processing]. *)
Theorem failed_run_answers_error env request v id w e w1 :
  requestSchema_parse request = Some v →
  db_runs_insert env w (new_run v) = DbCreated id →
  abm_runs w !! id = None →
  process_run env v id (after_insert (new_run v) id w) = (Throw e, w1) →
  ∃ resp w2,
    POST env (Some request) w = (Normal resp, w2)
    ∧ http_status resp = 500
    ∧ (∃ error details run, body resp = BodyError error details run)
    ∧ match db_runs_update env w1 id SetFailed with
      | DbDone =>
          resp = mkResponse 500
                   (BodyError "Failed to process ABM request" (Some (OfError e)) (Some id))
          ∧ last (calls w2) = Some (CallRunsUpdate id SetFailed true)
          ∧ abm_runs w2 !! id = Some (mkRun (v_company v) (v_domain v) failed None)
      | DbError _ =>
          resp = mkResponse 500
                   (BodyError "Failed to process ABM request" (Some (OfError e)) (Some id))
          ∧ last (calls w2) = Some (CallRunsUpdate id SetFailed false)
          ∧ abm_runs w2 !! id = Some (mkRun (v_company v) (v_domain v) processing None)
      | DbRaise _ =>
          resp = mkResponse 500 (BodyError "Internal server error" None None)
          ∧ last (calls w2) = Some (CallRunsUpdate id SetFailed false)
          ∧ abm_runs w2 !! id = Some (mkRun (v_company v) (v_domain v) processing None)
      end
    ∧ ∃ msg res, e = Rejected msg
                 ∧ last (calls w1) = Some (CallRunsUpdate id (SetCompleted res) false).
Proof.
  intros Hv Hc Hfresh Hthrow.
  rewrite (POST_created env request v id w Hv Hc Hfresh).
  apply process_run_throws in Hthrow as Hwhy. destruct Hwhy as [Hkept Hwhy].
  assert (Hrow : abm_runs w1 !! id = Some (new_run v)).
  { destruct Hkept as [-> _]. simpl. apply lookup_insert_eq. }
  unfold try_catch at 1. rewrite (try_catch_throw _ _ _ _ _ Hthrow), process_failed_run.
  destruct (db_runs_update env w1 id SetFailed) as [|e'|e'] eqn:Hu.
  - eexists _, _. split_and!; [reflexivity|done|by eexists _, _, _|done| | |done].
    + apply (last_logged (CallRunsUpdate id SetFailed true) w1).
    + simpl. by rewrite lookup_alter_eq, Hrow.
  - eexists _, _. split_and!; [reflexivity|done|by eexists _, _, _|done| |done|done].
    apply last_logged.
  - eexists _, _. split_and!; [reflexivity|done|by eexists _, _, _|done| |done|done].
    apply last_logged.
Qed.

(** The status write of the completed run raises; the run ends [failed]. *)
Lemma failed_run_answers_error_witness :
  let env := Scenario.healthy (Scenario.reply Scenario.full_answer) DbDone
               Scenario.completion_write_fails in
  ∃ resp w2,
    POST env (Some Scenario.acme_request) empty_world = (Normal resp, w2)
    ∧ resp = mkResponse 500
               (BodyError "Failed to process ABM request"
                  (Some (OfError (Rejected "write failed"))) (Some "run-0"))
    ∧ last (calls w2) = Some (CallRunsUpdate "run-0" SetFailed true)
    ∧ abm_runs w2 !! "run-0" = Some (mkRun "Acme" "acme.com" failed None).
Proof.
  intros env.
  set (v := mkValidated "Acme" "acme.com" false).
  set (wc := after_insert (new_run v) "run-0" empty_world).
  destruct (failed_run_answers_error env Scenario.acme_request v "run-0" empty_world
              (Rejected "write failed") (process_run env v "run-0" wc).2)
    as (resp & w2 & Hpost & _ & _ & Hcases & _);
    [reflexivity|reflexivity|reflexivity|vm_compute; reflexivity|].
  exists resp, w2. split; [exact Hpost|exact Hcases].
Defined.

(** C8, as the specification words it, the property fails: the status write of the completed run
    raises after the pipeline produced its artifact; the run is set to
    [failed] and the caller receives the error body, with no insight
    object. *)
Lemma failed_run_returns_no_insights :
  let answer := POST (Scenario.healthy (Scenario.reply Scenario.full_answer) DbDone
                        Scenario.completion_write_fails)
                  (Some Scenario.acme_request) empty_world in
  answer.1
  = Normal (mkResponse 500
              (BodyError "Failed to process ABM request"
                 (Some (OfError (Rejected "write failed"))) (Some "run-0")))
  ∧ status <$> abm_runs answer.2 !! "run-0" = Some failed.
Proof. vm_compute. split; reflexivity. Qed.

(** * Properties of the specification: the lifecycle of a run *)

Lemma lifecycle_transitions statuses i s s' :
  lifecycle statuses →
  statuses !! i = Some s → statuses !! S i = Some s' →
  s = processing ∧ (s' = completed ∨ s' = failed).
Proof.
  intros [-> | [-> | ->]] Hs Hs'; destruct i as [|[|i]]; simplify_eq/=; auto.
Qed.

(** C7.  In every state that the handlers can produce, for every run: the
    statuses it has gone through are [processing] alone, or [processing]
    then [completed], or [processing] then [failed], so each change of
    status leaves [processing] for [completed] or [failed] and none leads
    back to [processing]; in every row the run has held, the current one
    included, the result payload is present exactly when the status is
    [completed]; and whatever requests are handled afterwards, the run keeps
    the row it has, so a run that reads [completed] or [failed] never reads
    [processing] later.  (Requests are handled one after the other; a handler
    writes only to the run it created.) *)
Theorem run_status_lifecycle w id r :
  reachable w →
  abm_runs w !! id = Some r →
  lifecycle (status <$> run_history id w)
  ∧ (∀ i s s', (status <$> run_history id w) !! i = Some s →
               (status <$> run_history id w) !! S i = Some s' →
               s = processing ∧ (s' = completed ∨ s' = failed))
  ∧ last (run_history id w) = Some r
  ∧ Forall payload_iff_completed (run_history id w)
  ∧ (is_Some (result_json r) ↔ status r = completed)
  ∧ ∀ w', rtc request_step w w' →
      abm_runs w' !! id = Some r
      ∧ run_history id w' = run_history id w
      ∧ (status r ≠ processing → status <$> abm_runs w' !! id ≠ Some processing).
Proof.
  intros Hreach Hr. pose proof (reachable_ok w Hreach id) as Hok.
  unfold run_ok in Hok. rewrite Hr in Hok. destruct Hok as (Hcycle & Hlast & Hall).
  split_and!; [done| |done|done| |].
  - intros i s s'. by apply lifecycle_transitions.
  - apply last_Some_elem_of in Hlast.
    by apply (proj1 (Forall_forall _ _) Hall) in Hlast.
  - intros w' Hsteps. destruct (run_settled w w' id r Hreach Hsteps Hr) as [Hr' Hh'].
    split_and!; [done..|]. rewrite Hr'. simpl. congruence.
Qed.

(** A run that completed: its history, and what later requests see. *)
Lemma run_status_lifecycle_witness :
  let env := Scenario.healthy (Scenario.reply Scenario.full_answer) DbDone (λ _, DbDone) in
  let w := (POST env (Some Scenario.acme_request) empty_world).2 in
  ∃ r,
    abm_runs w !! "run-0" = Some r
    ∧ status <$> run_history "run-0" w = [processing; completed]
    ∧ lifecycle (status <$> run_history "run-0" w)
    ∧ Forall payload_iff_completed (run_history "run-0" w)
    ∧ ∀ w', rtc request_step w w' →
        abm_runs w' !! "run-0" = Some r
        ∧ run_history "run-0" w' = run_history "run-0" w
        ∧ (status r ≠ processing → status <$> abm_runs w' !! "run-0" ≠ Some processing).
Proof.
  intros env w.
  destruct (abm_runs w !! "run-0") as [r|] eqn:Hr; [|by vm_compute in Hr].
  destruct (run_status_lifecycle w "run-0" r) as (H1 & _ & _ & H4 & _ & H6).
  - apply rtc_once. apply (step_POST env (Some Scenario.acme_request) empty_world).
  - exact Hr.
  - exists r. split_and!; [done|by vm_compute|done|done|done].
Defined.

(** The three histories occur. *)
Example run_histories :
  status <$> run_history "run-0"
    (POST (Scenario.healthy (Scenario.reply Scenario.full_answer) DbDone (λ _, DbDone))
       (Some Scenario.acme_request) empty_world).2
  = [processing; completed]
  ∧ status <$> run_history "run-0"
      (POST (Scenario.healthy (Scenario.reply Scenario.full_answer) DbDone
               Scenario.completion_write_fails)
         (Some Scenario.acme_request) empty_world).2
    = [processing; failed]
  ∧ status <$> run_history "run-0"
      (POST (Scenario.healthy (Scenario.reply Scenario.full_answer) DbDone
               (λ _, DbError "row level security"))
         (Some Scenario.acme_request) empty_world).2
    = [processing].
Proof. vm_compute. split_and!; reflexivity. Qed.

(** * Further properties of the code: deduplication and the similarity query *)

Lemma first_occurrences_filter (P : string → Prop) `{!∀ x, Decision (P x)} l :
  first_occurrences (filter P l) = filter P (first_occurrences l).
Proof.
  induction l as [|x l IH]; [done|]. simpl.
  rewrite !filter_cons. case_decide as HP; simpl.
  - rewrite IH, !list_filter_filter. f_equal. apply list_filter_iff. naive_solver.
  - rewrite IH, list_filter_filter. apply list_filter_iff. intros y.
    split; [|naive_solver]. intros Hy. split; [done|]. by intros ->.
Qed.

Lemma first_occurrences_length l : (length (first_occurrences l) ≤ length l)%nat.
Proof.
  induction l as [|x l IH]; simpl; [done|].
  pose proof (length_filter (λ y, y ≠ x) (first_occurrences l)). lia.
Qed.

Lemma Map_extend_keys {V} (m es : list (string * V)) :
  Js.Map_keys (Js.Map_extend m es)
  = Js.Map_keys m ++ first_occurrences (filter (λ k, k ∉ Js.Map_keys m) es.*1).
Proof.
  revert m. induction es as [|[k v] es IH]; intros m; simpl.
  - by rewrite app_nil_r.
  - fold (Js.Map_extend (Js.Map_set k v m) es). rewrite IH, Map_keys_set, filter_cons.
    simpl. destruct (decide (k ∈ Js.Map_keys m)) as [Hin|Hout].
    + by rewrite decide_False by naive_solver.
    + rewrite decide_True by done. simpl. rewrite <- app_assoc. simpl. do 2 f_equal.
      rewrite <- first_occurrences_filter, list_filter_filter. f_equal.
      apply list_filter_iff. intros y. rewrite not_elem_of_app, list_elem_of_singleton.
      naive_solver.
Qed.

(** X1.  The citations kept by the deduplication appear in the order in
    which their URLs first occur in the input; the output is never longer
    than the input, and a list without repeated URL is returned as it is. *)
Theorem uniqueCitations_first_occurrence_order (l : list Citation) :
  url <$> uniqueCitations l = first_occurrences (url <$> l)
  ∧ (length (uniqueCitations l) ≤ length l)%nat
  ∧ (NoDup (url <$> l) → uniqueCitations l = l).
Proof.
  assert (Hurls : url <$> uniqueCitations l = first_occurrences (url <$> l)).
  { rewrite uniqueCitations_urls. unfold Js.Map_new.
    fold (Js.Map_extend [] (url_entries l)). rewrite Map_extend_keys. simpl.
    unfold url_entries. rewrite <- list_fmap_compose.
    change (url <$> l) with (fst ∘ (λ c : Citation, (url c, c)) <$> l). f_equal.
    generalize (fst ∘ (λ c : Citation, (url c, c)) <$> l). intros ks.
    induction ks as [|k ks IHk]; [done|].
    rewrite filter_cons_True by apply not_elem_of_nil. by rewrite IHk. }
  split_and!; [exact Hurls| |].
  - rewrite <- (length_fmap url (uniqueCitations l)), Hurls.
    rewrite <- (length_fmap url l). apply first_occurrences_length.
  - intros Hnd. unfold uniqueCitations, Js.Map_values.
    rewrite Map_new_distinct.
    + unfold url_entries. rewrite <- list_fmap_compose. apply list_fmap_id.
    + unfold Js.Map_keys, url_entries. by rewrite <- list_fmap_compose.
Qed.

(** * Calls, tables and returned values along a computation *)

#[global] Instance calls_added_preorder P : PreOrder (calls_added P).
Proof.
  split.
  - intros w. exists []. by rewrite app_nil_r.
  - intros w1 w2 w3 (n1 & H1 & F1) (n2 & H2 & F2). exists (n1 ++ n2).
    split; [by rewrite H2, H1, app_assoc|by apply Forall_app].
Qed.

#[global] Instance tables_kept_preorder : PreOrder tables_kept.
Proof.
  split.
  - intros w. by split.
  - intros w1 w2 w3 [H1 H1'] [H2 H2']. split; congruence.
Qed.

Lemma calls_added_log (P : Call → Prop) c : P c → preserves (calls_added P) (log_call c).
Proof. intros Hc w. exists [c]. split; [done|]. by constructor. Qed.

Lemma calls_added_set_runs P runs : preserves (calls_added P) (set_runs runs).
Proof. intros w. exists []. simpl. by rewrite app_nil_r. Qed.

Lemma calls_added_set_insights P rows : preserves (calls_added P) (set_insights rows).
Proof. intros w. exists []. simpl. by rewrite app_nil_r. Qed.

Lemma tables_kept_log c : preserves tables_kept (log_call c).
Proof. intros w. by split. Qed.

Lemma calls_added_new_calls P w w' :
  calls_added P w w' → calls w' = calls w ++ new_calls w w' ∧ Forall P (new_calls w w').
Proof.
  intros (new & Hnew & HP). unfold new_calls. rewrite Hnew, drop_app_length. done.
Qed.

Lemma new_calls_app w w' new : calls w' = calls w ++ new → new_calls w w' = new.
Proof. intros H. unfold new_calls. by rewrite H, drop_app_length. Qed.

#[global] Hint Resolve calls_added_set_runs calls_added_set_insights tables_kept_log : frame.
#[global] Hint Extern 1 (preserves (calls_added _) (log_call _)) =>
  apply calls_added_log; simpl; solve [auto] : frame.

Lemma returns_ret {A} (Q : A → Prop) a : Q a → returns Q (mret a).
Proof. intros HQ w a' w' [= <- _]. done. Qed.

Lemma returns_throw {A} (Q : A → Prop) e : returns Q (throw e).
Proof. intros w a w' [=]. Qed.

Lemma returns_bind {A B} (Q : B → Prop) (m : M A) (k : A → M B) :
  (∀ a, returns Q (k a)) → returns Q (m ≫= k).
Proof.
  intros Hk w b w' H. apply bind_normal_inv in H as (a & w1 & _ & H). by eapply Hk.
Qed.

Lemma returns_try_catch {A} (Q : A → Prop) (m : M A) h :
  returns Q m → (∀ e, returns Q (h e)) → returns Q (try_catch m h).
Proof.
  intros Hm Hh w a w'. unfold try_catch.
  destruct (m w) as [[a0|e] w1] eqn:Hrun.
  - intros [= <- <-]. by eapply Hm.
  - apply Hh.
Qed.

(** Decompose a computation to the values it can return. *)
Ltac returns_step :=
  lazymatch goal with
  | |- returns _ (mret _) => apply returns_ret
  | |- returns _ (throw _) => apply returns_throw
  | |- returns _ (mbind _ _) => apply returns_bind; intros ?
  | |- returns _ (try_catch _ _) => apply returns_try_catch; [|intros ?]
  | |- returns _ (match ?x with _ => _ end) => destruct x
  end.

Ltac returns_all := repeat returns_step.

(** * Further properties of the code: [rag.ts] *)

Lemma or_else_empty s : Js.or_else s "" = s.
Proof. by destruct s. Qed.

Lemma chunk_of_item_record r : chunk_of_item (item_of_record r) = chunk_of_record r.
Proof. unfold chunk_of_item, chunk_of_record. simpl. by rewrite or_else_empty. Qed.

Lemma first_rows_elem id limit w r :
  r ∈ first_rows id limit w → r ∈ abm_insights w ∧ run_id r = id.
Proof.
  unfold first_rows. intros H. apply elem_of_take in H as (i & H & _).
  apply list_elem_of_lookup_2, list_elem_of_In, filter_In in H as [H Hid].
  split; [by apply list_elem_of_In|by apply bool_decide_eq_true in Hid].
Qed.

Section RagMore.
Context (env : Env).

Lemma embeddings_create_tables_kept input : preserves tables_kept (embeddings_create env input).
Proof. unfold embeddings_create. frame. Qed.

Lemma chat_tables_kept system user :
  preserves tables_kept (chat_completions_create env system user).
Proof. unfold chat_completions_create. frame. Qed.

Lemma similaritySearch_tables_kept query runId limit :
  preserves tables_kept (similaritySearch env query runId limit).
Proof.
  unfold similaritySearch, similaritySearch_body, rpc_match_abm_insights, insights_select.
  frame.
Qed.

Lemma generate_tables_kept companyName sd chunks :
  preserves tables_kept (generate env companyName sd chunks).
Proof. unfold generate, chat_completions_create, ensure_citations. frame. Qed.

(** What [similaritySearch] returns and which calls it makes. *)
Lemma similaritySearch_outcome query runId limit w :
  ∃ chunks w',
    similaritySearch env query runId limit w = (Normal chunks, w')
    ∧ tables_kept w w'
    ∧ (length chunks ≤ limit)%nat
    ∧ (∀ chunk, chunk ∈ chunks →
         ∃ r, r ∈ abm_insights w ∧ run_id r = runId ∧ chunk = chunk_of_record r)
    ∧ (calls w' = calls w ++ [CallRpcMatch query match_threshold_used limit runId]
       ∨ calls w' = calls w ++ [CallRpcMatch query match_threshold_used limit runId;
                                CallInsightsSelect runId (Some limit)]).
Proof.
  pose proof (similaritySearch_body_run env query runId limit w) as Hbody.
  cbv zeta in Hbody. unfold similaritySearch, try_catch. rewrite Hbody. clear Hbody.
  destruct (db_rpc_match env w) as [|e|e].
  - eexists _, _. split_and!; [reflexivity|done| | |by left].
    + rewrite length_fmap. unfold match_abm_insights. rewrite length_fmap.
      apply match_selected_length.
    + intros chunk Hin. apply list_elem_of_fmap in Hin as (row & -> & Hin).
      apply list_elem_of_fmap in Hin as ([d r] & -> & Hin).
      apply match_selected_elem in Hin as (Hr & _ & _ & Hrun). simpl.
      exists r. split_and!; [done|by apply Hrun|apply chunk_of_item_record].
  - assert (Hcalls : ∀ w0 : World,
      calls (logged (CallInsightsSelect runId (Some limit))
               (logged (CallRpcMatch query match_threshold_used limit runId) w0))
      = calls w0 ++ [CallRpcMatch query match_threshold_used limit runId;
                     CallInsightsSelect runId (Some limit)]).
    { intros w0. simpl. by rewrite <- app_assoc. }
    destruct (db_insights_select env _ runId) as [|e'|e'].
    + eexists _, _. split_and!; [reflexivity|done| | |right; apply Hcalls].
      * rewrite length_fmap. unfold first_rows. rewrite length_take. lia.
      * intros chunk Hin. apply list_elem_of_fmap in Hin as (r & -> & Hin).
        apply first_rows_elem in Hin as [Hr Hid].
        exists r. split_and!; [done..|apply chunk_of_item_record].
    + eexists [], _. split_and!; [reflexivity|done|simpl; lia| |right; apply Hcalls].
      intros chunk Hin. by apply elem_of_nil in Hin.
    + eexists [], _. split_and!; [reflexivity|done|simpl; lia| |right; apply Hcalls].
      intros chunk Hin. by apply elem_of_nil in Hin.
  - eexists [], _. split_and!; [reflexivity|done|simpl; lia| |by left].
    intros chunk Hin. by apply elem_of_nil in Hin.
Qed.

End RagMore.

(** X4.  Whatever the store answers, [similaritySearch] returns at most
    [limit] chunks, each one the text and citations of a record stored for
    the run asked for (on the RPC path and on the fallback listing alike),
    and it changes neither table. *)
Theorem similaritySearch_scoped_and_bounded env query runId limit w :
  ∃ chunks w',
    similaritySearch env query runId limit w = (Normal chunks, w')
    ∧ abm_runs w' = abm_runs w
    ∧ abm_insights w' = abm_insights w
    ∧ (length chunks ≤ limit)%nat
    ∧ ∀ chunk, chunk ∈ chunks →
        ∃ r, r ∈ abm_insights w
             ∧ run_id r = runId
             ∧ chunk_text chunk = content_text (content_json r)
             ∧ chunk_citations chunk = record_citations r.
Proof.
  destruct (similaritySearch_outcome env query runId limit w)
    as (chunks & w' & Hrun & [Hruns Hrows] & Hlen & Hfrom & _).
  exists chunks, w'. split_and!; [done..|].
  intros chunk Hin. destruct (Hfrom chunk Hin) as (r & Hr & Hid & ->).
  by exists r.
Qed.

(** * Further properties of the code: the stages of [runRAGPipeline] *)

Lemma new_calls_refl w : new_calls w w = [].
Proof. unfold new_calls. by rewrite drop_all. Qed.

(** X5.  [createAndStoreEmbeddings] stores all the records or none: it makes
    one batched embedding call and, when that call answers, one insert of the
    records built from the answer; the rows of [abm_insights] grow by exactly
    these records when it returns and are unchanged when it raises, and
    [abm_runs] is never touched. *)
Theorem createAndStoreEmbeddings_all_or_nothing env runId texts citations w :
  ∃ outcome w',
    createAndStoreEmbeddings env runId texts citations w = (outcome, w')
    ∧ abm_runs w' = abm_runs w
    ∧ match openai_embeddings env w (EmbMany texts) with
      | Throw e =>
          outcome = Throw e
          ∧ new_calls w w' = [CallEmbeddings (EmbMany texts)]
          ∧ abm_insights w' = abm_insights w
      | Normal embeddings =>
          let records := build_records runId texts embeddings citations in
          new_calls w w' = [CallEmbeddings (EmbMany texts); CallInsightsInsert records]
          ∧ (outcome = Normal () ∧ abm_insights w' = abm_insights w ++ records
             ∨ (∃ e, outcome = Throw e) ∧ abm_insights w' = abm_insights w)
      end.
Proof.
  rewrite createAndStoreEmbeddings_run. cbv zeta.
  destruct (openai_embeddings env w (EmbMany texts)) as [embeddings|e].
  - destruct (db_insights_insert env _ _) as [|e|e]; eexists _, _;
      (split_and!; [reflexivity|done|apply new_calls_app; simpl; by rewrite <- app_assoc|]).
    + by left.
    + right. split; [by eexists|done].
    + right. split; [by eexists|done].
  - eexists _, _. split_and!; [reflexivity|done..|by apply new_calls_app|done].
Qed.

Section PipelineTrace.
Context (env : Env).

(** The [try] block of [runRAGPipeline], call by call. *)
Lemma pipeline_body_trace runId companyName sd ys w :
  ∃ outcome w' embeddings query listing prompt,
    let texts := (assemble_chunks sd ys).1 in
    let records := build_records runId texts embeddings (assemble_chunks sd ys).2 in
    let full := pipeline_calls runId companyName texts records query listing prompt in
    pipeline_body env runId companyName sd ys w = (outcome, w')
    ∧ abm_runs w' = abm_runs w
    ∧ ((∃ e, outcome = Throw e) ∧ abm_insights w' = abm_insights w
         ∧ (new_calls w w' = [] ∧ texts = []
            ∨ new_calls w w' = take 1 full
            ∨ new_calls w w' = take 2 full)
       ∨ (∃ e, outcome = Throw e) ∧ abm_insights w' = abm_insights w ++ records
         ∧ new_calls w w' = take 3 full
       ∨ abm_insights w' = abm_insights w ++ records ∧ new_calls w w' = full
         ∧ ∃ chunks,
             prompt = generation_prompt companyName sd (context_text chunks)
                        (uniqueCitations (Js.flatMap chunk_citations chunks))
             ∧ (length chunks ≤ 5)%nat
             ∧ ∀ chunk, chunk ∈ chunks →
                 ∃ r, r ∈ abm_insights w' ∧ run_id r = runId ∧ chunk = chunk_of_record r).
Proof.
  unfold pipeline_body. destruct (assemble_chunks sd ys) as [texts cits]. simpl.
  destruct (length texts =? 0)%nat eqn:Hlen.
  { exists (Throw no_chunks_error), w, [], [], false, "".
    split_and!; [done..|]. left. split_and!; [by eexists|done|].
    left. split; [apply new_calls_refl|].
    apply Nat.eqb_eq in Hlen. by destruct texts. }
  rewrite bind_run, createAndStoreEmbeddings_run. cbv zeta.
  destruct (openai_embeddings env w (EmbMany texts)) as [embeddings|e].
  2:{ exists (Throw e), (logged (CallEmbeddings (EmbMany texts)) w), [], [], false, "".
      split_and!; [done..|]. left. split_and!; [by eexists|done|].
      right. left. by apply new_calls_app. }
  set (records := build_records runId texts embeddings cits).
  destruct (db_insights_insert env _ records) as [|e|e].
  2,3: eexists (Throw (Rejected e)), _, embeddings, [], false, "";
       (split_and!; [reflexivity|done|]); left; (split_and!; [by eexists|done|]);
       right; right; apply new_calls_app; simpl; by rewrite <- app_assoc.
  rewrite bind_run, query_embedding_run.
  set (w3 := logged _ (stored records _)).
  assert (Hw3 : calls w3
                = calls w ++ take 3 (pipeline_calls runId companyName texts records [] false "")).
  { simpl. by rewrite <- !app_assoc. }
  destruct (openai_embeddings env _ (EmbOne _)) as [[|query qs]|e].
  1,3: eexists _, w3, embeddings, [], false, "";
       (split_and!; [reflexivity|done|]); right; left;
       (split_and!; [by eexists|done|]); by apply new_calls_app.
  rewrite bind_run.
  destruct (similaritySearch_outcome env query runId 5 w3)
    as (chunks & w4 & Hsearch & [Hruns4 Hrows4] & Hfive & Hfrom & Hcalls4).
  rewrite Hsearch.
  pose proof (generate_calls env companyName sd chunks w4) as Hcalls5.
  destruct (generate_tables_kept env companyName sd chunks w4) as [Hruns5 Hrows5].
  destruct (generate env companyName sd chunks w4) as [outcome w5].
  simpl in Hcalls5, Hruns5, Hrows5, Hruns4, Hrows4.
  assert (Hchunks : ∀ chunk, chunk ∈ chunks →
            ∃ r, r ∈ abm_insights w5 ∧ run_id r = runId ∧ chunk = chunk_of_record r).
  { intros chunk Hin. destruct (Hfrom chunk Hin) as (r & Hr & Hid & ->).
    exists r. by rewrite Hrows5, Hrows4. }
  destruct Hcalls4 as [Hrpc|Hboth].
  - exists outcome, w5, embeddings, query, false. eexists.
    split_and!; [done|congruence|].
    right. right. split_and!; [by rewrite Hrows5, Hrows4| |by exists chunks].
    apply new_calls_app. rewrite Hcalls5, Hrpc, Hw3.
    unfold pipeline_calls. simpl. by rewrite <- !app_assoc.
  - exists outcome, w5, embeddings, query, true. eexists.
    split_and!; [done|congruence|].
    right. right. split_and!; [by rewrite Hrows5, Hrows4| |by exists chunks].
    apply new_calls_app. rewrite Hcalls5, Hboth, Hw3.
    unfold pipeline_calls. simpl. by rewrite <- !app_assoc.
Qed.

Lemma assemble_chunks_length sd ys :
  (length (assemble_chunks sd ys).1 ≤ 2 + length ys)%nat.
Proof.
  rewrite assemble_chunks_in_order. simpl.
  unfold chunks_in_order, profile_chunk, about_chunk, citation_chunks.
  rewrite length_fmap, !length_app, length_fmap.
  destruct (metadata sd ≫= about); repeat case_decide; simpl; lia.
Qed.

Lemma runRAGPipeline_batch runId companyName sd ys w :
  (length ys ≤ 8)%nat →
  batch_stored runId w (runRAGPipeline env runId companyName sd ys w).2.
Proof.
  intros Hys. pose proof (assemble_chunks_length sd ys) as Hlen.
  destruct (pipeline_body_trace runId companyName sd ys w)
    as (outcome & w' & embeddings & query & listing & prompt & Hbody & _ & Htrace).
  cbv zeta in Hbody, Htrace.
  assert ((runRAGPipeline env runId companyName sd ys w).2 = w') as ->.
  { unfold runRAGPipeline, try_catch. rewrite Hbody. by destruct outcome. }
  destruct Htrace as [(_ & Hrows & _)|[(_ & Hrows & _)|[Hrows _]]].
  - exists [], [], []. split; [simpl; lia|]. by rewrite Hrows, app_nil_r.
  - eexists _, _, _. split; [|done]. lia.
  - eexists _, _, _. split; [|done]. lia.
Qed.

End PipelineTrace.

(** X6.  The calls of one run of [runRAGPipeline] are a prefix of: one
    batched embedding of the chunks, one insert of the records, the embedding
    of the query, the vector query for the run with threshold 0.7 and count 5,
    the fallback listing (only after a failed vector query) and one chat
    completion.  The run never raises and never writes [abm_runs]; its records
    are stored exactly when the trace got past the insert, and whenever the
    trace stops before the chat completion the result is the fallback
    artifact. *)
Theorem runRAGPipeline_call_trace env runId companyName sd ys w :
  ∃ ins w' embeddings query listing prompt,
    let texts := (assemble_chunks sd ys).1 in
    let records := build_records runId texts embeddings (assemble_chunks sd ys).2 in
    let full := pipeline_calls runId companyName texts records query listing prompt in
    runRAGPipeline env runId companyName sd ys w = (Normal ins, w')
    ∧ abm_runs w' = abm_runs w
    ∧ (ins = fallback_json sd ys ∧ abm_insights w' = abm_insights w
         ∧ (new_calls w w' = [] ∧ texts = []
            ∨ new_calls w w' = take 1 full
            ∨ new_calls w w' = take 2 full)
       ∨ ins = fallback_json sd ys ∧ abm_insights w' = abm_insights w ++ records
         ∧ new_calls w w' = take 3 full
       ∨ abm_insights w' = abm_insights w ++ records ∧ new_calls w w' = full).
Proof.
  destruct (pipeline_body_trace env runId companyName sd ys w)
    as (outcome & w' & embeddings & query & listing & prompt & Hbody & Hruns & Htrace).
  cbv zeta in Hbody, Htrace.
  unfold runRAGPipeline, try_catch. rewrite Hbody.
  destruct outcome as [ins|e].
  - exists ins, w', embeddings, query, listing, prompt. cbv zeta.
    split_and!; [done..|].
    destruct Htrace as [([e He] & _)|[([e He] & _)|(Hrows & Hfull & _)]]; [done..|].
    by right; right.
  - exists (fallback_json sd ys), w', embeddings, query, listing, prompt. cbv zeta.
    split_and!; [done..|].
    destruct Htrace as [(_ & Hrows & Hcalls)|[(_ & Hrows & Hcalls)|(Hrows & Hfull & _)]].
    + by left.
    + by right; left.
    + by right; right.
Qed.

(** X22.  The prompt sent to the model is built from the run itself: every
    chat completion called by [runRAGPipeline] has the fixed system message
    and a prompt made of at most 5 retrieved chunks, each of them the text
    and the citations of a row of [abm_insights] stored for this run id, so
    that no text stored for another run reaches the prompt; the citations
    listed in the prompt are those of these chunks, one per URL. *)
Theorem runRAGPipeline_prompt_is_scoped env runId companyName sd ys w :
  ∃ chunks,
    (length chunks ≤ 5)%nat
    ∧ (∀ chunk, chunk ∈ chunks →
         ∃ r, r ∈ abm_insights (runRAGPipeline env runId companyName sd ys w).2
              ∧ run_id r = runId
              ∧ chunk_text chunk = content_text (content_json r)
              ∧ chunk_citations chunk = record_citations r)
    ∧ Forall (λ c, ∀ system user,
                c = CallChat system user →
                system = system_message
                ∧ user = generation_prompt companyName sd (context_text chunks)
                           (uniqueCitations (Js.flatMap chunk_citations chunks)))
        (new_calls w (runRAGPipeline env runId companyName sd ys w).2).
Proof.
  destruct (pipeline_body_trace env runId companyName sd ys w)
    as (outcome & w' & embeddings & query & listing & prompt & Hbody & _ & Htrace).
  cbv zeta in Hbody, Htrace.
  assert ((runRAGPipeline env runId companyName sd ys w).2 = w') as ->.
  { unfold runRAGPipeline, try_catch. rewrite Hbody. by destruct outcome. }
  assert (Hnone : ∀ n, (n ≤ 3)%nat →
            Forall (λ c, ∀ system user,
                      c = CallChat system user →
                      system = system_message
                      ∧ user = generation_prompt companyName sd (context_text [])
                                 (uniqueCitations (Js.flatMap chunk_citations [])))
              (take n (pipeline_calls runId companyName (assemble_chunks sd ys).1
                         (build_records runId (assemble_chunks sd ys).1 embeddings
                            (assemble_chunks sd ys).2) query listing prompt))).
  { intros n Hn. destruct n as [|[|[|[|n]]]]; [| | |  |lia]; simpl;
      repeat (apply Forall_cons_2; [by intros ? ? [=]|]); apply Forall_nil_2. }
  destruct Htrace
    as [(_ & _ & [[-> _]|[-> | ->]])|[(_ & _ & ->)|(_ & -> & chunks & -> & Hfive & Hfrom)]].
  - exists []. split_and!; [simpl; lia|by intros ? ?%elem_of_nil|constructor].
  - exists []. split_and!; [simpl; lia|by intros ? ?%elem_of_nil|by apply Hnone; lia].
  - exists []. split_and!; [simpl; lia|by intros ? ?%elem_of_nil|by apply Hnone; lia].
  - exists []. split_and!; [simpl; lia|by intros ? ?%elem_of_nil|by apply Hnone; lia].
  - exists chunks. split_and!; [done| |].
    + intros chunk Hin. destruct (Hfrom chunk Hin) as (r & Hr & Hid & ->). by exists r.
    + unfold pipeline_calls. destruct listing; simpl;
        repeat (apply Forall_cons_2;
                [first [by intros ? ? [=]|by intros ? ? [= <- <-]]|]);
        apply Forall_nil_2.
Qed.

(** * Further properties of the code: the generation step *)

Lemma Json_get_set_eq v k x v' : Json.set v k x = Some v' → Json.get v' k = Some x.
Proof.
  destruct v; simpl; intros [= <-]; simpl; apply Map_get_set_eq.
Qed.

Lemma Json_get_set_ne v k k' x v' :
  k ≠ k' → Json.set v k x = Some v' → Json.get v' k' = Json.get v k'.
Proof.
  intros Hne. destruct v; simpl; intros [= <-]; simpl; by apply Map_get_set_ne.
Qed.

Lemma ensure_citations_normal parsed unique w ins w' :
  ensure_citations parsed unique w = (Normal ins, w') →
  w' = w
  ∧ (∀ k, k ≠ "citations" → Json.get ins k = Json.get parsed k)
  ∧ if cites parsed then ins = parsed
    else Json.get ins "citations" = Some (Json.strs (url <$> unique)).
Proof.
  unfold cites. intros Hrun.
  assert (Hcases :
    (if negb (Json.truthy (Json.get parsed "citations"))
        || Json.length_is_zero (default JNull (Json.get parsed "citations"))
     then match Json.set parsed "citations" (Json.strs (url <$> unique)) with
          | Some parsed' => mret parsed'
          | None => throw (TypeError "Cannot create property 'citations'")
          end
     else mret parsed) w = (Normal ins, w')).
  { destruct parsed; done. }
  clear Hrun. revert Hcases.
  destruct (Json.truthy (Json.get parsed "citations")); simpl.
  - destruct (Json.length_is_zero _); simpl.
    + destruct (Json.set parsed _ _) as [parsed'|] eqn:Hset; [|done].
      intros [= <- <-]. split_and!; [done| |by eapply Json_get_set_eq].
      intros k Hk. by eapply Json_get_set_ne.
    + by intros [= <- <-].
  - destruct (Json.set parsed _ _) as [parsed'|] eqn:Hset; [|done].
    intros [= <- <-]. split_and!; [done| |by eapply Json_get_set_eq].
    intros k Hk. by eapply Json_get_set_ne.
Qed.

Lemma uniqueCitations_from l c : c ∈ uniqueCitations l → c ∈ l.
Proof. intros H. apply uniqueCitations_elem in H. by apply last_with_url_Some in H as [_ H]. Qed.

(** X7.  When the generation step returns, the value is the parsed answer of
    the model with at most the field [citations] replaced: an answer that
    names citations of its own is returned as it is; otherwise [citations]
    becomes the list of URLs of the citations of the retrieved chunks, each
    URL once.  Every other field is the answer's. *)
Theorem generate_backfills_citations env companyName sd chunks w ins w' :
  generate env companyName sd chunks w = (Normal ins, w') →
  let unique := uniqueCitations (Js.flatMap chunk_citations chunks) in
  ∃ choices parsed,
    openai_chat env w system_message
      (generation_prompt companyName sd (context_text chunks) unique) = Normal choices
    ∧ JSON_parse env (response_text choices) = Some parsed
    ∧ (∀ k, k ≠ "citations" → Json.get ins k = Json.get parsed k)
    ∧ (if cites parsed then ins = parsed
       else Json.get ins "citations" = Some (Json.strs (url <$> unique)))
    ∧ NoDup (url <$> unique)
    ∧ ∀ c, c ∈ unique → ∃ chunk, chunk ∈ chunks ∧ c ∈ chunk_citations chunk.
Proof.
  intros Hrun unique. unfold generate in Hrun.
  rewrite bind_run, chat_completions_create_run in Hrun. fold unique in Hrun.
  destruct (openai_chat env w _ _) as [choices|e] eqn:Hchat; [|done].
  destruct (JSON_parse env (response_text choices)) as [parsed|] eqn:Hparse; [|done].
  apply ensure_citations_normal in Hrun as (_ & Hother & Hcit).
  exists choices, parsed. split_and!; [done..| |].
  - unfold unique. rewrite uniqueCitations_urls. apply dedup_keys_NoDup.
  - intros c Hc. apply uniqueCitations_from in Hc.
    unfold Js.flatMap in Hc. apply list_elem_of_join in Hc as (l & Hc & Hl).
    apply list_elem_of_fmap in Hl as (chunk & -> & Hchunk).
    by exists chunk.
Qed.

(** The model answers [{}]; the only retrieved chunk carries one citation. *)
Lemma generate_backfills_citations_witness :
  let env := Scenario.healthy (Scenario.reply "{}") DbDone (λ _, DbDone) in
  let chunks := [mkChunk "Acme opens a plant." Scenario.acme_news] in
  ∃ ins w',
    generate env "Acme" Scenario.acme_profile chunks empty_world = (Normal ins, w')
    ∧ Json.get ins "citations" = Some (Json.strs ["https://news.example/acme"]).
Proof.
  intros env chunks.
  destruct (generate env "Acme" Scenario.acme_profile chunks empty_world)
    as [[ins|e] w'] eqn:Hrun; [|by vm_compute in Hrun].
  exists ins, w'. split; [done|].
  destruct (generate_backfills_citations env "Acme" Scenario.acme_profile chunks
              empty_world ins w' Hrun) as (choices & parsed & Hchat & Hparse & _ & Hcit & _).
  vm_compute in Hchat. injection Hchat as <-.
  vm_compute in Hparse. injection Hparse as <-.
  exact Hcit.
Defined.

(** * Further properties of the code: [scraper.ts] and the research step *)

Lemma or_else_empty_inv a b : Js.or_else a b = "" → a = "" ∧ b = "".
Proof. by destruct a. Qed.

Lemma or_else_first a b : a ≠ "" → Js.or_else a b = a.
Proof. by destruct a. Qed.

(** X8.  The loop over the [about] selectors keeps the text of the first
    matching element whose [length], in UTF-16 code units, is more than 50;
    when no match is that long it keeps the text of the last matching
    element, not of the first, and the initial value when nothing matches. *)
Theorem about_loop_first_substantial_else_last page selectors aboutText :
  about_loop page selectors aboutText
  = match List.find substantial (about_matches page selectors) with
    | Some found => found
    | None => default aboutText (last (about_matches page selectors))
    end.
Proof.
  revert aboutText. induction selectors as [|selector rest IH]; intros aboutText; [done|].
  unfold about_matches in *. simpl.
  destruct (about_section page selector) as [found|]; simpl; [|apply IH].
  fold (substantial found). destruct (substantial found); [done|].
  rewrite IH, last_cons.
  destruct (List.find substantial _); [done|].
  by destruct (last _).
Qed.

Section Scraper.
Context (env : Env).

Lemma scrapeCompany_run domain w :
  scrapeCompany env domain w
  = (Normal match axios_get env w (scrape_target domain) with
            | Normal page => scrape_page domain page
            | Throw _ => scrape_minimal domain
            end,
     logged (CallAxiosGet (scrape_target domain)) w).
Proof.
  unfold scrapeCompany, try_catch, scrape_target.
  rewrite bind_run. simpl.
  by destruct (axios_get env w _).
Qed.

Lemma scrape_page_about domain page :
  description (scrape_page domain page) = "" →
  metadata (scrape_page domain page) ≫= about = Some "".
Proof.
  unfold scrape_page. simpl. intros H.
  apply or_else_empty_inv in H as [_ H]. apply or_else_empty_inv in H as [H _].
  by rewrite H.
Qed.

Lemma assemble_chunks_citations_only sd ys :
  description sd = "" → metadata sd ≫= about = Some "" ∨ metadata sd ≫= about = None →
  assemble_chunks sd ys = (text <$> ys, ys).
Proof.
  intros Hd Ha. rewrite assemble_chunks_in_order.
  unfold chunks_in_order, profile_chunk, about_chunk. rewrite Hd.
  assert (citation_chunks ys = (λ c, (text c, c)) <$> ys) as Hc by done.
  assert (((λ c, (text c, c)) <$> ys).*2 = ys) as Hsnd.
  { rewrite <- list_fmap_compose. transitivity (id <$> ys); [done|apply list_fmap_id]. }
  destruct Ha as [-> | ->]; simpl; rewrite Hc, Hsnd, <- list_fmap_compose; done.
Qed.

End Scraper.

(** X9.  [scrapeCompany] never raises and makes one request, to the domain
    itself when it starts with [http] and to [https://] followed by the domain
    otherwise; it writes no table.  When the request fails the profile is the
    minimal one, whose description is not empty.  The domain of the profile is
    the argument without scheme and [www.], and a profile without description
    has no [about] text: from such a profile the pipeline makes no chunk but
    those of the citations. *)
Theorem scrapeCompany_one_request_then_profile env site w :
  ∃ sd w',
    scrapeCompany env site w = (Normal sd, w')
    ∧ abm_runs w' = abm_runs w
    ∧ abm_insights w' = abm_insights w
    ∧ new_calls w w' = [CallAxiosGet (scrape_target site)]
    ∧ domain sd = Text.clean_domain site
    ∧ (description sd = "" → ∀ ys, assemble_chunks sd ys = (text <$> ys, ys))
    ∧ match axios_get env w (scrape_target site) with
      | Normal page => sd = scrape_page site page
      | Throw _ => sd = scrape_minimal site ∧ description sd ≠ ""
      end.
Proof.
  rewrite scrapeCompany_run. eexists _, _.
  split_and!; [reflexivity|done|done|by apply new_calls_app|..].
  - by destruct (axios_get env w _).
  - destruct (axios_get env w _) as [page|e]; [|done].
    intros Hd ys. apply assemble_chunks_citations_only; [done|].
    left. by apply scrape_page_about.
  - by destruct (axios_get env w _).
Qed.

(** * Further properties of the code: the research step of [POST] *)

Section Research.
Context (env : Env).

Lemma fetchCitedResearch_run company w :
  fetchCitedResearch env company w
  = (Normal match you_search env w company with
            | Normal found => Js.slice0 8 found
            | Throw _ => []
            end,
     logged (CallYouSearch company) w).
Proof.
  unfold fetchCitedResearch, try_catch. rewrite bind_run. simpl.
  by destruct (you_search env w company).
Qed.

Lemma fetchExpressResearch_run company w :
  fetchExpressResearch env company w
  = match you_express env w company with
    | Normal (Some found) => (Normal (Js.slice0 8 found), logged (CallYouExpress company) w)
    | _ => fetchCitedResearch env company (logged (CallYouExpress company) w)
    end.
Proof.
  unfold fetchExpressResearch, try_catch. rewrite bind_run.
  cbn -[Js.slice0 fetchCitedResearch]. rewrite bind_run.
  cbn -[Js.slice0 fetchCitedResearch]. rewrite bind_run.
  destruct (you_express env w company) as [[found|]|e];
    cbn -[Js.slice0 fetchCitedResearch]; rewrite ?fetchCitedResearch_run; done.
Qed.

Lemma slice0_length {A} n (l : list A) : (length (Js.slice0 n l) ≤ n)%nat.
Proof. unfold Js.slice0. rewrite length_take. lia. Qed.

Lemma searched_length company w :
  (length match you_search env w company with
          | Normal found => Js.slice0 8 found
          | Throw _ => []
          end ≤ 8)%nat.
Proof. destruct (you_search env w company); [apply slice0_length|simpl; lia]. Qed.

Lemma research_length company w ys w' :
  research env company w = (Normal ys, w') → (length ys ≤ 8)%nat.
Proof.
  unfold research, try_catch. rewrite bind_run, fetchExpressResearch_run.
  destruct (you_express env w company) as [[answered|]|e];
    rewrite ?fetchCitedResearch_run;
    destruct (length _ =? 0)%nat; rewrite ?fetchCitedResearch_run;
    intros H; cbn -[Js.slice0] in H; injection H as <- _;
    first [apply searched_length|exact (slice0_length 8 answered)].
Qed.

End Research.

(** X10.  The research step of [POST] never raises, returns at most 8
    citations and writes no table.  It queries the express API once and the
    search API only when the express API gave no citation: once when the
    express answer was well received and empty, up to twice when the express
    request failed.  It returns no citation only after the search API was
    tried. *)
Theorem research_falls_back_to_search env company w :
  ∃ found w' searches,
    research env company w = (Normal found, w')
    ∧ abm_runs w' = abm_runs w
    ∧ abm_insights w' = abm_insights w
    ∧ (length found ≤ 8)%nat
    ∧ new_calls w w' = CallYouExpress company :: replicate searches (CallYouSearch company)
    ∧ (searches ≤ 2)%nat
    ∧ (found = [] → (1 ≤ searches)%nat)
    ∧ match you_express env w company with
      | Normal (Some answered) =>
          if decide (answered = []) then searches = 1%nat
          else searches = 0%nat ∧ found = Js.slice0 8 answered
      | _ => (1 ≤ searches)%nat
      end.
Proof.
  unfold research, try_catch. rewrite bind_run, fetchExpressResearch_run.
  destruct (you_express env w company) as [[answered|]|e].
  - destruct (length (Js.slice0 8 answered) =? 0)%nat eqn:Hlen.
    + rewrite fetchCitedResearch_run. eexists _, _, 1%nat.
      split_and!; [reflexivity|done|done|apply searched_length| |lia|lia|].
      * apply new_calls_app. simpl. by rewrite <- app_assoc.
      * apply Nat.eqb_eq in Hlen. destruct answered; [|done]. by rewrite decide_True.
    + eexists _, _, 0%nat.
      split_and!; [reflexivity|done|done|apply slice0_length|by apply new_calls_app|lia| |].
      * intros Hnone. by rewrite Hnone in Hlen.
      * destruct answered; [done|]. by rewrite decide_False.
  - rewrite fetchCitedResearch_run.
    set (first := match you_search env _ company with
                  | Normal found => Js.slice0 8 found | Throw _ => [] end).
    pose proof (searched_length env company (logged (CallYouExpress company) w)) as Hfirst.
    fold first in Hfirst.
    destruct (length first =? 0)%nat eqn:Hlen.
    + rewrite fetchCitedResearch_run. eexists _, _, 2%nat.
      split_and!; [reflexivity|done|done|apply searched_length| |lia|lia|lia].
      apply new_calls_app. simpl. by rewrite <- !app_assoc.
    + eexists _, _, 1%nat.
      split_and!; [reflexivity|done|done|done| |lia|lia|lia].
      apply new_calls_app. simpl. by rewrite <- !app_assoc.
  - rewrite fetchCitedResearch_run.
    set (first := match you_search env _ company with
                  | Normal found => Js.slice0 8 found | Throw _ => [] end).
    pose proof (searched_length env company (logged (CallYouExpress company) w)) as Hfirst.
    fold first in Hfirst.
    destruct (length first =? 0)%nat eqn:Hlen.
    + rewrite fetchCitedResearch_run. eexists _, _, 2%nat.
      split_and!; [reflexivity|done|done|apply searched_length| |lia|lia|lia].
      apply new_calls_app. simpl. by rewrite <- !app_assoc.
    + eexists _, _, 1%nat.
      split_and!; [reflexivity|done|done|done| |lia|lia|lia].
      apply new_calls_app. simpl. by rewrite <- !app_assoc.
Qed.

(** * Further properties of the code: the handlers of [route.ts] *)

#[global] Hint Extern 1 (preserves (calls_added collaborator) (log_call _)) =>
  apply calls_added_log; reflexivity : frame.

Lemma collaborator_no_webhook c : collaborator c → no_webhook c.
Proof. by destruct c. Qed.

Lemma collaborator_no_update c id u applied : collaborator c → c ≠ CallRunsUpdate id u applied.
Proof. by intros H ->. Qed.

Section Route.
Context (env : Env).

Lemma notify_explicit v insights runId w :
  notify env v insights runId w = (Normal (), notified env v insights runId w).
Proof.
  unfold notify, notified, webhook_target.
  destruct (v_send_via_n8n v); [|done].
  destruct (N8N_WEBHOOK_URL env) as [target|]; [|done].
  destruct (Js.truthy target); [|done].
  unfold try_catch. rewrite bind_run. simpl.
  by destruct (fetch_webhook env w target _) as [[]|e].
Qed.

Lemma scrapeCompany_collaborator domain :
  preserves (calls_added collaborator) (scrapeCompany env domain).
Proof. unfold scrapeCompany. frame. Qed.

Lemma research_collaborator company : preserves (calls_added collaborator) (research env company).
Proof. unfold research, fetchExpressResearch, fetchCitedResearch. frame. Qed.

Lemma scrapeCompany_tables_kept domain : preserves tables_kept (scrapeCompany env domain).
Proof. unfold scrapeCompany. frame. Qed.

Lemma research_tables_kept company : preserves tables_kept (research env company).
Proof. unfold research, fetchExpressResearch, fetchCitedResearch. frame. Qed.

Lemma runRAGPipeline_collaborator runId companyName sd ys :
  preserves (calls_added collaborator) (runRAGPipeline env runId companyName sd ys).
Proof.
  unfold runRAGPipeline, pipeline_body, createAndStoreEmbeddings, query_embedding,
    similaritySearch, similaritySearch_body, generate, ensure_citations,
    embeddings_create, chat_completions_create, insights_insert, insights_select,
    rpc_match_abm_insights.
  frame.
Qed.

(** Steps 1 to 3 of [POST]. *)
Lemma process_run_steps v id w :
  ∃ sd ys ins w1,
    process_run env v id w = store_and_answer env v id sd ys ins w1
    ∧ runs_kept w w1
    ∧ calls_added collaborator w w1
    ∧ batch_stored id w w1
    ∧ (∃ w0, pipeline_outcome env id (v_company v) sd ys w0 ins).
Proof.
  unfold process_run.
  destruct (total_run _ w (scrapeCompany_total env (v_domain v))) as (sd & w0 & Hs).
  pose proof (scrapeCompany_runs_kept env (v_domain v) w) as Hs1.
  pose proof (scrapeCompany_collaborator (v_domain v) w) as Hs2.
  rewrite Hs in Hs1, Hs2.
  destruct (total_run _ w0 (research_total env (v_company v))) as (ys & w0' & Hr).
  pose proof (research_runs_kept env (v_company v) w0) as Hr1.
  pose proof (research_collaborator (v_company v) w0) as Hr2.
  rewrite Hr in Hr1, Hr2.
  destruct (runRAGPipeline_run env id (v_company v) sd ys w0')
    as (ins & w1 & Hp & Hp1 & _ & Hout).
  pose proof (runRAGPipeline_collaborator id (v_company v) sd ys w0') as Hp2.
  pose proof (runRAGPipeline_batch env id (v_company v) sd ys w0'
                (research_length env _ _ _ _ Hr)) as Hp3.
  pose proof (scrapeCompany_tables_kept (v_domain v) w) as [_ Hs3].
  pose proof (research_tables_kept (v_company v) w0) as [_ Hr3].
  rewrite Hp in Hp2, Hp3. rewrite Hs in Hs3. rewrite Hr in Hr3.
  exists sd, ys, ins, w1. split_and!; [| | | |by exists w0'].
  - by rewrite (bind_normal _ _ _ _ _ Hs), (bind_normal _ _ _ _ _ Hr),
      (bind_normal _ _ _ _ _ Hp).
  - simpl in *. by do 2 (etrans; [eassumption|]).
  - simpl in *. by do 2 (etrans; [eassumption|]).
  - destruct Hp3 as (texts & embeddings & citations & Hlen & Hp3).
    exists texts, embeddings, citations. simpl in *. by rewrite Hp3, Hr3, Hs3.
Qed.

(** A request that validates and whose run is created, by what becomes of
    the status writes. *)
Lemma POST_created_cases request v id w :
  requestSchema_parse request = Some v →
  db_runs_insert env w (new_run v) = DbCreated id →
  abm_runs w !! id = None →
  ∃ sd ys ins w1,
    runs_kept (after_insert (new_run v) id w) w1
    ∧ calls_added collaborator (after_insert (new_run v) id w) w1
    ∧ batch_stored id w w1
    ∧ (∃ w0, pipeline_outcome env id (v_company v) sd ys w0 ins)
    ∧ let u := SetCompleted (mkFullResult ins sd (length ys)) in
      let wf := logged (CallRunsUpdate id u false) w1 in
      POST env (Some request) w
      = match db_runs_update env w1 id u with
        | DbDone =>
            (Normal (success v id ins sd ys), notified env v ins id (after_update id u w1))
        | DbError _ => (Normal (success v id ins sd ys), notified env v ins id wf)
        | DbRaise e =>
            match db_runs_update env wf id SetFailed with
            | DbDone =>
                (Normal (processing_failed id (Rejected e)), after_update id SetFailed wf)
            | DbError _ =>
                (Normal (processing_failed id (Rejected e)),
                 logged (CallRunsUpdate id SetFailed false) wf)
            | DbRaise _ =>
                (Normal internal_error, logged (CallRunsUpdate id SetFailed false) wf)
            end
        end.
Proof.
  intros Hv Hc Hfresh.
  rewrite (POST_created env request v id w Hv Hc Hfresh).
  destruct (process_run_steps v id (after_insert (new_run v) id w))
    as (sd & ys & ins & w1 & Hrun & Hkept & Hcalls & Hbatch & Hout).
  exists sd, ys, ins, w1. split_and!; [done..|]. cbv zeta.
  unfold try_catch at 1 2. rewrite Hrun.
  unfold store_and_answer. rewrite bind_run, runs_update_run.
  destruct (db_runs_update env w1 id _) as [|e|e].
  - by rewrite bind_run, notify_explicit.
  - by rewrite bind_run, notify_explicit.
  - rewrite process_failed_run.
    by destruct (db_runs_update env _ id SetFailed).
Qed.

Lemma notified_calls v ins id w :
  calls (notified env v ins id w) = calls w ++ webhook_calls env v ins id.
Proof.
  unfold notified, webhook_calls. destruct (webhook_target env v); [done|].
  by rewrite app_nil_r.
Qed.

Lemma notified_runs v ins id w : abm_runs (notified env v ins id w) = abm_runs w.
Proof. unfold notified. by destruct (webhook_target env v). Qed.

Lemma notified_insights v ins id w : abm_insights (notified env v ins id w) = abm_insights w.
Proof. unfold notified. by destruct (webhook_target env v). Qed.

(** The same, by the answer, the calls and the row of the run. *)
Lemma POST_created_summary request v id w :
  requestSchema_parse request = Some v →
  db_runs_insert env w (new_run v) = DbCreated id →
  abm_runs w !! id = None →
  ∃ resp w' steps sd ys ins applied,
    let u := SetCompleted (mkFullResult ins sd (length ys)) in
    let created := CallRunsInsert (new_run v) (Some id) :: steps in
    POST env (Some request) w = (Normal resp, w')
    ∧ Forall collaborator steps
    ∧ (∃ w0, pipeline_outcome env id (v_company v) sd ys w0 ins)
    ∧ (resp = success v id ins sd ys
       ∧ new_calls w w' = created ++ [CallRunsUpdate id u applied] ++ webhook_calls env v ins id
       ∧ abm_runs w' !! id = Some (if applied then apply_update u (new_run v) else new_run v)
       ∨ (∃ e, resp = processing_failed id e ∨ resp = internal_error)
         ∧ new_calls w w'
           = created ++ [CallRunsUpdate id u false; CallRunsUpdate id SetFailed applied]
         ∧ abm_runs w' !! id
           = Some (if applied then apply_update SetFailed (new_run v) else new_run v)).
Proof.
  intros Hv Hc Hfresh.
  destruct (POST_created_cases request v id w Hv Hc Hfresh)
    as (sd & ys & ins & w1 & [Hruns _] & (steps & Hsteps & Hno) & _ & Hout & Hpost).
  cbv zeta in Hpost. rewrite Hpost. clear Hpost.
  set (u := SetCompleted (mkFullResult ins sd (length ys))).
  assert (Hrow : abm_runs w1 !! id = Some (new_run v)).
  { rewrite Hruns. simpl. apply lookup_insert_eq. }
  assert (Hcalls : calls w1 = calls w ++ CallRunsInsert (new_run v) (Some id) :: steps).
  { rewrite Hsteps. simpl. by rewrite <- app_assoc. }
  destruct (db_runs_update env w1 id u) as [|e|e].
  - eexists _, _, steps, sd, ys, ins, true. cbv zeta.
    split_and!; [reflexivity|done|done|]. left. split_and!; [done| |].
    + apply new_calls_app. rewrite notified_calls. simpl. rewrite Hcalls.
      by rewrite <- !app_assoc.
    + rewrite notified_runs. simpl. by rewrite lookup_alter_eq, Hrow.
  - eexists _, _, steps, sd, ys, ins, false. cbv zeta.
    split_and!; [reflexivity|done|done|]. left. split_and!; [done| |].
    + apply new_calls_app. rewrite notified_calls. simpl. rewrite Hcalls.
      by rewrite <- !app_assoc.
    + by rewrite notified_runs.
  - destruct (db_runs_update env _ id SetFailed) as [|e'|e'].
    + eexists _, _, steps, sd, ys, ins, true. cbv zeta.
      split_and!; [reflexivity|done|done|]. right. split_and!.
      * exists (Rejected e). by left.
      * apply new_calls_app. simpl. rewrite Hcalls. by rewrite <- !app_assoc.
      * simpl. by rewrite lookup_alter_eq, Hrow.
    + eexists _, _, steps, sd, ys, ins, false. cbv zeta.
      split_and!; [reflexivity|done|done|]. right. split_and!.
      * exists (Rejected e). by left.
      * apply new_calls_app. simpl. rewrite Hcalls. by rewrite <- !app_assoc.
      * done.
    + eexists _, _, steps, sd, ys, ins, false. cbv zeta.
      split_and!; [reflexivity|done|done|]. right. split_and!.
      * exists (Rejected e). by right.
      * apply new_calls_app. simpl. rewrite Hcalls. by rewrite <- !app_assoc.
      * done.
Qed.

(** The requests that create no run. *)
Lemma POST_front request_body w :
  match request_body ≫= requestSchema_parse with
  | None =>
      POST env request_body w
      = (Normal match request_body with
                | Some _ => invalid_request
                | None => internal_error
                end, w)
  | Some v =>
      (∃ resp,
         (resp = internal_error ∨ ∃ runError, resp = run_not_created runError)
         ∧ POST env request_body w
           = (Normal resp, logged (CallRunsInsert (new_run v) None) w))
      ∨ ∃ request id,
          request_body = Some request
          ∧ requestSchema_parse request = Some v
          ∧ db_runs_insert env w (new_run v) = DbCreated id
          ∧ abm_runs w !! id = None
  end.
Proof.
  destruct request_body as [request|]; simpl; [|done].
  destruct (requestSchema_parse request) as [v|] eqn:Hv.
  2:{ unfold POST, try_catch. rewrite bind_run. simpl. by rewrite Hv. }
  destruct (db_runs_insert env w (new_run v)) as [id|e|e] eqn:Hc.
  - destruct (abm_runs w !! id) as [row|] eqn:Hrow; [|right; by exists request, id].
    left. eexists. split; [right; by eexists|].
    unfold POST, try_catch. rewrite bind_run. simpl.
    by rewrite Hv, bind_run, runs_insert_run, Hc, Hrow.
  - left. eexists. split; [right; by eexists|].
    unfold POST, try_catch. rewrite bind_run. simpl.
    by rewrite Hv, bind_run, runs_insert_run, Hc.
  - left. eexists. split; [by left|].
    unfold POST, try_catch. rewrite bind_run. simpl.
    by rewrite Hv, bind_run, runs_insert_run, Hc.
Qed.

End Route.

(** X11.  [POST] never raises.  A body that is not JSON is answered 500 and
    a body that fails the schema 400, in both cases without any call and
    without any change of the tables.  For a body that validates the first
    call is the insert of a row with status [processing]; the answer is then
    200 or 500, never 400, and when no row is created nothing else is called,
    the tables are unchanged and the answer is 500.  A created run has a key
    that was free and is in the table afterwards. *)
Theorem POST_validates_then_creates env request_body w :
  match request_body ≫= requestSchema_parse with
  | None =>
      POST env request_body w
      = (Normal match request_body with
                | Some _ => invalid_request
                | None => internal_error
                end, w)
  | Some v =>
      ∃ resp w' created more,
        POST env request_body w = (Normal resp, w')
        ∧ new_calls w w' = CallRunsInsert (new_run v) created :: more
        ∧ status (new_run v) = processing
        ∧ (http_status resp = 200 ∨ http_status resp = 500)
        ∧ (created = None →
           more = [] ∧ http_status resp = 500
           ∧ abm_runs w' = abm_runs w ∧ abm_insights w' = abm_insights w)
        ∧ (∀ id, created = Some id →
           abm_runs w !! id = None ∧ is_Some (abm_runs w' !! id))
  end.
Proof.
  pose proof (POST_front env request_body w) as Hfront.
  destruct (request_body ≫= requestSchema_parse) as [v|]; [|done].
  destruct Hfront as [(resp & Hresp & Hpost)|(request & id & -> & Hv & Hc & Hfresh)].
  - exists resp, (logged (CallRunsInsert (new_run v) None) w), None, [].
    split_and!; [done|by apply new_calls_app|done| | |done].
    + right. by destruct Hresp as [->|[e ->]].
    + intros _. split_and!; [done| |done..]. by destruct Hresp as [->|[e ->]].
  - destruct (POST_created_summary env request v id w Hv Hc Hfresh)
      as (resp & w' & steps & sd & ys & ins & applied & Hpost & _ & _ & Hcases).
    cbv zeta in Hcases.
    destruct Hcases as [(-> & Hcalls & Hrow)|([e Hresp] & Hcalls & Hrow)].
    + eexists _, w', (Some id), _.
      split_and!; [done|exact Hcalls|done|by left|done|].
      intros ? [= <-]. by rewrite Hrow.
    + eexists _, w', (Some id), _.
      split_and!; [done|exact Hcalls|done| |done|].
      * right. by destruct Hresp as [-> | ->].
      * intros ? [= <-]. by rewrite Hrow.
Qed.

(** X12.  The webhook is called at most once per request, as the last call,
    and only for a request that validates with [send_via_n8n] set, when a
    webhook address is configured, after the write of the completed run; the
    answer is then the success answer, whose run id and insights are those of
    the payload.  Conversely such a request that is answered 200 has called
    the webhook. *)
Theorem POST_webhook_last_and_only_on_success env request_body w :
  ∃ resp w' others,
    POST env request_body w = (Normal resp, w')
    ∧ Forall no_webhook others
    ∧ (new_calls w w' = others
       ∨ ∃ v id ins sd n target res applied,
           request_body ≫= requestSchema_parse = Some v
           ∧ v_send_via_n8n v = true
           ∧ N8N_WEBHOOK_URL env = Some target
           ∧ target ≠ ""
           ∧ resp = json (BodySuccess id (v_company v) (v_domain v) ins sd n)
           ∧ last others = Some (CallRunsUpdate id (SetCompleted res) applied)
           ∧ result_insights res = ins
           ∧ new_calls w w' = others ++ [CallWebhook target (webhook_body v ins id)])
    ∧ (∀ v target,
         request_body ≫= requestSchema_parse = Some v →
         v_send_via_n8n v = true →
         N8N_WEBHOOK_URL env = Some target →
         target ≠ "" →
         http_status resp = 200 →
         ∃ ins id, last (new_calls w w') = Some (CallWebhook target (webhook_body v ins id))).
Proof.
  pose proof (POST_front env request_body w) as Hfront.
  destruct (request_body ≫= requestSchema_parse) as [v|] eqn:Hparse.
  2:{ eexists _, w, []. split_and!; [exact Hfront|done| |done].
      left. apply new_calls_refl. }
  destruct Hfront as [(resp & Hresp & Hpost)|(request & id & -> & Hv & Hc & Hfresh)].
  { exists resp, (logged (CallRunsInsert (new_run v) None) w), [CallRunsInsert (new_run v) None].
    split_and!; [done|by repeat constructor|left; by apply new_calls_app|].
    intros v' target _ _ _ _ Hok. by destruct Hresp as [->|[e ->]]. }
  destruct (POST_created_summary env request v id w Hv Hc Hfresh)
    as (resp & w' & steps & sd & ys & ins & applied & Hpost & Hno & _ & Hcases).
  cbv zeta in Hcases.
  apply (Forall_impl _ no_webhook) in Hno; [|apply collaborator_no_webhook].
  destruct Hcases as [(-> & Hcalls & Hrow)|([e Hresp] & Hcalls & Hrow)].
  - unfold webhook_calls in Hcalls.
    destruct (webhook_target env v) as [target|] eqn:Htarget.
    + unfold webhook_target in Htarget.
      destruct (v_send_via_n8n v) eqn:Hsend; [|done].
      destruct (N8N_WEBHOOK_URL env) as [target'|] eqn:Hurl; [|done].
      destruct (Js.truthy target') eqn:Htruthy; [|done].
      injection Htarget as ->.
      exists (success v id ins sd ys), w',
        (CallRunsInsert (new_run v) (Some id)
         :: steps ++ [CallRunsUpdate id (SetCompleted (mkFullResult ins sd (length ys)))
                        applied]).
      split_and!; [exact Hpost| | |].
      * constructor; [done|]. apply Forall_app. split; [done|by repeat constructor].
      * right. exists v, id, ins, sd, (length ys), target.
        exists (mkFullResult ins sd (length ys)), applied.
        split_and!; [done..|by apply truthy_spec in Htruthy|done| |done|].
        -- rewrite app_comm_cons. apply last_snoc.
        -- rewrite Hcalls. simpl. by rewrite <- !app_assoc.
      * intros v' target' [= <-] _ [= <-] _ _. exists ins, id.
        rewrite Hcalls, !app_assoc. apply last_snoc.
    + exists (success v id ins sd ys), w',
        (CallRunsInsert (new_run v) (Some id)
         :: steps ++ [CallRunsUpdate id (SetCompleted (mkFullResult ins sd (length ys)))
                        applied]).
      split_and!; [exact Hpost| |left; by rewrite Hcalls|].
      * constructor; [done|]. apply Forall_app. split; [done|by repeat constructor].
      * intros v' target [= <-] Hsend Hurl Hne _.
        unfold webhook_target in Htarget. rewrite Hsend, Hurl in Htarget.
        apply truthy_spec in Hne. by rewrite Hne in Htarget.
  - exists resp, w',
      (CallRunsInsert (new_run v) (Some id)
       :: steps ++ [CallRunsUpdate id (SetCompleted (mkFullResult ins sd (length ys))) false;
                    CallRunsUpdate id SetFailed applied]).
    split_and!; [exact Hpost| |left; exact Hcalls|].
    + constructor; [done|]. apply Forall_app. split; [done|by repeat constructor].
    + intros v' target _ _ _ _ Hok. by destruct Hresp as [-> | ->].
Qed.

(** * Further properties of the code: [GET], and [GET] after [POST] *)

Lemma filter_bool_decide {A} (P : A → Prop) `{!∀ x, Decision (P x)} (l : list A) :
  List.filter (λ x, bool_decide (P x)) l = filter P l.
Proof.
  induction l as [|x l IH]; [done|]. simpl. rewrite IH.
  case_bool_decide; [by rewrite filter_cons_True|by rewrite filter_cons_False].
Qed.

Section Get.
Context (env : Env).

Lemma runs_select_run id w :
  runs_select env id w
  = (match db_runs_select env w id with
     | DbDone =>
         match abm_runs w !! id with
         | Some r => Normal (mkPg (Some r) None)
         | None =>
             Normal (mkPg None
                       (Some "JSON object requested, multiple (or no) rows returned"))
         end
     | DbError e => Normal (mkPg None (Some e))
     | DbRaise e => Throw (Rejected e)
     end,
     logged (CallRunsSelect id) w).
Proof.
  unfold runs_select. rewrite bind_run. simpl.
  destruct (db_runs_select env w id); [|done..].
  by destruct (abm_runs w !! id).
Qed.

Lemma insights_select_all id w :
  insights_select env id None w
  = (match db_insights_select env w id with
     | DbDone => Normal (mkPg (Some (rows_of id w)) None)
     | DbError e => Normal (mkPg None (Some e))
     | DbRaise e => Throw (Rejected e)
     end,
     logged (CallInsightsSelect id None) w).
Proof.
  unfold insights_select, rows_of. rewrite bind_run. simpl.
  rewrite filter_bool_decide.
  by destruct (db_insights_select env w id).
Qed.

(** [GET] for a [run_id] that is given and not empty. *)
Lemma GET_explicit id w :
  id ≠ "" →
  GET env (Some id) w
  = let w1 := logged (CallRunsSelect id) w in
    let w2 := logged (CallInsightsSelect id None) w1 in
    match db_runs_select env w id with
    | DbDone =>
        match abm_runs w !! id with
        | Some run =>
            match db_insights_select env w1 id with
            | DbDone => (Normal (run_answer id run (rows_of id w)), w2)
            | DbError _ => (Normal (run_answer id run []), w2)
            | DbRaise _ => (Normal internal_error, w2)
            end
        | None => (Normal run_not_found, w1)
        end
    | DbError _ => (Normal run_not_found, w1)
    | DbRaise _ => (Normal internal_error, w1)
    end.
Proof.
  intros Hid. unfold GET. destruct id as [|a id]; [done|].
  unfold try_catch. rewrite bind_run, runs_select_run. cbv zeta.
  destruct (db_runs_select env w _) as [|e|e]; [|done..].
  destruct (abm_runs w !! _) as [run|]; [|done]. simpl.
  rewrite bind_run, insights_select_all.
  by destruct (db_insights_select env _ _).
Qed.

Lemma GET_explicit_tables runId w : tables_kept w (GET env runId w).2.
Proof.
  assert (preserves tables_kept (GET env runId)) as H; [|apply H].
  unfold GET, runs_select, insights_select. frame.
Qed.

End Get.

(** X13.  [GET] never raises and writes nothing: both tables are as they
    were.  The answer is 400 exactly when [run_id] is missing or empty, and
    then nothing is called.  Otherwise the run is read first.  When that read
    raises the answer is 500; when it reports an error or finds no row the
    answer is 404; in both cases nothing else is called.  When the run is
    found its rows are listed next, and nothing else is called: the answer
    carries the company and the domain of that run, its stored insights or
    the empty object when it has none, and all the rows of that run when the
    listing is answered, no row when the listing reports an error; it is 500
    when the listing raises. *)
Theorem GET_reads_and_never_writes env runId w :
  ∃ resp w',
    GET env runId w = (Normal resp, w')
    ∧ abm_runs w' = abm_runs w
    ∧ abm_insights w' = abm_insights w
    ∧ (http_status resp = 400 ↔ runId = None ∨ runId = Some "")
    ∧ (http_status resp = 400 → w' = w)
    ∧ (∀ id, runId = Some id → id ≠ "" →
         match db_runs_select env w id, abm_runs w !! id with
         | DbDone, Some run =>
             new_calls w w' = [CallRunsSelect id; CallInsightsSelect id None]
             ∧ match db_insights_select env (logged (CallRunsSelect id) w) id with
               | DbDone => resp = run_answer id run (rows_of id w)
               | DbError _ => resp = run_answer id run []
               | DbRaise _ => resp = internal_error
               end
         | DbDone, None | DbError _, _ =>
             new_calls w w' = [CallRunsSelect id] ∧ resp = run_not_found
         | DbRaise _, _ =>
             new_calls w w' = [CallRunsSelect id] ∧ resp = internal_error
         end).
Proof.
  destruct runId as [id|].
  2:{ exists run_id_required, w. split_and!; try done; [naive_solver..]. }
  destruct (decide (id = "")) as [->|Hid].
  { exists run_id_required, w. split_and!; try done; [naive_solver..]. }
  rewrite (GET_explicit env id w Hid). cbv zeta.
  assert (Hboth : ∀ w0 : World,
            calls (logged (CallInsightsSelect id None) (logged (CallRunsSelect id) w0))
            = calls w0 ++ [CallRunsSelect id; CallInsightsSelect id None]).
  { intros w0. simpl. by rewrite <- app_assoc. }
  destruct (db_runs_select env w id) as [|e|e] eqn:Hsel.
  - destruct (abm_runs w !! id) as [run|] eqn:Hrun.
    + destruct (db_insights_select env _ id) as [|e|e] eqn:Hlist; eexists _, _;
        (split_and!; [reflexivity|done|done|simpl; naive_solver|done|]);
        intros ? [= <-] _; rewrite Hsel, Hrun, Hlist;
        (split; [apply new_calls_app, Hboth|done]).
    + eexists _, _. split_and!; [reflexivity|done|done|simpl; naive_solver|done|].
      intros ? [= <-] _. rewrite Hsel, Hrun. split; [by apply new_calls_app|done].
  - eexists _, _. split_and!; [reflexivity|done|done|simpl; naive_solver|done|].
    intros ? [= <-] _. rewrite Hsel. split; [by apply new_calls_app|done].
  - eexists _, _. split_and!; [reflexivity|done|done|simpl; naive_solver|done|].
    intros ? [= <-] _. rewrite Hsel. split; [by apply new_calls_app|done].
Qed.

Lemma pipeline_outcome_object env runId companyName sd ys ins :
  (∃ w0, pipeline_outcome env runId companyName sd ys w0 ins) →
  Json.truthy (Some ins) = true ∧ ins ≠ JObj [].
Proof.
  intros [w0 [[_ ->]|[_ (parsed & chunks & w4 & choices & _ & _ & _ & _ & Hins)]]]; [done|].
  apply ensure_citations_fields in Hins as [Hcit _].
  unfold Json.has_field in Hcit. by destruct ins as [| | | | |[|]].
Qed.

Lemma reachable_POST env request_body w : reachable w → reachable (POST env request_body w).2.
Proof. intros H. eapply rtc_r; [exact H|apply step_POST]. Qed.

(** X14.  A run whose completed write was carried out is read back as it
    was answered: at any later state of the stores, whatever requests were
    handled in between, a [GET] of the run id answered by [POST] returns the
    company, the domain, the insights, the scraped profile and the citation
    count of the [POST] answer (the store is taken to return the JSON value
    it was given), with the rows stored for the run. *)
Theorem GET_returns_what_POST_answered env env' request v id w w' :
  reachable w →
  requestSchema_parse request = Some v →
  db_runs_insert env w (new_run v) = DbCreated id →
  abm_runs w !! id = None →
  id ≠ "" →
  (∀ w1 u, db_runs_update env w1 id u = DbDone) →
  rtc request_step (POST env (Some request) w).2 w' →
  db_runs_select env' w' id = DbDone →
  db_insights_select env' (logged (CallRunsSelect id) w') id = DbDone →
  ∃ ins sd n,
    (POST env (Some request) w).1
    = Normal (json (BodySuccess id (v_company v) (v_domain v) ins sd n))
    ∧ (GET env' (Some id) w').1
      = Normal (json (BodyRun id (v_company v) (v_domain v) ins (Some sd) n
                        (rows_of id w'))).
Proof.
  intros Hreach Hv Hc Hfresh Hid Hup Hlater Hsel Hrows.
  pose proof (reachable_POST env (Some request) w Hreach) as Hreach1.
  destruct (POST_created_cases env request v id w Hv Hc Hfresh)
    as (sd & ys & ins & w1 & [Hruns _] & _ & _ & Hout & Hpost).
  cbv zeta in Hpost. rewrite Hup in Hpost.
  rewrite Hpost in Hlater, Hreach1 |- *. simpl in Hlater, Hreach1.
  exists ins, sd, (length ys). split; [done|].
  assert (Hrow : abm_runs (notified env v ins id
                             (after_update id (SetCompleted (mkFullResult ins sd (length ys)))
                                w1)) !! id
                 = Some (mkRun (v_company v) (v_domain v) completed
                           (Some (mkFullResult ins sd (length ys))))).
  { rewrite notified_runs. simpl. rewrite Hruns. simpl.
    by rewrite lookup_alter_eq, lookup_insert_eq. }
  destruct (run_settled _ w' id _ Hreach1 Hlater Hrow) as [Hrow' _].
  rewrite (GET_explicit env' id w' Hid). cbv zeta. rewrite Hsel, Hrow', Hrows.
  apply pipeline_outcome_object in Hout as [Htruthy _].
  unfold run_answer, stored_insights. simpl. simpl in Htruthy. by rewrite Htruthy.
Qed.

(** A request handled with every collaborator answering, read back at once. *)
Lemma GET_returns_what_POST_answered_witness :
  let env := Scenario.healthy (Scenario.reply Scenario.full_answer) DbDone (λ _, DbDone) in
  let w := (POST env (Some Scenario.acme_request) empty_world).2 in
  ∃ ins sd n,
    (POST env (Some Scenario.acme_request) empty_world).1
    = Normal (json (BodySuccess "run-0" "Acme" "acme.com" ins sd n))
    ∧ (GET env (Some "run-0") w).1
      = Normal (json (BodyRun "run-0" "Acme" "acme.com" ins (Some sd) n (rows_of "run-0" w))).
Proof.
  intros env w.
  apply (GET_returns_what_POST_answered env env Scenario.acme_request
           (mkValidated "Acme" "acme.com" false) "run-0" empty_world w).
  - apply rtc_refl.
  - reflexivity.
  - reflexivity.
  - reflexivity.
  - discriminate.
  - reflexivity.
  - apply rtc_refl.
  - reflexivity.
  - reflexivity.
Defined.

(** X15.  When the store refuses the write of the completed run with an
    error value (it does not raise), [POST] still answers 200 with the
    insights, the failed write is not attempted, and the run keeps status
    [processing] without result: a [GET] of that run answers 200 with the
    empty object for insights, no scraped profile and a count of 0, not what
    [POST] answered. *)
Theorem POST_success_is_not_stored_when_write_refused env env' request v id w :
  requestSchema_parse request = Some v →
  db_runs_insert env w (new_run v) = DbCreated id →
  abm_runs w !! id = None →
  id ≠ "" →
  (∀ w1 u, ∃ e, db_runs_update env w1 id u = DbError e) →
  (∀ w1, db_runs_select env' w1 id = DbDone) →
  (∀ w1, db_insights_select env' w1 id = DbDone) →
  ∃ ins sd n w1,
    POST env (Some request) w
    = (Normal (json (BodySuccess id (v_company v) (v_domain v) ins sd n)), w1)
    ∧ ins ≠ JObj []
    ∧ abm_runs w1 !! id = Some (mkRun (v_company v) (v_domain v) processing None)
    ∧ Forall (λ c, ∀ applied, c ≠ CallRunsUpdate id SetFailed applied) (new_calls w w1)
    ∧ (GET env' (Some id) w1).1
      = Normal (json (BodyRun id (v_company v) (v_domain v) (JObj []) None 0
                        (rows_of id w1))).
Proof.
  intros Hv Hc Hfresh Hid Hup Hsel Hrows.
  destruct (POST_created_cases env request v id w Hv Hc Hfresh)
    as (sd & ys & ins & w1 & [Hruns _] & (steps & Hsteps & Hno) & _ & Hout & Hpost).
  cbv zeta in Hpost.
  destruct (Hup w1 (SetCompleted (mkFullResult ins sd (length ys)))) as [e He].
  rewrite He in Hpost.
  eexists ins, sd, (length ys), _. split_and!; [exact Hpost|..].
  - by apply pipeline_outcome_object in Hout as [_ ?].
  - rewrite notified_runs. simpl. rewrite Hruns. simpl. apply lookup_insert_eq.
  - erewrite new_calls_app;
      [|rewrite notified_calls; simpl; rewrite Hsteps; simpl; by rewrite <- !app_assoc].
    constructor; [done|]. apply Forall_app. split.
    + eapply Forall_impl; [exact Hno|]. intros c Hc' applied. by apply collaborator_no_update.
    + constructor; [done|]. unfold webhook_calls.
      destruct (webhook_target env v); by repeat constructor.
  - rewrite (GET_explicit env' id _ Hid). cbv zeta. rewrite Hsel, Hrows.
    rewrite notified_runs. simpl. rewrite Hruns. simpl. by rewrite lookup_insert_eq.
Qed.

(** The store refuses every status write. *)
Lemma POST_success_is_not_stored_when_write_refused_witness :
  let env := Scenario.healthy (Scenario.reply Scenario.full_answer) DbDone
               (λ _, DbError "permission denied") in
  ∃ ins sd n w1,
    POST env (Some Scenario.acme_request) empty_world
    = (Normal (json (BodySuccess "run-0" "Acme" "acme.com" ins sd n)), w1)
    ∧ ins ≠ JObj []
    ∧ abm_runs w1 !! "run-0" = Some (mkRun "Acme" "acme.com" processing None)
    ∧ (GET env (Some "run-0") w1).1
      = Normal (json (BodyRun "run-0" "Acme" "acme.com" (JObj []) None 0
                        (rows_of "run-0" w1))).
Proof.
  intros env.
  destruct (POST_success_is_not_stored_when_write_refused env env Scenario.acme_request
              (mkValidated "Acme" "acme.com" false) "run-0" empty_world)
    as (ins & sd & n & w1 & H1 & H2 & H3 & _ & H5).
  - reflexivity.
  - reflexivity.
  - reflexivity.
  - discriminate.
  - intros w1 u. by exists "permission denied".
  - reflexivity.
  - reflexivity.
  - by exists ins, sd, n, w1.
Defined.

(** * Further properties of the code: the rows of [abm_insights] over time *)

Lemma build_records_run_id runId texts embeddings citations :
  Forall (λ r, run_id r = runId) (build_records runId texts embeddings citations).
Proof.
  apply Forall_lookup. intros i r Hr. rewrite build_records_lookup in Hr.
  destruct (texts !! i); [|done]. by injection Hr as <-.
Qed.

Lemma build_records_length runId texts embeddings citations :
  length (build_records runId texts embeddings citations) = length texts.
Proof. unfold build_records. apply length_imap. Qed.

Lemma build_records_chunk_index runId texts embeddings citations :
  (λ r, chunk_index (content_json r)) <$> build_records runId texts embeddings citations
  = seq 0 (length texts).
Proof.
  apply list_eq. intros i. rewrite list_lookup_fmap, build_records_lookup.
  destruct (texts !! i) as [t|] eqn:Ht; simpl.
  - apply lookup_lt_Some in Ht. symmetry. by apply lookup_seq.
  - apply lookup_ge_None in Ht. symmetry. apply lookup_ge_None. by rewrite length_seq.
Qed.

Lemma filter_all {A} (P : A → Prop) `{!∀ x, Decision (P x)} (l : list A) :
  Forall P l → filter P l = l.
Proof.
  induction 1 as [|x l Hx Hl IH]; [done|]. by rewrite filter_cons_True, IH.
Qed.

Lemma filter_none {A} (P : A → Prop) `{!∀ x, Decision (P x)} (l : list A) :
  Forall (λ x, ¬ P x) l → filter P l = [].
Proof.
  induction 1 as [|x l Hx Hl IH]; [done|]. by rewrite filter_cons_False.
Qed.

Lemma rows_of_batch id k texts embeddings citations :
  filter (λ r, run_id r = k) (build_records id texts embeddings citations)
  = if decide (k = id) then build_records id texts embeddings citations else [].
Proof.
  pose proof (build_records_run_id id texts embeddings citations) as Hall.
  case_decide as Hk.
  - subst k. by apply filter_all.
  - apply filter_none. eapply Forall_impl; [exact Hall|]. simpl. congruence.
Qed.

(** What a request does to the two tables. *)
Lemma POST_tables env request_body w :
  let w' := (POST env request_body w).2 in
  tables_kept w w'
  ∨ ∃ id,
      abm_runs w !! id = None
      ∧ (∀ k, abm_runs w' !! k = None ↔ k ≠ id ∧ abm_runs w !! k = None)
      ∧ batch_stored id w w'.
Proof.
  pose proof (POST_front env request_body w) as Hfront.
  destruct (request_body ≫= requestSchema_parse) as [v|].
  2:{ left. by rewrite Hfront. }
  destruct Hfront as [(resp & _ & ->)|(request & id & -> & Hv & Hc & Hfresh)]; [by left|].
  right. exists id. split; [done|].
  destruct (POST_created_cases env request v id w Hv Hc Hfresh)
    as (sd & ys & ins & w1 & [Hruns _] & _ & Hbatch & _ & Hpost).
  cbv zeta in Hpost. rewrite Hpost. clear Hpost.
  assert (Hkeys : ∀ (f : Run → Run) k,
            alter f id (abm_runs w1) !! k = None ↔ k ≠ id ∧ abm_runs w !! k = None).
  { intros f k. rewrite Hruns. simpl. destruct (decide (k = id)) as [->|Hk].
    - rewrite lookup_alter_eq, lookup_insert_eq. simpl. naive_solver.
    - rewrite lookup_alter_ne, lookup_insert_ne by done. naive_solver. }
  assert (Hkeys' : ∀ k, abm_runs w1 !! k = None ↔ k ≠ id ∧ abm_runs w !! k = None).
  { intros k. rewrite Hruns. simpl. destruct (decide (k = id)) as [->|Hk].
    - rewrite lookup_insert_eq. naive_solver.
    - rewrite lookup_insert_ne by done. naive_solver. }
  destruct (db_runs_update env w1 id _) as [|e|e]; cbn [snd].
  - split; [intros k; rewrite notified_runs; apply Hkeys|].
    unfold batch_stored. by rewrite notified_insights.
  - split; [intros k; rewrite notified_runs; apply Hkeys'|].
    unfold batch_stored. by rewrite notified_insights.
  - destruct (db_runs_update env _ id SetFailed) as [|e'|e']; cbn [snd];
      (split; [first [apply Hkeys|apply Hkeys']|done]).
Qed.

Lemma rows_in_batches_step w w' :
  request_step w w' → rows_in_batches w → rows_in_batches w'.
Proof.
  intros Hstep Hinv.
  assert (tables_kept w w'
          ∨ ∃ id, abm_runs w !! id = None
                  ∧ (∀ k, abm_runs w' !! k = None ↔ k ≠ id ∧ abm_runs w !! k = None)
                  ∧ batch_stored id w w') as Hcases.
  { destruct Hstep as [env request_body w|env runId w].
    - apply POST_tables.
    - left. destruct (GET_explicit_tables env runId w) as [? ?]. by split. }
  destruct Hcases
    as [[Hruns Hrows]|(id & Hfresh & Hkeys & texts & embs & cits & Hlen & Hrows)].
  { intros id. specialize (Hinv id). unfold rows_of in *. by rewrite Hruns, Hrows. }
  intros k. specialize (Hinv k). unfold rows_of in *.
  rewrite Hrows, filter_app, rows_of_batch.
  destruct (decide (k = id)) as [->|Hk].
  - rewrite Hfresh in Hinv. rewrite Hinv. simpl.
    destruct (abm_runs w' !! id) eqn:Hrow; [by exists texts, embs, cits|].
    apply Hkeys in Hrow as [? _]. done.
  - rewrite app_nil_r.
    destruct (abm_runs w' !! k) eqn:Hrow.
    + destruct (abm_runs w !! k) eqn:Hrow0; [done|].
      assert (abm_runs w' !! k = None) as Hnone by (by apply Hkeys). congruence.
    + apply Hkeys in Hrow as [_ Hrow]. by rewrite Hrow in Hinv.
Qed.

Lemma reachable_rows_in_batches w : reachable w → rows_in_batches w.
Proof.
  unfold reachable. intros H. apply rtc_nsteps in H as [n H].
  revert w H. induction n as [|n IH]; intros w H.
  - inversion H; subst. intros id. done.
  - apply nsteps_inv_r in H as (w1 & H1 & Hstep).
    by apply (rows_in_batches_step w1 w Hstep), IH.
Qed.

(** X16.  In every state of the stores that requests can produce, each row
    of [abm_insights] belongs to a run of [abm_runs] (the foreign key of the
    schema is never violated), and the rows of a run are those of a single
    insert: their chunk indexes are 0, 1, 2, ... in the order of storage, and
    they are 10 at most (two chunks of the profile and, the research being
    cut at 8, as many citations). *)
Theorem stored_rows_belong_to_one_run w :
  reachable w →
  (∀ r, r ∈ abm_insights w → is_Some (abm_runs w !! run_id r))
  ∧ ∀ id,
      (∃ texts embeddings citations,
         rows_of id w = build_records id texts embeddings citations)
      ∧ (λ r, chunk_index (content_json r)) <$> rows_of id w
        = seq 0 (length (rows_of id w))
      ∧ (length (rows_of id w) ≤ 10)%nat.
Proof.
  intros Hreach. apply reachable_rows_in_batches in Hreach. split.
  - intros r Hr. specialize (Hreach (run_id r)).
    destruct (abm_runs w !! run_id r); [done|].
    assert (r ∈ rows_of (run_id r) w) as Hin by (by apply list_elem_of_filter).
    rewrite Hreach in Hin. by apply elem_of_nil in Hin.
  - intros id. specialize (Hreach id).
    assert (∃ texts embeddings citations,
              (length texts ≤ 10)%nat
              ∧ rows_of id w = build_records id texts embeddings citations)
      as (texts & embs & cits & Hlen & Hrows).
    { destruct (abm_runs w !! id); [done|]. exists [], [], [].
      split; [simpl; lia|]. by rewrite Hreach. }
    split_and!; [by exists texts, embs, cits| |].
    + by rewrite Hrows, build_records_chunk_index, build_records_length.
    + by rewrite Hrows, build_records_length.
Qed.

(** The rows after one request handled with every collaborator answering. *)
Lemma stored_rows_belong_to_one_run_witness :
  let env := Scenario.healthy (Scenario.reply Scenario.full_answer) DbDone (λ _, DbDone) in
  let w := (POST env (Some Scenario.acme_request) empty_world).2 in
  (∀ r, r ∈ abm_insights w → is_Some (abm_runs w !! run_id r))
  ∧ (λ r, chunk_index (content_json r)) <$> rows_of "run-0" w = [0; 1]%nat.
Proof.
  intros env w.
  destruct (stored_rows_belong_to_one_run w) as [Hkey Hrows].
  - apply rtc_once. apply (step_POST env (Some Scenario.acme_request) empty_world).
  - split; [exact Hkey|].
    destruct (Hrows "run-0") as (_ & -> & _). by vm_compute.
Defined.

(** * Further properties of the code: the citations built in [youcom.ts] *)

Section YouComFacts.
Import YouCom.

Lemma push_each_acc body elements citations :
  push_each body elements citations
  = (citations ++.) <$> push_each body elements [].
Proof.
  revert citations. induction elements as [|e rest IH]; intros citations; simpl.
  - by rewrite app_nil_r.
  - destruct (body e) as [pushed|]; [|done].
    rewrite (IH (citations ++ pushed)), (IH pushed).
    destruct (push_each body rest []); simpl; [|done]. by rewrite app_assoc.
Qed.

Lemma push_each_cons body e rest :
  push_each body (e :: rest) []
  = match body e, push_each body rest [] with
    | Some pushed, Some more => Some (pushed ++ more)
    | _, _ => None
    end.
Proof.
  simpl. destruct (body e) as [pushed|]; [|done].
  rewrite push_each_acc. by destruct (push_each body rest []).
Qed.

(** A [null] among the elements makes the loop raise. *)
Lemma push_each_null body elements :
  body JNull = None → JNull ∈ elements → push_each body elements [] = None.
Proof.
  intros Hnull. induction elements as [|e rest IH]; intros Hin.
  - by apply elem_of_nil in Hin.
  - rewrite push_each_cons. apply elem_of_cons in Hin as [<-|Hin].
    + by rewrite Hnull.
    + rewrite (IH Hin). by destruct (body e).
Qed.

(** Without a [null] among the elements the loop ends, when its body only
    raises on [null]. *)
Lemma push_each_defined body elements :
  (∀ e, e ≠ JNull → is_Some (body e)) →
  JNull ∉ elements →
  is_Some (push_each body elements []).
Proof.
  intros Hbody. induction elements as [|e rest IH]; intros Hin; [by eexists|].
  rewrite push_each_cons. apply not_elem_of_cons in Hin as [Hne Hin].
  destruct (Hbody e) as [pushed ->]; [done|].
  destruct (IH Hin) as [more ->]. by eexists.
Qed.

Lemma from_express_defined e : e ≠ JNull → is_Some (from_express e).
Proof. intros He. destruct e; try done; by eexists. Qed.

(** A loop that pushes one citation per element. *)
Lemma push_each_one body (one : JValue → RawCitation) elements :
  Forall (λ e, body e = Some [one e]) elements →
  push_each body elements [] = Some (one <$> elements).
Proof.
  induction 1 as [|e rest He Hrest IH]; [done|].
  by rewrite push_each_cons, He, IH.
Qed.

Lemma push_each_length body elements built :
  (∀ e pushed, body e = Some pushed → (length pushed ≤ 1)%nat) →
  push_each body elements [] = Some built → (length built ≤ length elements)%nat.
Proof.
  intros Hone. revert built. induction elements as [|e rest IH]; intros built.
  - intros [= <-]. done.
  - rewrite push_each_cons. destruct (body e) as [pushed|] eqn:He; [|done].
    destruct (push_each body rest []) as [more|]; [|done]. intros [= <-].
    rewrite length_app. simpl. specialize (Hone e pushed He). specialize (IH more eq_refl).
    lia.
Qed.

Lemma search_citations_length encode company data built :
  search_citations encode company data = Some built → (length built ≤ 8)%nat.
Proof.
  unfold search_citations. intros H.
  assert (∃ l, built = Js.slice0 8 l) as [l ->].
  { destruct data; try done;
      repeat (match type of H with
              | context [match ?x with _ => _ end] => destruct x; try done
              | context [if ?x then _ else _] => destruct x; try done
              end);
      injection H as <-; by eexists. }
  apply slice0_length.
Qed.

Lemma express_citations_length data built :
  express_citations data = Some built → (length built ≤ 8)%nat.
Proof.
  unfold express_citations. intros H.
  assert (∃ l, built = Js.slice0 8 l) as [l ->].
  { destruct data; try done;
      (destruct (array_elements _) as [cited|]; [|injection H as <-; by exists []]);
      (destruct (push_each _ _ _) as [pushed|]; [|done]); injection H as <-;
      by exists pushed. }
  apply slice0_length.
Qed.

Lemma from_result_entry entry :
  from_result (result_entry entry)
  = Some (if decide (usable entry)
          then [mkRaw (str entry.1.2) (str entry.1.1)
                  (str (Js.or_else (default "" entry.2) entry.1.1))]
          else []).
Proof.
  destruct entry as [[url snippet] title]. unfold usable. simpl.
  destruct url as [|a url], snippet as [|b snippet], title as [[|c title]|];
    simpl; try done; by rewrite decide_True.
Qed.

Lemma push_each_entries entries :
  push_each from_result (result_entry <$> entries) []
  = Some ((λ entry, mkRaw (str entry.1.2) (str entry.1.1)
                      (str (Js.or_else (default "" entry.2) entry.1.1)))
          <$> filter usable entries).
Proof.
  induction entries as [|entry entries IH]; [done|].
  rewrite fmap_cons, push_each_cons, from_result_entry, IH.
  case_decide; [by rewrite filter_cons_True|by rewrite filter_cons_False].
Qed.

End YouComFacts.

(** X17.  [fetchCitedResearch] reads the first of [results], [citations]
    and [snippets] that is an array and no other: when [results] is an array,
    be it empty, the citations it returns depend on [results], [text] and
    [url] only, and two answers that agree on these give the same citations,
    whatever they hold under [citations] and [snippets]. *)
Theorem search_reads_results_before_other_shapes
    encode company data other results props props2 :
  Json.get data "results" = Some (JArr results props) →
  Json.get other "results" = Some (JArr results props2) →
  Json.get other "text" = Json.get data "text" →
  Json.get other "url" = Json.get data "url" →
  YouCom.search_citations encode company other
  = YouCom.search_citations encode company data.
Proof.
  intros Hdata Hother Htext Hurl.
  assert (Hnull : data ≠ JNull) by (by intros ->).
  assert (Hnull2 : other ≠ JNull) by (by intros ->).
  unfold YouCom.search_citations, YouCom.from_text.
  destruct data; try done; destruct other; try done;
    by rewrite Hdata, Hother, Htext, Hurl.
Qed.

(** An empty [results] array hides the citations of the answer. *)
Lemma search_reads_results_before_other_shapes_witness :
  let cited := JObj [("text", JStr "Acme opens a plant.");
                     ("url", JStr "https://news.example/acme")] in
  YouCom.search_citations id "Acme"
    (JObj [("results", JArr [] []); ("citations", JArr [cited] [])])
  = Some []
  ∧ YouCom.search_citations id "Acme" (JObj [("citations", JArr [cited] [])])
    = Some [YouCom.mkRaw (YouCom.str "Acme opens a plant.")
              (YouCom.str "https://news.example/acme") (YouCom.str "")].
Proof.
  intros cited. split; [|reflexivity].
  rewrite (search_reads_results_before_other_shapes id "Acme"
             (JObj [("results", JArr [] [])])
             (JObj [("results", JArr [] []); ("citations", JArr [cited] [])])
             [] [] []); reflexivity.
Defined.

(** X18.  For an answer whose [results] are objects with string fields,
    [fetchCitedResearch] builds, in order, one citation for each of the first
    8 entries whose [url] and [snippet] are both non-empty, and skips the
    others: its text is the snippet, its URL the [url] and its title the
    [title], or the [url] when the title is missing or empty.  (The text
    fallback is out of play: a citation is built or [text] is falsy.) *)
Theorem search_results_of_strings encode company data entries props :
  Json.get data "results" = Some (JArr (YouCom.result_entry <$> entries) props) →
  filter YouCom.usable (take 8 entries) ≠ []
  ∨ Json.truthy (Json.get data "text") = false →
  ∃ built,
    YouCom.search_citations encode company data = Some built
    ∧ YouCom.typed <$> built
      = (λ entry, Some (YouCom.citation_of_entry entry))
        <$> filter YouCom.usable (take 8 entries).
Proof.
  intros Hdata Hbuilt.
  assert (Hnull : data ≠ JNull) by (by intros ->).
  set (kept := filter YouCom.usable (take 8 entries)) in *.
  set (raw := λ entry : YouCom.Entry,
         YouCom.mkRaw (YouCom.str entry.1.2) (YouCom.str entry.1.1)
           (YouCom.str (Js.or_else (default "" entry.2) entry.1.1))).
  assert (Hkept : (length kept ≤ 8)%nat).
  { unfold kept. etrans; [apply length_filter|]. rewrite length_take. lia. }
  assert (Hloop : YouCom.push_each YouCom.from_result
                    (Js.slice0 8 (YouCom.result_entry <$> entries)) []
                  = Some (raw <$> kept)).
  { unfold Js.slice0. rewrite <- fmap_take. apply push_each_entries. }
  exists (raw <$> kept). split.
  - unfold YouCom.search_citations.
    assert (Hlen : (length (raw <$> kept) =? 0)%nat && Json.truthy (Json.get data "text")
                   = false).
    { destruct Hbuilt as [Hsome| ->]; [|apply andb_false_r].
      rewrite length_fmap. by destruct kept. }
    assert (Js.slice0 8 (raw <$> kept) = raw <$> kept) as Hslice.
    { unfold Js.slice0. apply take_ge. by rewrite length_fmap. }
    destruct data; try done; rewrite Hdata; unfold YouCom.array_elements;
      cbv beta iota zeta; by rewrite Hloop, Hlen, Hslice.
  - rewrite <- list_fmap_compose. by apply list_fmap_ext.
Qed.

(** Two entries are usable among three. *)
Lemma search_results_of_strings_witness :
  let entries : list YouCom.Entry :=
    [("https://news.example/acme", "Acme opens a plant.", Some "News");
     ("", "No address.", Some "Dropped");
     ("https://blog.example/acme", "Acme hires.", None)] in
  ∃ built,
    YouCom.search_citations id "Acme"
      (JObj [("results", JArr (YouCom.result_entry <$> entries) [])])
    = Some built
    ∧ YouCom.typed <$> built
      = [Some (mkCitation "Acme opens a plant." "https://news.example/acme" (Some "News"));
         Some (mkCitation "Acme hires." "https://blog.example/acme"
                 (Some "https://blog.example/acme"))].
Proof.
  intros entries.
  apply (search_results_of_strings id "Acme"
           (JObj [("results", JArr (YouCom.result_entry <$> entries) [])]) entries []).
  - reflexivity.
  - right. reflexivity.
Defined.

(** The citation built by [fetchExpressResearch] from an element that is not
    [null]. *)
Lemma from_express_one element :
  element ≠ JNull →
  ∃ citation,
    YouCom.from_express element = Some [citation]
    ∧ (YouCom.read element "url" = None → YouCom.read element "source" = None →
       YouCom.raw_url citation = YouCom.str "")
    ∧ (YouCom.read element "text" = None → YouCom.read element "content" = None →
       YouCom.raw_text citation = YouCom.str "").
Proof.
  intros Hnull.
  exists (YouCom.mkRaw
            (YouCom.or_value
               (YouCom.or_else (YouCom.read element "text") (YouCom.read element "content"))
               (YouCom.str ""))
            (YouCom.or_value
               (YouCom.or_else (YouCom.read element "url") (YouCom.read element "source"))
               (YouCom.str ""))
            (YouCom.or_value
               (YouCom.or_else (YouCom.read element "title")
                  (YouCom.read element "source_name"))
               (YouCom.str ""))).
  split_and!.
  - by destruct element.
  - intros H1 H2. cbn [YouCom.raw_url]. by rewrite H1, H2.
  - intros H1 H2. cbn [YouCom.raw_text]. by rewrite H1, H2.
Qed.

(** X19.  [fetchExpressResearch] drops no entry of [citations]: when none
    of the first 8 entries is [null], it builds one citation for each of
    them, in order, also for an entry that has no text or no address, whose
    text or URL is then the empty string. *)
Theorem express_keeps_every_entry data cited props :
  Json.get data "citations" = Some (JArr cited props) →
  JNull ∉ take 8 cited →
  ∃ built,
    YouCom.express_citations data = Some built
    ∧ length built = (length cited `min` 8)%nat
    ∧ ∀ i element,
        (i < 8)%nat → cited !! i = Some element →
        ∃ citation,
          built !! i = Some citation
          ∧ YouCom.from_express element = Some [citation]
          ∧ (YouCom.read element "url" = None → YouCom.read element "source" = None →
             YouCom.raw_url citation = YouCom.str "")
          ∧ (YouCom.read element "text" = None → YouCom.read element "content" = None →
             YouCom.raw_text citation = YouCom.str "").
Proof.
  intros Hdata Hnull.
  assert (Hdata0 : data ≠ JNull) by (by intros ->).
  set (one := λ element,
         match YouCom.from_express element with
         | Some [citation] => citation
         | _ => YouCom.mkRaw (YouCom.str "") (YouCom.str "") (YouCom.str "")
         end).
  assert (Hone : ∀ element, element ≠ JNull →
                   YouCom.from_express element = Some [one element]).
  { intros element He. unfold one. by destruct element. }
  assert (Hloop : YouCom.push_each YouCom.from_express (Js.slice0 8 cited) []
                  = Some (one <$> take 8 cited)).
  { apply push_each_one, Forall_forall. intros element Hin. apply Hone.
    intros ->. by apply Hnull. }
  exists (one <$> take 8 cited). split_and!.
  - unfold YouCom.express_citations.
    destruct data; try done; rewrite Hdata; unfold YouCom.array_elements;
      cbv beta iota zeta; rewrite Hloop;
      change (Some (take 8 (one <$> take 8 cited)) = Some (one <$> take 8 cited));
      (rewrite take_ge; [done|]); rewrite length_fmap, length_take; lia.
  - rewrite length_fmap, length_take. lia.
  - intros i element Hi Helem.
    assert (Hne : element ≠ JNull).
    { intros ->. apply Hnull. apply list_elem_of_lookup_2 with i.
      by rewrite lookup_take_lt. }
    destruct (from_express_one element Hne) as (citation & Hbuilt & Hurl & Htext).
    exists citation. split_and!; [|done..].
    rewrite list_lookup_fmap, lookup_take_lt, Helem by done. simpl.
    rewrite (Hone element Hne) in Hbuilt. by injection Hbuilt as ->.
Qed.

(** An entry without address and an empty object both yield a citation. *)
Lemma express_keeps_every_entry_witness :
  let cited := [JObj [("text", JStr "Acme raises funds.")]; JObj []] in
  ∃ built,
    YouCom.express_citations (JObj [("citations", JArr cited [])]) = Some built
    ∧ YouCom.typed <$> built
      = [Some (mkCitation "Acme raises funds." "" (Some ""));
         Some (mkCitation "" "" (Some ""))].
Proof.
  intros cited.
  destruct (express_keeps_every_entry (JObj [("citations", JArr cited [])]) cited [])
    as (built & Hbuilt & _ & _).
  - reflexivity.
  - vm_compute. intros Hin. inversion Hin as [|? ? ? Hin']; subst.
    inversion Hin' as [|? ? ? Hin'']; subst. inversion Hin''.
  - exists built. split; [exact Hbuilt|].
    vm_compute in Hbuilt. injection Hbuilt as <-. reflexivity.
Defined.

(** The loop over an array with a [null] among its first 8 elements. *)
Ltac raises_on_null H body Hin :=
  unfold YouCom.array_elements in H; cbv beta iota zeta in H; unfold Js.slice0 in H;
  by rewrite (push_each_null body _ eq_refl Hin) in H.

(** X20.  Neither function of [youcom.ts] returns more than 8 citations, and
    [fetchCitedResearch] returns none when the request fails, the answer is
    not [ok], its body does not parse or is [null], or a [null] is among the
    first 8 elements of the array it reads.  [fetchExpressResearch] returns
    what [fetchCitedResearch] makes of the search answer when its own request
    fails, its answer is not [ok], the body does not parse or is [null], or a
    [null] is among the first 8 elements of [citations]; in every other case
    it returns the citations built from the express answer, be they none,
    whatever the search answer is. *)
Theorem research_answers_are_bounded encode company express search :
  (length (YouCom.cited_research encode company search) ≤ 8)%nat
  ∧ (length (YouCom.express_research encode company express search) ≤ 8)%nat
  ∧ (YouCom.cited_research encode company search ≠ [] →
     ∃ data,
       search = Normal (YouCom.mkFetched true (Normal data))
       ∧ data ≠ JNull
       ∧ ∀ key elements props,
           key = "results"
           ∨ key = "citations"
             ∧ YouCom.array_elements (Json.get data "results") = None
           ∨ key = "snippets"
             ∧ YouCom.array_elements (Json.get data "results") = None
             ∧ YouCom.array_elements (Json.get data "citations") = None →
           Json.get data key = Some (JArr elements props) →
           JNull ∉ take 8 elements)
  ∧ ((∀ data,
        express = Normal (YouCom.mkFetched true (Normal data)) →
        data = JNull
        ∨ ∃ elements props,
            Json.get data "citations" = Some (JArr elements props)
            ∧ JNull ∈ take 8 elements) →
     YouCom.express_research encode company express search
     = YouCom.cited_research encode company search)
  ∧ (∀ data,
       express = Normal (YouCom.mkFetched true (Normal data)) →
       data ≠ JNull →
       (∀ elements props,
          Json.get data "citations" = Some (JArr elements props) →
          JNull ∉ take 8 elements) →
       ∃ built,
         YouCom.express_citations data = Some built
         ∧ ∀ search',
             YouCom.express_research encode company express search' = built).
Proof.
  assert (Hsearch : (length (YouCom.cited_research encode company search) ≤ 8)%nat).
  { unfold YouCom.cited_research.
    destruct search as [[[] [data|e]]|e]; simpl; try lia.
    destruct (YouCom.search_citations encode company data) as [built|] eqn:Hbuilt;
      simpl; [by eapply search_citations_length|lia]. }
  split_and!; [done| | | |].
  - unfold YouCom.express_research.
    destruct express as [[[] [data|e]]|e]; try done.
    destruct (YouCom.express_citations data) as [built|] eqn:Hbuilt; [|done].
    by eapply express_citations_length.
  - unfold YouCom.cited_research.
    destruct search as [[[] [data|e]]|e]; try done.
    destruct (YouCom.search_citations encode company data) as [built|] eqn:Hbuilt;
      [|done].
    intros _. exists data. split; [done|].
    assert (Hnull : data ≠ JNull) by (by intros ->). split; [done|].
    intros key elements props Hkey Hget Hin.
    unfold YouCom.search_citations in Hbuilt.
    destruct Hkey as [->|[[-> Hresults]|(-> & Hresults & Hcited)]].
    + destruct data; try done; rewrite Hget in Hbuilt;
        raises_on_null Hbuilt YouCom.from_result Hin.
    + destruct data; try done; rewrite Hresults, Hget in Hbuilt;
        raises_on_null Hbuilt YouCom.from_citation Hin.
    + destruct data; try done; rewrite Hresults, Hcited, Hget in Hbuilt;
        raises_on_null Hbuilt YouCom.from_snippet Hin.
  - intros Hfails. unfold YouCom.express_research.
    destruct express as [[[] [data|e]]|e]; try done.
    destruct (YouCom.express_citations data) as [built|] eqn:Hbuilt; [|done].
    destruct (Hfails data eq_refl) as [->|(elements & props & Hget & Hin)]; [done|].
    unfold YouCom.express_citations in Hbuilt.
    destruct data; try done; rewrite Hget in Hbuilt;
      raises_on_null Hbuilt YouCom.from_express Hin.
  - intros data -> Hnull Hclean.
    assert (∃ built, YouCom.express_citations data = Some built) as [built Hbuilt].
    { destruct (YouCom.array_elements (Json.get data "citations")) as [cited|] eqn:Harr.
      - assert (∃ props, Json.get data "citations" = Some (JArr cited props))
          as [props Hget].
        { unfold YouCom.array_elements in Harr.
          destruct (Json.get data "citations") as [[| | | |elems props|]|]; try done.
          injection Harr as ->. by exists props. }
        destruct (push_each_defined YouCom.from_express (Js.slice0 8 cited)
                    from_express_defined (Hclean cited props Hget)) as [pushed Hpushed].
        exists (Js.slice0 8 pushed). unfold YouCom.express_citations.
        rewrite Harr, Hpushed. by destruct data.
      - exists []. unfold YouCom.express_citations. rewrite Harr. by destruct data. }
    exists built. split; [done|]. intros search'.
    unfold YouCom.express_research. by rewrite Hbuilt.
Qed.

(** * Further properties of the code: the order of the calls of [POST] *)

Section Order.
Context (env : Env).

Lemma research_calls company w :
  ∃ ys w' searches,
    research env company w = (Normal ys, w')
    ∧ (searches ≤ 2)%nat
    ∧ calls w' = calls w ++ CallYouExpress company :: replicate searches (CallYouSearch company).
Proof.
  unfold research, try_catch. rewrite bind_run, fetchExpressResearch_run.
  destruct (you_express env w company) as [[answered|]|e].
  - destruct (length (Js.slice0 8 answered) =? 0)%nat.
    + rewrite fetchCitedResearch_run. eexists _, _, 1%nat.
      split_and!; [reflexivity|lia|]. simpl. by rewrite <- !app_assoc.
    + eexists _, _, 0%nat. split_and!; [reflexivity|lia|done].
  - rewrite fetchCitedResearch_run. destruct (length _ =? 0)%nat.
    + rewrite fetchCitedResearch_run. eexists _, _, 2%nat.
      split_and!; [reflexivity|lia|]. simpl. by rewrite <- !app_assoc.
    + eexists _, _, 1%nat. split_and!; [reflexivity|lia|]. simpl. by rewrite <- !app_assoc.
  - rewrite fetchCitedResearch_run. destruct (length _ =? 0)%nat.
    + rewrite fetchCitedResearch_run. eexists _, _, 2%nat.
      split_and!; [reflexivity|lia|]. simpl. by rewrite <- !app_assoc.
    + eexists _, _, 1%nat. split_and!; [reflexivity|lia|]. simpl. by rewrite <- !app_assoc.
Qed.

Lemma runRAGPipeline_calls runId companyName sd ys w :
  ∃ ins w' embeddings query listing prompt reached,
    let texts := (assemble_chunks sd ys).1 in
    let records := build_records runId texts embeddings (assemble_chunks sd ys).2 in
    runRAGPipeline env runId companyName sd ys w = (Normal ins, w')
    ∧ calls w'
      = calls w ++ take reached (pipeline_calls runId companyName texts records query
                                   listing prompt).
Proof.
  destruct (pipeline_body_trace env runId companyName sd ys w)
    as (outcome & w' & embeddings & query & listing & prompt & Hbody & _ & Htrace).
  cbv zeta in Hbody, Htrace.
  pose proof (runRAGPipeline_collaborator env runId companyName sd ys w) as Hadded.
  apply calls_added_new_calls in Hadded as [Hcalls _].
  assert (∃ ins, runRAGPipeline env runId companyName sd ys w = (Normal ins, w'))
    as [ins Hrun].
  { unfold runRAGPipeline, try_catch. rewrite Hbody. destruct outcome; by eexists. }
  rewrite Hrun in Hcalls. simpl in Hcalls.
  exists ins, w', embeddings, query, listing, prompt. cbv zeta.
  destruct Htrace as [(_ & _ & [[Hnew _]|[Hnew|Hnew]])|[(_ & _ & Hnew)|(_ & Hnew & _)]].
  - exists 0%nat. split; [done|]. by rewrite Hcalls, Hnew.
  - exists 1%nat. split; [done|]. by rewrite Hcalls, Hnew.
  - exists 2%nat. split; [done|]. by rewrite Hcalls, Hnew.
  - exists 3%nat. split; [done|]. by rewrite Hcalls, Hnew.
  - eexists (length _). split; [done|]. by rewrite Hcalls, Hnew, firstn_all.
Qed.

End Order.

(** X21.  For a request that validates and whose run is created, [POST]
    attempts every step whatever fails before it, in this order: the insert
    of the run, one request to the company site, the express research, up to
    two searches, the calls of the pipeline as far as it got, then the write
    of the completed run with the scraped profile and the count of the
    citations found; after it come only the webhook call, or the write of the
    failed run when the completed write raised. *)
Theorem POST_attempts_every_step_in_order env request v id w :
  requestSchema_parse request = Some v →
  db_runs_insert env w (new_run v) = DbCreated id →
  abm_runs w !! id = None →
  ∃ searches sd ys embeddings query listing prompt reached ins applied rest,
    let texts := (assemble_chunks sd ys).1 in
    let records := build_records id texts embeddings (assemble_chunks sd ys).2 in
    new_calls w (POST env (Some request) w).2
    = [CallRunsInsert (new_run v) (Some id);
       CallAxiosGet (scrape_target (v_domain v));
       CallYouExpress (v_company v)]
      ++ replicate searches (CallYouSearch (v_company v))
      ++ take reached
           (pipeline_calls id (v_company v) texts records query listing prompt)
      ++ CallRunsUpdate id (SetCompleted (mkFullResult ins sd (length ys))) applied
         :: rest
    ∧ (searches ≤ 2)%nat
    ∧ (rest = webhook_calls env v ins id
       ∨ applied = false ∧ ∃ written, rest = [CallRunsUpdate id SetFailed written]).
Proof.
  intros Hv Hc Hfresh.
  rewrite (POST_created env request v id w Hv Hc Hfresh).
  set (wc := after_insert (new_run v) id w).
  set (sd := match axios_get env wc (scrape_target (v_domain v)) with
             | Normal page => scrape_page (v_domain v) page
             | Throw _ => scrape_minimal (v_domain v)
             end).
  destruct (research_calls env (v_company v) (logged (CallAxiosGet (scrape_target (v_domain v))) wc))
    as (ys & w2 & searches & Hresearch & Hsearches & Hcalls2).
  destruct (runRAGPipeline_calls env id (v_company v) sd ys w2)
    as (ins & w3 & embeddings & query & listing & prompt & reached & Hpipeline & Hcalls3).
  cbv zeta in Hpipeline, Hcalls3.
  assert (Hrun : process_run env v id wc = store_and_answer env v id sd ys ins w3).
  { unfold process_run.
    by rewrite (bind_normal _ _ _ _ _ (scrapeCompany_run env (v_domain v) wc)),
      (bind_normal _ _ _ _ _ Hresearch), (bind_normal _ _ _ _ _ Hpipeline). }
  assert (Hcalls : calls w3
            = calls w
              ++ [CallRunsInsert (new_run v) (Some id);
                  CallAxiosGet (scrape_target (v_domain v));
                  CallYouExpress (v_company v)]
              ++ replicate searches (CallYouSearch (v_company v))
              ++ take reached
                   (pipeline_calls id (v_company v) (assemble_chunks sd ys).1
                      (build_records id (assemble_chunks sd ys).1 embeddings
                         (assemble_chunks sd ys).2) query listing prompt)).
  { rewrite Hcalls3, Hcalls2. simpl. by rewrite <- !app_assoc. }
  exists searches, sd, ys, embeddings, query, listing, prompt, reached, ins.
  unfold try_catch at 1 2. rewrite Hrun.
  unfold store_and_answer. rewrite bind_run, runs_update_run.
  destruct (db_runs_update env w3 id _) as [|e|e].
  - rewrite bind_run, notify_explicit. eexists true, _. cbv zeta.
    split_and!; [|done|by left].
    apply new_calls_app. simpl. rewrite notified_calls. simpl. rewrite Hcalls.
    by rewrite <- !app_assoc.
  - rewrite bind_run, notify_explicit. eexists false, _. cbv zeta.
    split_and!; [|done|by left].
    apply new_calls_app. simpl. rewrite notified_calls. simpl. rewrite Hcalls.
    by rewrite <- !app_assoc.
  - rewrite process_failed_run.
    destruct (db_runs_update env _ id SetFailed) as [|e'|e'].
    + eexists false, _. cbv zeta. split_and!; [|done|right; split; [done|by eexists]].
      apply new_calls_app. simpl. rewrite Hcalls. by rewrite <- !app_assoc.
    + eexists false, _. cbv zeta. split_and!; [|done|right; split; [done|by eexists]].
      apply new_calls_app. simpl. rewrite Hcalls. by rewrite <- !app_assoc.
    + eexists false, _. cbv zeta. split_and!; [|done|right; split; [done|by eexists]].
      apply new_calls_app. simpl. rewrite Hcalls. by rewrite <- !app_assoc.
Qed.

(** Every collaborator fails; every step is attempted all the same. *)
Lemma POST_attempts_every_step_in_order_witness :
  let v := mkValidated "Acme" "acme.com" false in
  ∃ searches sd ys embeddings query listing prompt reached ins applied rest,
    new_calls empty_world
      (POST Scenario.all_down (Some Scenario.acme_request) empty_world).2
    = [CallRunsInsert (new_run v) (Some "run-0");
       CallAxiosGet "https://acme.com";
       CallYouExpress "Acme"]
      ++ replicate searches (CallYouSearch "Acme")
      ++ take reached
           (pipeline_calls "run-0" "Acme" (assemble_chunks sd ys).1
              (build_records "run-0" (assemble_chunks sd ys).1 embeddings
                 (assemble_chunks sd ys).2)
              query listing prompt)
      ++ CallRunsUpdate "run-0" (SetCompleted (mkFullResult ins sd (length ys))) applied
         :: rest
    ∧ (searches ≤ 2)%nat
    ∧ (rest = webhook_calls Scenario.all_down v ins "run-0"
       ∨ applied = false ∧ ∃ written, rest = [CallRunsUpdate "run-0" SetFailed written]).
Proof.
  intros v.
  apply (POST_attempts_every_step_in_order Scenario.all_down Scenario.acme_request
           v "run-0" empty_world); reflexivity.
Defined.
